(** * BBox-tool: the annotation state and the sidecar writer of [main.py]

    A shallow embedding of the event handlers of [ImageWidget] and
    [MainWidget] that touch the list of boxes, the image queue and the
    sidecar files, followed by the properties proved about them.

    Conventions.
    - Python integers are [Z]; a box is the Python list the code stores,
      [[lx; ly; rx; ry]] or [[lx; ly; rx; ry; idx]], hence a [list Z].
    - Handlers run in a state-and-exception monad over the whole
      application state [App]; an exception keeps the mutations made
      before it was raised, as in Python.
    - Painting (pixmaps, [update], [setFixedSize], [fitSize], the whole of
      [mouseMoveEvent]) is left out; [drawResultBox] is kept for the
      exceptions it can raise. The labels and buttons that are only
      written to ([cursorPos], [inputPathLabel], the enabled flags) are
      left out as well.
    - [key_config] is a field of the state: the list read from
      [config.json] when the program starts.
    - Float arithmetic, the directory listing and the image decoders are
      taken from a [Host] interface; [binary64_host] gives the floats of
      Python, and the properties that depend on the rounding are proved
      on it.
    - The disk holds the text files, the directories and the crops the
      program deals with. [open] on a sidecar file and [os.makedirs]
      succeed; a crop is saved only into a directory that is on the
      disk (FileNotFoundError otherwise), and only when the slice cut
      out of the image is not empty ([cv2.error] otherwise).
    - Paths are POSIX paths. *)

From Stdlib Require Import ZArith QArith Qround Qabs Qpower Lqa Ascii String List Lia.
From Stdlib Require Import SpecFloat.
From stdpp Require Import base option list strings gmap pretty.

Local Open Scope Z_scope.

(** ** Python helpers *)

(** [s[:-4]]: the string without its last four characters. *)
Definition drop_last4 (s : string) : string :=
  String.substring 0 (String.length s - 4) s.

(** [l[i]] for a Python index, negative indices counting from the end;
    [None] stands for IndexError. *)
Definition py_index {A : Type} (l : list A) (i : Z) : option A :=
  let n := Z.of_nat (length l) in
  if (0 <=? i) && (i <? n) then l !! Z.to_nat i
  else if (- n <=? i) && (i <? 0) then l !! Z.to_nat (n + i)
  else None.

(** [l.remove(x)]: drops the first element equal to [x]; [None] stands
    for the ValueError raised when there is none. *)
Fixpoint list_remove (x : string) (l : list string) : option (list string) :=
  match l with
  | [] => None
  | y :: l' =>
      if String.eqb y x then Some l'
      else match list_remove x l' with
           | Some r => Some (y :: r)
           | None => None
           end
  end.

(** [posixpath.basename]: what follows the last slash. *)
Fixpoint basename_from (acc : string) (s : string) : string :=
  match s with
  | EmptyString => acc
  | String c s' =>
      if Ascii.eqb c "/"%char then basename_from s' s'
      else basename_from acc s'
  end.

Definition os_path_basename (p : string) : string := basename_from p p.

(** [posixpath.join] of two components. *)
Definition ends_with_slash (a : string) : bool :=
  match String.get (String.length a - 1) a with
  | Some c => Ascii.eqb c "/"%char
  | None => false
  end.

Definition os_path_join (a b : string) : string :=
  match String.get 0 b with
  | Some "/"%char => b
  | _ => if String.eqb a "" || ends_with_slash a then a +:+ b
         else a +:+ "/" +:+ b
  end.

(** [posixpath.dirname]: the path up to its last slash, without the
    slashes it ends with unless it is made of slashes only. *)
Fixpoint has_slash (s : string) : bool :=
  match s with
  | EmptyString => false
  | String c s' => Ascii.eqb c "/"%char || has_slash s'
  end.

Fixpoint all_slashes (s : string) : bool :=
  match s with
  | EmptyString => true
  | String c s' => Ascii.eqb c "/"%char && all_slashes s'
  end.

(** [p[:p.rfind('/') + 1]] *)
Fixpoint up_to_last_slash (p : string) : string :=
  match p with
  | EmptyString => EmptyString
  | String c p' => if has_slash p then String c (up_to_last_slash p') else EmptyString
  end.

(** [head.rstrip('/')] *)
Fixpoint rstrip_slashes (head : string) : string :=
  match head with
  | EmptyString => EmptyString
  | String c head' =>
      if all_slashes head then EmptyString else String c (rstrip_slashes head')
  end.

Definition os_path_dirname (p : string) : string :=
  let head := up_to_last_slash p in
  if negb (String.eqb head "") && negb (all_slashes head) then rstrip_slashes head
  else head.

(** [numpy] basic slicing [a:b] along an axis of length [n]: a negative
    bound counts from the end, and both bounds are clipped to the axis.
    The slice holds the positions from the first bound up to, and
    without, the second. *)
Definition slice_bounds (a b n : Z) : Z * Z :=
  let adjust i := if i <? 0 then Z.max (i + n) 0 else Z.min i n in
  (adjust a, adjust b).

(** [img[y : y + h, x : x + w]] on an image of [ow] by [oh] pixels: the
    region [(x0, y0, width, height)] that is cut out, or [None] when the
    slice is empty. *)
Definition cut_region (rect : Z * Z * Z * Z) (ow oh : Z) : option (Z * Z * Z * Z) :=
  let '(x, y, w, h) := rect in
  let '(y0, y1) := slice_bounds y (y + h) oh in
  let '(x0, x1) := slice_bounds x (x + w) ow in
  if (y0 <? y1) && (x0 <? x1) then Some (x0, y0, x1 - x0, y1 - y0) else None.

(** ** The state *)

(** A stored box: four coordinates, then the label index once it has one. *)
Abbreviation Box := (list Z).

(** The text of the [autoLabel] status label; it is created with
    ['Manual Label'] and only ever toggled between the two. *)
Inductive Mode := ManualLabel | AutoLabel.

Definition text (m : Mode) : string :=
  match m with
  | ManualLabel => "Manual Label"
  | AutoLabel => "Auto Label"
  end.

Inductive MouseButton := LeftButton | RightButton | OtherButton.

(** [ImageWidget]. The attributes [W] and [H] are created by the first
    [setPixmap]; the values they start with here are never read, because
    [writeResults] reads them only once the status name has left
    ['Ready'], which [setNextImage] does three lines before [setPixmap]:
    the only way to stop in between is the AttributeError of line 472,
    which ends the session. *)
Record ImageWidget := mkImageWidget {
  results : list Box;
  last_idx : Z;
  drawing : bool;
  lastPoint : Z * Z;
  W : Z;
  H : Z;
  screen_height : Z
}.

(** The status bar of [MyApp]. *)
Record MyApp := mkMyApp {
  fileName : string;
  imageSize : string;
  autoLabel : Mode;
  progress : string
}.

(** [MainWidget]. [imgList] and [total_imgs] do not exist before the
    first [registerInputPath]. *)
Record MainWidget := mkMainWidget {
  currentImg : string;
  key_config : list string;
  crop_mode : bool;
  save_directory : option string;
  savePathLabel : string;
  imgList : option (list string);
  total_imgs : option Z
}.

(** What the program leaves on disk: text files by path, directories,
    and the crop images written, each with the region [(x, y, w, h)] of
    the image it was cut from. *)
Record Disk := mkDisk {
  files : gmap string string;
  dirs : gset string;
  crops : list (string * (Z * Z * Z * Z))
}.

Record App := mkApp {
  label_img : ImageWidget;
  main : MainWidget;
  parent : MyApp;
  disk : Disk;
  popups : list (string * string);
  stdout : list string
}.

Definition initial_ImageWidget (screen : Z) : ImageWidget :=
  mkImageWidget [] 0 false (0, 0) 0 0 screen.

Definition initial_App (screen : Z) (keys : list string) (d : Disk) : App :=
  mkApp (initial_ImageWidget screen)
        (mkMainWidget "start.png" keys false None "Save Path not selected" None None)
        (mkMyApp "Ready" "      " ManualLabel "                 ")
        d [] [].

(** Field updates. *)
Definition set_results (r : list Box) (w : ImageWidget) : ImageWidget :=
  mkImageWidget r (last_idx w) (drawing w) (lastPoint w) (W w) (H w) (screen_height w).
Definition set_last_idx (i : Z) (w : ImageWidget) : ImageWidget :=
  mkImageWidget (results w) i (drawing w) (lastPoint w) (W w) (H w) (screen_height w).
Definition set_drawing (b : bool) (w : ImageWidget) : ImageWidget :=
  mkImageWidget (results w) (last_idx w) b (lastPoint w) (W w) (H w) (screen_height w).
Definition set_lastPoint (p : Z * Z) (w : ImageWidget) : ImageWidget :=
  mkImageWidget (results w) (last_idx w) (drawing w) p (W w) (H w) (screen_height w).
Definition set_WH (w0 h0 : Z) (w : ImageWidget) : ImageWidget :=
  mkImageWidget (results w) (last_idx w) (drawing w) (lastPoint w) w0 h0 (screen_height w).

Definition on_label_img (f : ImageWidget -> ImageWidget) (s : App) : App :=
  mkApp (f (label_img s)) (main s) (parent s) (disk s) (popups s) (stdout s).
Definition on_main (f : MainWidget -> MainWidget) (s : App) : App :=
  mkApp (label_img s) (f (main s)) (parent s) (disk s) (popups s) (stdout s).
Definition on_parent (f : MyApp -> MyApp) (s : App) : App :=
  mkApp (label_img s) (main s) (f (parent s)) (disk s) (popups s) (stdout s).
Definition on_disk (f : Disk -> Disk) (s : App) : App :=
  mkApp (label_img s) (main s) (parent s) (f (disk s)) (popups s) (stdout s).

(** ** Exceptions and the handler monad *)

Inductive exn :=
  ValueError | IndexError | AttributeError | TypeError | ZeroDivisionError
| FileNotFoundError | cv2_error.

Inductive outcome (A : Type) :=
| Return (a : A)
| Raise (e : exn).
Arguments Return {A} a.
Arguments Raise {A} e.

Definition M (A : Type) : Type := App -> outcome A * App.

Definition ret {A : Type} (a : A) : M A := fun s => (Return a, s).
Definition raise {A : Type} (e : exn) : M A := fun s => (Raise e, s).
Definition bind {A B : Type} (m : M A) (k : A -> M B) : M B :=
  fun s => match m s with
           | (Return a, s') => k a s'
           | (Raise e, s') => (Raise e, s')
           end.
Definition get : M App := fun s => (Return s, s).
Definition modify (f : App -> App) : M unit := fun s => (Return tt, f s).

Notation "x <- m ;; k" := (bind m (fun x => k))
  (at level 100, m at next level, right associativity).
Notation "m ;; k" := (bind m (fun _ => k))
  (at level 100, right associativity).

(** The state a handler leaves, whether it returned or raised. *)
Definition state_after {A : Type} (m : M A) (s : App) : App := snd (m s).
Definition outcome_of {A : Type} (m : M A) (s : App) : outcome A := fst (m s).

(** ** ImageWidget *)

(** [showPopupOk]: the message box is recorded in [popups]. *)
Definition showPopupOk (title content : string) : M unit :=
  modify (fun s => mkApp (label_img s) (main s) (parent s) (disk s)
                         (popups s ++ [(title, content)]) (stdout s)).

(** What [drawResultBox] needs of one box: [box[:4]] must unpack into
    four names, and a box of five fields is drawn with
    [key_config[box[-1]]]. *)
Definition draw_box (keys : list string) (box : Box) : option exn :=
  match take 4 box with
  | [_; _; _; _] =>
      if (length box =? 5)%nat then
        match last box with
        | Some idx => match py_index keys idx with
                      | Some _ => None
                      | None => Some IndexError
                      end
        | None => None
        end
      else None
  | _ => Some ValueError
  end.

Fixpoint draw_boxes (keys : list string) (bs : list Box) : option exn :=
  match bs with
  | [] => None
  | b :: bs' => match draw_box keys b with
                | Some e => Some e
                | None => draw_boxes keys bs'
                end
  end.

Definition drawResultBox : M unit :=
  s <- get ;;
  match draw_boxes (key_config (main s)) (results (label_img s)) with
  | Some e => raise e
  | None => ret tt
  end.

(** The right-button scan of [mousePressEvent]: the index of the first
    box that contains the point, or the ValueError of a box too short to
    unpack met before any hit. *)
Fixpoint first_hit (x y : Z) (i : nat) (bs : list Box) : outcome (option nat) :=
  match bs with
  | [] => Return None
  | box :: bs' =>
      match take 4 box with
      | [lx; ly; rx; ry] =>
          if (lx <=? x) && (x <=? rx) && (ly <=? y) && (y <=? ry)
          then Return (Some i)
          else first_hit x y (S i) bs'
      | _ => Raise ValueError
      end
  end.

Definition mousePressEvent (button : MouseButton) (pos : Z * Z) : M unit :=
  match button with
  | LeftButton =>
      modify (on_label_img (fun w => set_lastPoint pos (set_drawing true w)))
  | RightButton =>
      s <- get ;;
      match first_hit (fst pos) (snd pos) 0 (results (label_img s)) with
      | Raise e => raise e
      | Return None => ret tt
      | Return (Some i) =>
          modify (on_label_img (fun w => set_results (delete i (results w)) w)) ;;
          drawResultBox
      end
  | OtherButton => ret tt
  end.

(** The backfill loop of the Auto branch: every box of four fields gets
    the label appended. *)
Definition backfill (idx : Z) (bs : list Box) : list Box :=
  map (fun b => if (length b =? 4)%nat then b ++ [idx] else b) bs.

(** Is there a last stored box, and has it [n] fields? ([self.results and
    len(self.results[-1]) == n]) *)
Definition last_has_len (n : nat) (bs : list Box) : bool :=
  match last bs with
  | Some b => (length b =? n)%nat
  | None => false
  end.

Definition mouseReleaseEvent (button : MouseButton) (pos : Z * Z) : M unit :=
  match button with
  | LeftButton =>
      s <- get ;;
      let '(p1_x, p1_y) := lastPoint (label_img s) in
      let '(p2_x, p2_y) := pos in
      let lx := Z.min p1_x p2_x in
      let ly := Z.min p1_y p2_y in
      let w := Z.abs (p1_x - p2_x) in
      let h := Z.abs (p1_y - p2_y) in
      if negb ((p1_x =? p2_x) && (p1_y =? p2_y)) then
        (if last_has_len 4 (results (label_img s))
            && String.eqb (text (autoLabel (parent s))) "Manual Label"
         then
           showPopupOk "warning messege" "Please mark the box you drew." ;;
           drawResultBox
         else if String.eqb (text (autoLabel (parent s))) "Auto Label" then
           modify (on_label_img (fun iw =>
             set_results (results iw ++ [[lx; ly; lx + w; ly + h; last_idx iw]]) iw)) ;;
           modify (on_label_img (fun iw =>
             set_results (backfill (last_idx iw) (results iw)) iw)) ;;
           drawResultBox
         else
           modify (on_label_img (fun iw =>
             set_results (results iw ++ [[lx; ly; lx + w; ly + h]]) iw))) ;;
        modify (on_label_img (set_drawing false))
      else ret tt
  | _ => ret tt
  end.

Definition cancelLast : M unit :=
  s <- get ;;
  match results (label_img s) with
  | [] => ret tt
  | _ :: _ =>
      modify (on_label_img (fun w => set_results (removelast (results w)) w)) ;;
      drawResultBox
  end.

Definition getRatio (s : App) : Z * Z := (W (label_img s), H (label_img s)).

Definition getResult (s : App) : list Box := results (label_img s).

Definition resetResult : M unit :=
  modify (on_label_img (set_results [])).

(** [self.results[-1][-1] = idx] on a box of five fields. *)
Definition set_last_field (idx : Z) (b : Box) : Box := removelast b ++ [idx].

Definition markBox (idx : Z) : M unit :=
  modify (on_label_img (set_last_idx idx)) ;;
  s <- get ;;
  match last (results (label_img s)) with
  | None => ret tt
  | Some b =>
      (if (length b =? 4)%nat then
         modify (on_label_img (fun w =>
           set_results (removelast (results w) ++ [b ++ [idx]]) w))
       else if (length b =? 5)%nat then
         modify (on_label_img (fun w =>
           set_results (removelast (results w) ++ [set_last_field idx b]) w))
       else raise ValueError) ;;
      drawResultBox
  end.

(** ** The host: float arithmetic, directory listing, image decoders

    Python floats are IEEE binary64 values; their operations are taken as
    an interface, with the mixed int and float cases the code uses spelled
    out, and given on binary64 by [binary64_host] below. The listing and
    the decoders read the disk as it is when they are called. *)
Class Host := {
  float : Type;
  float_of_int : Z -> float;
  float_0_8 : float;
  fmul : float -> float -> float;
  fsub : float -> float -> float;
  fdiv : float -> float -> float;
  int_truediv : Z -> Z -> float;
  int_gt_float : Z -> float -> bool;
  py_round : float -> Z;
  float_str : float -> string;
  glob : Disk -> string -> list string;
  QPixmap_size : Disk -> string -> Z * Z;
  imread_shape : Disk -> string -> option (Z * Z)
}.

(** [os.path.exists] on the modelled disk. *)
Definition os_path_exists (d : Disk) (p : string) : bool :=
  bool_decide (is_Some (files d !! p))
  || bool_decide (p ∈ dirs d)
  || existsb (fun c => String.eqb (fst c) p) (crops d).

(** [open(p, 'a')] followed by [write(txt)] and the close: the file is
    created when absent and [txt] goes to its end. *)
Definition append_file (p txt : string) (d : Disk) : Disk :=
  mkDisk (<[p := default "" (files d !! p) +:+ txt]> (files d)) (dirs d) (crops d).

(** The directory [p] is on the disk; the empty path is the working
    directory and a path made of slashes is the root, which are always
    there. *)
Definition dir_exists (d : Disk) (p : string) : bool :=
  all_slashes p || bool_decide (p ∈ dirs d).

Definition add_crop (p : string) (region : Z * Z * Z * Z) (d : Disk) : Disk :=
  mkDisk (files d) (dirs d) (crops d ++ [(p, region)]).

(** [crop_img.save(p, ...)]: the file is opened for writing, which
    raises FileNotFoundError when its directory does not exist. *)
Definition save_crop (p : string) (region : Z * Z * Z * Z) : M unit :=
  s <- get ;;
  if dir_exists (disk s) (os_path_dirname p) then modify (on_disk (add_crop p region))
  else raise FileNotFoundError.

(** [os.makedirs(p, exist_ok=True)], recorded by its leaf directory. *)
Definition makedirs (p : string) (d : Disk) : Disk :=
  mkDisk (files d) ({[p]} ∪ dirs d) (crops d).

Definition newline : string := String "010"%char EmptyString.

(** The values of [Qt.Key_Escape], [Qt.Key_A], [Qt.Key_E], [Qt.Key_Q] and
    [Qt.Checked]. *)
Definition Key_Escape : Z := 16777216.
Definition Key_A : Z := 65.
Definition Key_E : Z := 69.
Definition Key_Q : Z := 81.
Definition Qt_Checked : Z := 2.

Section Handlers.
Context {host : Host}.

(** *** ImageWidget.setPixmap *)
Definition setPixmap (image_fn : string) : M unit :=
  s <- get ;;
  let '(W0, H0) := QPixmap_size (disk s) image_fn in
  let limit := fmul (float_of_int (screen_height (label_img s))) float_0_8 in
  (if int_gt_float H0 limit then
     if H0 =? 0 then raise ZeroDivisionError
     else
       let resize_ratio := fdiv limit (float_of_int H0) in
       let W1 := py_round (fmul (float_of_int W0) resize_ratio) in
       let H1 := py_round (fmul (float_of_int H0) resize_ratio) in
       modify (on_label_img (set_WH W1 H1))
   else modify (on_label_img (set_WH W0 H0))) ;;
  modify (fun s' => on_parent (fun p =>
    mkMyApp (fileName p)
            (pretty (W (label_img s')) +:+ "x" +:+ pretty (H (label_img s')))
            (autoLabel p) (progress p)) s').

(** *** MainWidget.writeResults *)

(** The five values of [yolo_format] for one box. *)
Definition yolo_format (lx ly rx ry idx Wd Hd : Z) : Z * float * float * float * float :=
  (idx,
   fdiv (int_truediv (lx + rx) 2) (float_of_int Wd),
   fdiv (int_truediv (ly + ry) 2) (float_of_int Hd),
   int_truediv (rx - lx) Wd,
   int_truediv (ry - ly) Hd).

Definition yolo_line (y : Z * float * float * float * float) : string :=
  let '(idx, cx, cy, w, h) := y in
  pretty idx +:+ " " +:+ float_str cx +:+ " " +:+ float_str cy +:+ " "
    +:+ float_str w +:+ " " +:+ float_str h +:+ newline.

(** The pixel rectangle of the crop against the decoded image. *)
Definition crop_rect (y : Z * float * float * float * float) (ow oh : Z)
  : Z * Z * Z * Z :=
  let '(_, cx, cy, nw, nh) := y in
  let w := py_round (fmul nw (float_of_int ow)) in
  let h := py_round (fmul nh (float_of_int oh)) in
  let x := py_round (fsub (fmul cx (float_of_int ow)) (int_truediv w 2)) in
  let y0 := py_round (fsub (fmul cy (float_of_int oh)) (int_truediv h 2)) in
  (x, y0, w, h).

(** The body of the loop over [enumerate(res)] for the box of ordinal
    [i]. In crop mode the exceptions come in the order of the lines: the
    decoders (lines 509-514), [key_config[idx]] (line 524), [cvtColor] on
    an empty slice (line 527), [os.path.join] on a missing save directory
    and the [save] itself (line 530). *)
Definition write_box (i : nat) (elements : Box) : M unit :=
  match elements with
  | [lx; ly; rx; ry; idx] =>
      s <- get ;;
      let '(Wd, Hd) := getRatio s in
      if (Wd =? 0) || (Hd =? 0) then raise ZeroDivisionError
      else
        let y := yolo_format lx ly rx ry idx Wd Hd in
        let img := currentImg (main s) in
        modify (on_disk (append_file (drop_last4 img +:+ ".txt") (yolo_line y))) ;;
        s1 <- get ;;
        if crop_mode (main s) then
          match imread_shape (disk s1) img with
          | None => raise AttributeError
          | Some (oh, ow) =>
              match py_index (key_config (main s)) idx with
              | None => raise IndexError
              | Some name =>
                  let filename :=
                    drop_last4 (os_path_basename img) +:+ "-" +:+ name +:+ "-"
                      +:+ pretty i +:+ ".jpg" in
                  match cut_region (crop_rect y ow oh) ow oh with
                  | None => raise cv2_error
                  | Some region =>
                      match save_directory (main s) with
                      | None => raise TypeError
                      | Some dir => save_crop (os_path_join dir filename) region
                      end
                  end
              end
          end
        else ret tt
  | _ => raise ValueError
  end.

Fixpoint write_boxes (i : nat) (res : list Box) : M unit :=
  match res with
  | [] => ret tt
  | elements :: res' => write_box i elements ;; write_boxes (S i) res'
  end.

Definition writeResults (res : list Box) : M unit :=
  s <- get ;;
  if negb (String.eqb (fileName (parent s)) "Ready") then
    (match res with
     | [] => modify (on_disk (append_file (drop_last4 (currentImg (main s)) +:+ ".txt") ""))
     | _ :: _ => ret tt
     end) ;;
    write_boxes 0 res
  else ret tt.

(** *** MainWidget.setNextImage *)

(** Lines 433-434: the default save directory is created before anything
    else when crop mode is on. *)
Definition ensure_save_directory : M unit :=
  s <- get ;;
  if String.eqb (savePathLabel (main s)) "Results" && crop_mode (main s) then
    match save_directory (main s) with
    | None => raise TypeError
    | Some d => modify (on_disk (makedirs d))
    end
  else ret tt.

Definition set_currentImg (p : string) (m : MainWidget) : MainWidget :=
  mkMainWidget p (key_config m) (crop_mode m) (save_directory m)
               (savePathLabel m) (imgList m) (total_imgs m).
Definition set_imgList (l : option (list string)) (m : MainWidget) : MainWidget :=
  mkMainWidget (currentImg m) (key_config m) (crop_mode m) (save_directory m)
               (savePathLabel m) l (total_imgs m).
Definition set_total_imgs (n : option Z) (m : MainWidget) : MainWidget :=
  mkMainWidget (currentImg m) (key_config m) (crop_mode m) (save_directory m)
               (savePathLabel m) (imgList m) n.
Definition set_crop_mode (b : bool) (m : MainWidget) : MainWidget :=
  mkMainWidget (currentImg m) (key_config m) b (save_directory m)
               (savePathLabel m) (imgList m) (total_imgs m).
Definition set_save (dir : option string) (label : string) (m : MainWidget) : MainWidget :=
  mkMainWidget (currentImg m) (key_config m) (crop_mode m) dir
               label (imgList m) (total_imgs m).

(** The [try: self.currentImg = self.imgList.pop(0)] with its handler. *)
Definition pop_next : M unit :=
  s <- get ;;
  match imgList (main s) with
  | Some (p :: rest) =>
      modify (on_main (fun m => set_currentImg p (set_imgList (Some rest) m)))
  | _ => modify (on_main (set_currentImg "end.png"))
  end.

(** From line 455 on: the status bar is refreshed and the current image
    shown. The orientation fix-up in between only rewrites the image
    file, inside a [try] that swallows every exception. *)
Definition show_current : M unit :=
  s <- get ;;
  modify (on_parent (fun p =>
    mkMyApp (os_path_basename (currentImg (main s))) (imageSize p)
            (autoLabel p) (progress p))) ;;
  match total_imgs (main s), imgList (main s) with
  | Some total, Some l =>
      modify (on_parent (fun p =>
        mkMyApp (fileName p) (imageSize p) (autoLabel p)
                (pretty (total - Z.of_nat (length l)) +:+ "/" +:+ pretty total))) ;;
      setPixmap (currentImg (main s))
  | _, _ => raise AttributeError
  end.

(** [not img] for the optional argument. *)
Definition falsy (img : option string) : bool :=
  match img with
  | None => true
  | Some p => String.eqb p ""
  end.

(** The guard of line 440: [res and len(res[-1]) != 5]. *)
Definition last_not_marked (res : list Box) : bool :=
  match last res with
  | Some b => negb (length b =? 5)%nat
  | None => false
  end.

Definition setNextImage (img : option string) : M (option string) :=
  ensure_save_directory ;;
  if falsy img then
    s <- get ;;
    let res := getResult s in
    if last_not_marked res then
      showPopupOk "warning messege" "please mark the box you drew." ;;
      ret (Some "Not Marked")
    else
      writeResults res ;;
      resetResult ;;
      pop_next ;;
      show_current ;;
      ret None
  else
    resetResult ;;
    show_current ;;
    ret None.

(** *** MainWidget.registerSavePath and registerInputPath

    [print] appends its line to [stdout]. *)

Definition print_line (line : string) : M unit :=
  modify (fun s => mkApp (label_img s) (main s) (parent s) (disk s)
                         (popups s) (stdout s ++ [line])).

Definition registerSavePath (directory : string) : M unit :=
  modify (on_main (fun m => set_save (Some directory) (savePathLabel m) m)) ;;
  let basename := os_path_basename directory in
  if negb (String.eqb basename "") then
    modify (on_main (fun m => set_save (save_directory m) (basename +:+ "/") m))
  else
    print_line "Output Path not selected" ;;
    modify (on_main (fun m => set_save None (savePathLabel m) m)).

(** The loop [for skip in to_skip: self.imgList.remove(skip)]. *)
Fixpoint remove_all (to_skip : list string) (l : list string) : option (list string) :=
  match to_skip with
  | [] => Some l
  | skip :: rest =>
      match list_remove skip l with
      | Some l' => remove_all rest l'
      | None => None
      end
  end.

Definition sidecar_exists (d : Disk) (imgPath : string) : bool :=
  os_path_exists d (drop_last4 imgPath +:+ ".txt").

(** Lines 569-582: the scan of the chosen directory. *)
Definition scan (directory : string) : M unit :=
  s <- get ;;
  let found := glob (disk s) (directory +:+ "/" +:+ "*.jpg")
               ++ glob (disk s) (directory +:+ "/" +:+ "*.png") in
  modify (on_main (fun m =>
    set_total_imgs (Some (Z.of_nat (length found))) (set_imgList (Some found) m))) ;;
  let to_skip := filter (fun p => sidecar_exists (disk s) p = true) found in
  match remove_all to_skip found with
  | Some l => modify (on_main (set_imgList (Some l)))
  | None => raise ValueError
  end.

Definition registerInputPath (directory : string) : M (option Z) :=
  let basename := os_path_basename directory in
  if String.eqb basename "" then
    print_line "Input Path not selected" ;;
    ret (Some (-1))
  else
    scan directory ;;
    s <- get ;;
    (if bool_decide (save_directory (main s) = None)
        || String.eqb (savePathLabel (main s)) "Results"
     then modify (on_main (set_save (Some (os_path_join directory "Results")) "Results"))
     else ret tt) ;;
    ret None.

(** *** MainWidget.cropMode and keyPressEvent *)

Definition cropMode (state : Z) : M unit :=
  if state =? Qt_Checked then modify (on_main (set_crop_mode true))
  else modify (on_main (set_crop_mode false)).

(** [enumerate(range(49, 58), 1)] *)
Definition digit_keys : list (Z * Z) :=
  [(1, 49); (2, 50); (3, 51); (4, 52); (5, 53); (6, 54); (7, 55); (8, 56); (9, 57)].

Fixpoint mark_by_key (key config_len : Z) (ks : list (Z * Z)) : M unit :=
  match ks with
  | [] => ret tt
  | (i, key_n) :: ks' =>
      if (key =? key_n) && (i <=? config_len) then markBox (i - 1)
      else mark_by_key key config_len ks'
  end.

Definition toggle_autoLabel (p : MyApp) : MyApp :=
  mkMyApp (fileName p) (imageSize p)
          (if String.eqb (text (autoLabel p)) "Auto Label" then ManualLabel else AutoLabel)
          (progress p).

Definition keyPressEvent (key : Z) : M unit :=
  s <- get ;;
  mark_by_key key (Z.of_nat (length (key_config (main s)))) digit_keys ;;
  if key =? Key_Escape then cancelLast
  else if key =? Key_E then (setNextImage None ;; ret tt)
  else if key =? Key_Q then (resetResult ;; drawResultBox)
  else if key =? Key_A then modify (on_parent toggle_autoLabel)
  else ret tt.

(** ** Events

    What the user can do, and the slot each event is connected to. *)
Inductive Event :=
| MousePress (button : MouseButton) (pos : Z * Z)
| MouseRelease (button : MouseButton) (pos : Z * Z)
| KeyPress (key : Z)
| NextClicked
| CancelClicked
| CropModeChanged (state : Z)
| InputPathChosen (directory : string)
| SavePathChosen (directory : string).

Definition handle (e : Event) : M unit :=
  match e with
  | MousePress b p => mousePressEvent b p
  | MouseRelease b p => mouseReleaseEvent b p
  | KeyPress k => keyPressEvent k
  | NextClicked => setNextImage None ;; ret tt
  | CancelClicked => cancelLast
  | CropModeChanged st => cropMode st
  | InputPathChosen d => registerInputPath d ;; ret tt
  | SavePathChosen d => registerSavePath d
  end.

End Handlers.

(** ** A host to run the handlers on examples

    Floats are replaced by exact rationals and [round] by rounding half
    to even on them; the listing and the decoders are given. Binary64
    arithmetic differs from it by its rounding, so nothing below is
    proved about this host alone: the theorems stated for a [Host] hold
    for every host. *)

Definition round_half_even (q : Q) : Z :=
  let f := Qfloor q in
  match Qcompare (q - inject_Z f) (1 # 2) with
  | Lt => f
  | Gt => f + 1
  | Eq => if Z.even f then f else f + 1
  end.

Definition exact_host (listing : Disk -> string -> list string)
    (pixmap : Disk -> string -> Z * Z)
    (decode : Disk -> string -> option (Z * Z)) : Host :=
  {| float := Q;
     float_of_int := inject_Z;
     float_0_8 := 8 # 10;
     fmul := Qmult;
     fsub := Qminus;
     fdiv := Qdiv;
     int_truediv := fun a b => Qdiv (inject_Z a) (inject_Z b);
     int_gt_float := fun n x => match Qcompare (inject_Z n) x with Gt => true | _ => false end;
     py_round := round_half_even;
     float_str := fun q => pretty (Qnum q) +:+ "/" +:+ pretty (Zpos (Qden q));
     glob := listing;
     QPixmap_size := pixmap;
     imread_shape := decode |}.

Definition empty_disk : Disk := mkDisk ∅ ∅ [].

(** A directory with five images, two of them already labelled. *)
Definition demo_disk : Disk :=
  mkDisk (<["/data/b.txt" := ""]> (<["/data/d.txt" := "0 1/2 1/2 1/5 1/10"]> ∅)) ∅ [].

Definition demo_listing (d : Disk) (pattern : string) : list string :=
  if String.eqb pattern "/data/*.jpg" then ["/data/a.jpg"; "/data/b.jpg"; "/data/c.jpg"]
  else if String.eqb pattern "/data/*.png" then ["/data/d.png"; "/data/e.png"]
  else [].

Definition demo_host : Host :=
  exact_host demo_listing (fun _ _ => (1000, 500)) (fun _ _ => Some (500, 1000)).

(** ** Binary64 floats

    A Python float is an IEEE binary64 number: [spec_float] of the
    Standard Library at precision 53 and maximal exponent 1024, with the
    operations the library specifies its primitive floats by; they
    round to nearest, ties to even. Where Python raises on a
    float operation (a division by zero, the conversion of an integer
    beyond the range of the floats, [round] of an infinity or of a NaN)
    the functions below return a value: the callers test the divisors
    for zero first, and the other cases are out of reach of the 32-bit
    integers Qt hands over. *)

(** [float(z)]. *)
Definition b64_of_int (z : Z) : spec_float := binary_normalize 53 1024 z 0 false.

Definition b64_mul : spec_float -> spec_float -> spec_float := SFmul 53 1024.
Definition b64_sub : spec_float -> spec_float -> spec_float := SFsub 53 1024.
Definition b64_div : spec_float -> spec_float -> spec_float := SFdiv 53 1024.

(** The quotient of two positive integers, rounded once. *)
Definition b64_ratio (s : bool) (m1 m2 : Z) : spec_float :=
  let '(mz, ez, lz) := SFdiv_core_binary 53 1024 m1 0 m2 0 in
  binary_round_aux 53 1024 s mz ez lz.

(** [a / b] on two integers: the exact quotient, rounded once. *)
Definition b64_truediv (a b : Z) : spec_float :=
  if b =? 0 then S754_nan
  else if a =? 0 then S754_zero (b <? 0)
  else b64_ratio (xorb (a <? 0) (b <? 0)) (Z.abs a) (Z.abs b).

(** [z > x] for an integer and a float, which Python compares by their
    exact values. *)
Definition b64_int_gt (z : Z) (x : spec_float) : bool :=
  match x with
  | S754_nan => false
  | S754_infinity s => s
  | S754_zero _ => 0 <? z
  | S754_finite s m e =>
      let v := cond_Zopp s (Zpos m) in
      if 0 <=? e then v * 2 ^ e <? z else v <? z * 2 ^ (- e)
  end.

(** [round(x)]: the nearest integer, the even one of two equally near. *)
Definition b64_round (x : spec_float) : Z :=
  match x with
  | S754_finite s m e =>
      let n :=
        if 0 <=? e then Zpos m * 2 ^ e
        else
          let d := 2 ^ (- e) in
          let q := Zpos m / d in
          match 2 * (Zpos m mod d) ?= d with
          | Lt => q
          | Gt => q + 1
          | Eq => if Z.even q then q else q + 1
          end in
      cond_Zopp s n
  | _ => 0
  end.

(** The literal [0.8]: the float nearest to 8/10. *)
Definition b64_0_8 : spec_float := S754_finite false 7205759403792794 (-53).

(** *** [str] of a float

    [repr]: the shortest string of digits that reads back as the same
    float, and among those the one nearest to it (the even one of two
    equally near); in exponent notation when the decimal point is more
    than 16 places to the right of the first digit or more than 3 to
    its left. *)

(** [p / q] times [10 ^ k], as a fraction. *)
Definition scale10 (p q k : Z) : Z * Z :=
  if 0 <=? k then (p * 10 ^ k, q) else (p, q * 10 ^ (- k)).

(** The least [k], at most [fuel] above the one given, with
    [p / q < 10 ^ k]. *)
Fixpoint decimal_point (fuel : nat) (p q k : Z) : Z :=
  match fuel with
  | O => k
  | S fuel' =>
      let '(p', q') := scale10 p q (- k) in
      if p' <? q' then k else decimal_point fuel' p q (k + 1)
  end.

Definition is_b64 (m : positive) (e : Z) (x : spec_float) : bool :=
  match x with
  | S754_finite false m' e' => Pos.eqb m m' && (e =? e')
  | _ => false
  end.

(** The float the decimal [c * 10 ^ k] reads as. *)
Definition b64_of_decimal (c k : Z) : spec_float :=
  let '(p, q) := scale10 c 1 k in b64_ratio false p q.

(** The digits of the shortest decimal of at least [n] digits that
    reads back as [m * 2 ^ e = p / q], with the exponent of its last
    digit; [k] is the position of the decimal point of [p / q]. *)
Fixpoint shortest_digits (fuel : nat) (m : positive) (e : Z) (p q k n : Z) : Z * Z :=
  let '(p', q') := scale10 p q (n - k) in
  let lo := p' / q' in
  let hi := lo + 1 in
  let lo_ok := is_b64 m e (b64_of_decimal lo (k - n)) in
  let hi_ok := is_b64 m e (b64_of_decimal hi (k - n)) in
  let near_lo :=
    match 2 * (p' mod q') ?= q' with
    | Lt => true
    | Gt => false
    | Eq => Z.even lo
    end in
  if lo_ok && (near_lo || negb hi_ok) then (lo, k - n)
  else if hi_ok then (hi, k - n)
  else match fuel with
       | O => (lo, k - n)
       | S fuel' => shortest_digits fuel' m e p q k (n + 1)
       end.

Fixpoint zeros (n : nat) : string :=
  match n with
  | O => ""
  | S n' => String "0" (zeros n')
  end.

(** The digits without their trailing zeros. *)
Fixpoint strip_zeros (s : string) : string :=
  match s with
  | EmptyString => EmptyString
  | String c s' =>
      let r := strip_zeros s' in
      if Ascii.eqb c "0" && String.eqb r "" then EmptyString else String c r
  end.

(** The digits laid out around the decimal point, which stands [decpt]
    places to the right of the start of [digits]. *)
Definition float_digits (digits : string) (decpt : Z) : string :=
  let n := Z.of_nat (String.length digits) in
  if (decpt <=? -4) || (16 <? decpt) then
    let mantissa :=
      match digits with
      | String c EmptyString => digits
      | String c rest => String c (String "." rest)
      | EmptyString => digits
      end in
    let ex := decpt - 1 in
    mantissa +:+ "e" +:+ (if ex <? 0 then "-" else "+")
      +:+ (if Z.abs ex <? 10 then "0" else "") +:+ pretty (Z.abs ex)
  else if decpt <=? 0 then "0." +:+ zeros (Z.to_nat (- decpt)) +:+ digits
  else if n <=? decpt then digits +:+ zeros (Z.to_nat (decpt - n)) +:+ ".0"
  else String.substring 0 (Z.to_nat decpt) digits +:+ "."
         +:+ String.substring (Z.to_nat decpt) (Z.to_nat (n - decpt)) digits.

Definition float_repr (x : spec_float) : string :=
  match x with
  | S754_nan => "nan"
  | S754_infinity s => if s then "-inf" else "inf"
  | S754_zero s => if s then "-0.0" else "0.0"
  | S754_finite s m e =>
      let '(p, q) := if 0 <=? e then (Zpos m * 2 ^ e, 1) else (Zpos m, 2 ^ (- e)) in
      let k0 := (Zdigits2 p - Zdigits2 q) * 30103 / 100000 - 2 in
      let k := decimal_point 8 p q k0 in
      let '(c, last) := shortest_digits 16 m e p q k 1 in
      let all := pretty c in
      (if s then "-" else "")
        +:+ float_digits (strip_zeros all) (last + Z.of_nat (String.length all))
  end.

(** *** The host on binary64 floats *)

Definition binary64_host (listing : Disk -> string -> list string)
    (pixmap : Disk -> string -> Z * Z)
    (decode : Disk -> string -> option (Z * Z)) : Host :=
  {| float := spec_float;
     float_of_int := b64_of_int;
     float_0_8 := b64_0_8;
     fmul := b64_mul;
     fsub := b64_sub;
     fdiv := b64_div;
     int_truediv := b64_truediv;
     int_gt_float := b64_int_gt;
     py_round := b64_round;
     float_str := float_repr;
     glob := listing;
     QPixmap_size := pixmap;
     imread_shape := decode |}.

(** The demonstration directory with images of 1000 by 2000 pixels. *)
Definition tall_host : Host :=
  binary64_host demo_listing (fun _ _ => (1000, 2000)) (fun _ _ => Some (2000, 1000)).

(** The same with images of 85 by 1088 pixels. *)
Definition narrow_host : Host :=
  binary64_host demo_listing (fun _ _ => (85, 1088)) (fun _ _ => Some (1088, 85)).

(** *** The value of a float *)

Definition pow2 (e : Z) : Q := (2 ^ e)%Q.

Definition b64_value (x : spec_float) : Q :=
  match x with
  | S754_finite s m e => inject_Z (cond_Zopp s (Zpos m)) * pow2 e
  | _ => 0
  end.

Definition signed (s : bool) (x : Q) : Q := if s then (- x)%Q else x.

(** [x] lies at [m * 2 ^ e] or between it and the next multiple of
    [2 ^ e], on the side of the middle the location tells. *)
Definition located (m e : Z) (l : location) (x : Q) : Prop :=
  match l with
  | loc_Exact => x == inject_Z m * pow2 e
  | loc_Inexact c =>
      (inject_Z m * pow2 e < x /\ x < (inject_Z m + 1) * pow2 e)
      /\ (x ?= (inject_Z m + (1 # 2)) * pow2 e) = c
  end%Q.

(** [y] is [x] rounded to 53 significant bits, to nearest. *)
Definition RN (x y : Q) : Prop :=
  (x == 0 /\ y == 0)%Q \/
  exists mag k : Z,
    ((pow2 (mag - 1) <= Qabs x /\ Qabs x < pow2 mag)
     /\ y == inject_Z k * pow2 (mag - 53)
     /\ Qabs (y - x) <= pow2 (mag - 54))%Q.

(** A finite number in the normal range, of magnitude at most [2^k], or
    zero. *)
Definition b64_ok (k : Z) (r : spec_float) : Prop :=
  match r with
  | S754_zero _ => True
  | S754_finite _ m e => Zdigits2 (Zpos m) = 53 /\ - k <= e + 53 <= k
  | _ => False
  end.

(** *** The display geometry of the specification *)

(** [min(1, 0.8 * S / originalHeight)]. *)
Definition spec_scale {host : Host} (screen originalHeight : Z) : float :=
  let ratio := fdiv (fmul float_0_8 (float_of_int screen)) (float_of_int originalHeight) in
  if int_gt_float 1 ratio then ratio else float_of_int 1.

(** [round(originalWidth * scale)] and [round(originalHeight * scale)]. *)
Definition spec_display_size {host : Host} (screen originalWidth originalHeight : Z)
  : Z * Z :=
  let scale := spec_scale screen originalHeight in
  (py_round (fmul (float_of_int originalWidth) scale),
   py_round (fmul (float_of_int originalHeight) scale)).

(** ** The properties of the store *)

Definition labeled (b : Box) : bool := (length b =? 5)%nat.
Definition unlabeled (b : Box) : bool := (length b =? 4)%nat.
Definition well_shaped (b : Box) : bool := labeled b || unlabeled b.

(** Every box is of one of the two shapes and every box before the last
    one is labelled. *)
Definition store_inv (bs : list Box) : bool :=
  forallb labeled (removelast bs) && forallb well_shaped bs.

(** Zero width or zero height. *)
Definition degenerate (b : Box) : bool :=
  match b with
  | lx :: ly :: rx :: ry :: _ => (rx - lx =? 0) || (ry - ly =? 0)
  | _ => false
  end.

(** Left is not right of right, top is not below bottom. *)
Definition corner_normalized (b : Box) : bool :=
  match b with
  | lx :: ly :: rx :: ry :: _ => (lx <=? rx) && (ly <=? ry)
  | _ => false
  end.

(** The rectangle between the press point [p1] and the release point
    [p2], as [mouseReleaseEvent] computes it. *)
Definition rect_of (p1 p2 : Z * Z) : Box :=
  let lx := Z.min (fst p1) (fst p2) in
  let ly := Z.min (snd p1) (snd p2) in
  [lx; ly; lx + Z.abs (fst p1 - fst p2); ly + Z.abs (snd p1 - snd p2)].

(** [finalize]: the release of the left button. *)
Definition finalize (pos : Z * Z) : M unit := mouseReleaseEvent LeftButton pos.

Definition pending_warning : string * string :=
  ("warning messege", "Please mark the box you drew.").


(** A property kept by a handler, whether it returns or raises. *)
Definition preserves {A : Type} (I : App -> Prop) (m : M A) : Prop :=
  forall s, I s -> I (state_after m s).

(** A part of the state a handler never changes. *)
Definition unchanged {A B : Type} (proj : App -> B) (m : M A) : Prop :=
  forall s, proj (state_after m s) = proj s.

Definition store (s : App) : list Box := results (label_img s).

(** A property of stores that holds of the empty store and is kept by
    the four handlers of [ImageWidget] that change the list. *)
Record closed_store_property (P : list Box -> Prop) : Prop := {
  closed_nil : P [];
  closed_finalize : forall pos, preserves (fun s => P (store s)) (finalize pos);
  closed_markBox : forall idx, preserves (fun s => P (store s)) (markBox idx);
  closed_cancelLast : preserves (fun s => P (store s)) cancelLast;
  closed_press : forall button pos,
    preserves (fun s => P (store s)) (mousePressEvent button pos)
}.

(** A session: the events are handled in turn for as long as the
    handlers return; an exception that reaches the event loop ends it. *)
Fixpoint run_events {host : Host} (es : list Event) (s : App) : App :=
  match es with
  | [] => s
  | e :: es' =>
      match handle e s with
      | (Return _, s') => run_events es' s'
      | (Raise _, s') => s'
      end
  end.

(** The operations of the box store and the handler behind each. *)
Inductive StoreOp :=
| Finalize (pos : Z * Z)
| LabelLast (idx : Z)
| RemoveAt (point : Z * Z)
| RemoveLast
| Reset.

Definition store_op (o : StoreOp) : M unit :=
  match o with
  | Finalize pos => finalize pos
  | LabelLast idx => markBox idx
  | RemoveAt point => mousePressEvent RightButton point
  | RemoveLast => cancelLast
  | Reset => resetResult
  end.

(** [advance]: the Next button and the E key. *)
Definition advance {host : Host} : M (option string) := setNextImage None.

(** The test of line 433, and the case in which line 434 cannot make the
    directory: crop mode is on, the label reads ['Results'] and no save
    directory is set. *)
Definition default_wanted (s : App) : bool :=
  String.eqb (savePathLabel (main s)) "Results" && crop_mode (main s).

Definition no_save_directory (s : App) : bool :=
  default_wanted s && bool_decide (save_directory (main s) = None).

(** The image already has its sidecar file. *)
Abbreviation already_labelled d imgPath := (sidecar_exists d imgPath = true).

(** The images a scan of [directory] finds, and those it keeps. *)
Definition eligible {host : Host} (d : Disk) (directory : string) : list string :=
  glob d (directory +:+ "/*.jpg") ++ glob d (directory +:+ "/*.png").

Definition remaining {host : Host} (d : Disk) (directory : string) : list string :=
  filter (fun p => ~ already_labelled d p) (eligible d directory).

(** The sidecar file of the current image. *)
Definition sidecar (s : App) : string := drop_last4 (currentImg (main s)) +:+ ".txt".

(** States of a session on the demonstration directory. *)
Definition demo_start : App := initial_App 1000 ["cat"; "dog"] demo_disk.

(** One box drawn in Manual mode and not yet labelled, and the button
    pressed again at (30, 30). *)
Definition demo_pending : App :=
  @run_events demo_host
    [MousePress LeftButton (10, 20); MouseRelease LeftButton (50, 80);
     MousePress LeftButton (30, 30)] demo_start.

(** The same in Auto mode. *)
Definition demo_pending_auto : App :=
  @run_events demo_host [KeyPress Key_A] demo_pending.

(** The first image of the directory is shown and has one labelled box. *)
Definition demo_marked : App :=
  @run_events demo_host
    [InputPathChosen "/data"; NextClicked;
     MousePress LeftButton (10, 20); MouseRelease LeftButton (50, 80);
     KeyPress 50] demo_start.

(** The first image is shown, nothing is drawn, crop mode is on. *)
Definition demo_loaded : App :=
  @run_events demo_host
    [InputPathChosen "/data"; NextClicked; CropModeChanged Qt_Checked] demo_start.


(** ** Further notions for the properties of the handlers *)

(** The hit test of line 144 on one box. *)
Definition contains (x y : Z) (box : Box) : bool :=
  match take 4 box with
  | [lx; ly; rx; ry] => (lx <=? x) && (x <=? rx) && (ly <=? y) && (y <=? ry)
  | _ => false
  end.

(** [idx] is a position of [key_config]. *)
Definition valid_label (keys : list string) (idx : Z) : bool :=
  (0 <=? idx) && (idx <? Z.of_nat (length keys)).

(** A box of five fields carries a position of [key_config]. *)
Definition label_ok (keys : list string) (b : Box) : bool :=
  if (length b =? 5)%nat then
    match last b with
    | Some idx => valid_label keys idx
    | None => true
    end
  else true.

(** The last used label and the label of every stored box are positions
    of [key_config]. *)
Definition labels_inv (s : App) : bool :=
  valid_label (key_config (main s)) (last_idx (label_img s))
  && forallb (label_ok (key_config (main s))) (store s).

(** What [drawResultBox] relies on: the store invariant and valid labels. *)
Definition drawable (s : App) : bool := store_inv (store s) && labels_inv s.

(** The handler returns and keeps both. *)
Definition safe {A : Type} (m : M A) : Prop :=
  forall s, drawable s = true ->
    (exists a, outcome_of m s = Return a) /\ drawable (state_after m s) = true.

(** The labels and the last used label. *)
Definition keys_and_label (s : App) : list string * Z :=
  (key_config (main s), last_idx (label_img s)).

(** The queue and the total exist together, and the queue is not longer
    than the total. *)
Definition queue_inv (s : App) : bool :=
  match imgList (main s), total_imgs (main s) with
  | Some l, Some total => Z.of_nat (length l) <=? total
  | None, None => true
  | _, _ => false
  end.

(** *** MainWidget.__init__: the labels read from the configuration

    [config_dict] is the dictionary [getConfigFromJson] returns, with
    strings for values; [None] stands for the KeyError of a missing key. *)
Definition config_key (i : nat) : string := "key_" +:+ pretty i.

Fixpoint collect_keys (config_dict : gmap string string) (range : list nat)
  : option (list string) :=
  match range with
  | [] => Some []
  | i :: range' =>
      match config_dict !! config_key i with
      | None => None
      | Some v =>
          match collect_keys config_dict range' with
          | None => None
          | Some vs => Some (if String.eqb v "" then vs else v :: vs)
          end
      end
  end.

Definition load_key_config (config_dict : gmap string string) : option (list string) :=
  collect_keys config_dict (seq 1 9).

(** The state the program starts in. *)
Definition startup (screen : Z) (config_dict : gmap string string) (d : Disk)
  : option App :=
  match load_key_config config_dict with
  | Some keys => Some (initial_App screen keys d)
  | None => None
  end.

(** The text file at [p] exists. *)
Definition file_exists (p : string) (s : App) : Prop := is_Some (files (disk s) !! p).

(** The events that call [setNextImage]. *)
Definition is_advance (e : Event) : bool :=
  match e with
  | NextClicked => true
  | KeyPress key => key =? Key_E
  | _ => false
  end.

Section Written.
Context {host : Host}.

(** The line [writeResults] writes for one box of five fields. *)
Definition box_line (Wd Hd : Z) (b : Box) : string :=
  match b with
  | [lx; ly; rx; ry; idx] => yolo_line (yolo_format lx ly rx ry idx Wd Hd)
  | _ => ""
  end.

(** The lines of a list of boxes, one after the other. *)
Definition boxes_text (Wd Hd : Z) (res : list Box) : string :=
  foldr (fun b acc => box_line Wd Hd b +:+ acc) "" res.

(** The rectangle [writeResults] computes for the crop of a box, and
    the region of the image the slice then cuts out. *)
Definition box_rect (s : App) (ow oh : Z) (b : Box) : Z * Z * Z * Z :=
  match b with
  | [lx; ly; rx; ry; idx] =>
      crop_rect (yolo_format lx ly rx ry idx (W (label_img s)) (H (label_img s))) ow oh
  | _ => (0, 0, 0, 0)
  end.

Definition box_region (s : App) (ow oh : Z) (b : Box) : option (Z * Z * Z * Z) :=
  cut_region (box_rect s ow oh b) ow oh.

(** The path of the crop of the box of ordinal [i]. *)
Definition crop_path (s : App) (dir : string) (i : nat) (b : Box) : string :=
  os_path_join dir
    (drop_last4 (os_path_basename (currentImg (main s))) +:+ "-"
       +:+ default "" (py_index (key_config (main s)) (default 0 (last b))) +:+ "-"
       +:+ pretty i +:+ ".jpg").

(** The crop [writeResults] saves for the box of ordinal [i]. *)
Definition box_crop (s : App) (dir : string) (ow oh : Z) (i : nat) (b : Box)
  : string * (Z * Z * Z * Z) :=
  (crop_path s dir i b, default (0, 0, 0, 0) (box_region s ow oh b)).

(** Every crop can be cut and saved: no slice is empty and the directory
    of every crop is on the disk. *)
Fixpoint crops_savable (s : App) (dir : string) (ow oh : Z) (i : nat) (res : list Box)
  : bool :=
  match res with
  | [] => true
  | b :: res' =>
      bool_decide (is_Some (box_region s ow oh b))
      && dir_exists (disk s) (os_path_dirname (crop_path s dir i b))
      && crops_savable s dir ow oh (S i) res'
  end.

Fixpoint boxes_crops (s : App) (dir : string) (ow oh : Z) (i : nat) (res : list Box)
  : list (string * (Z * Z * Z * Z)) :=
  match res with
  | [] => []
  | b :: res' => box_crop s dir ow oh i b :: boxes_crops s dir ow oh (S i) res'
  end.

(** What a box that is written leaves on the disk: its line at the end
    of the sidecar file and, in crop mode ([crop] holds the save
    directory and the decoded width and height), its crop. *)
Definition write_box_disk (s : App) (crop : option (string * Z * Z)) (i : nat)
    (b : Box) (d : Disk) : Disk :=
  let d1 := append_file (sidecar s) (box_line (W (label_img s)) (H (label_img s)) b) d in
  match crop with
  | None => d1
  | Some (dir, ow, oh) =>
      add_crop (fst (box_crop s dir ow oh i b)) (snd (box_crop s dir ow oh i b)) d1
  end.

Fixpoint write_boxes_disk (s : App) (crop : option (string * Z * Z)) (i : nat)
    (res : list Box) (d : Disk) : Disk :=
  match res with
  | [] => d
  | b :: res' => write_boxes_disk s crop (S i) res' (write_box_disk s crop i b d)
  end.

(** The conditions under which the crop of every box can be saved,
    [i] being the ordinal of the first box of [res]. *)
Definition crop_ready (s : App) (crop : option (string * Z * Z)) (i : nat)
    (res : list Box) : Prop :=
  match crop with
  | None => crop_mode (main s) = false
  | Some (dir, ow, oh) =>
      crop_mode (main s) = true
      /\ save_directory (main s) = Some dir
      /\ (forall d, imread_shape d (currentImg (main s)) = Some (oh, ow))
      /\ Forall (fun b => label_ok (key_config (main s)) b = true) res
      /\ crops_savable s dir ow oh i res = true
  end.

End Written.

(** Further states of the demonstration session. *)

(** Two overlapping boxes, the older labelled [cat], the newer [dog]. *)
Definition demo_overlap : App :=
  @run_events demo_host
    [MousePress LeftButton (0, 0); MouseRelease LeftButton (10, 10); KeyPress 49;
     MousePress LeftButton (5, 5); MouseRelease LeftButton (20, 20); KeyPress 50]
    demo_start.

(** No label is configured, Auto mode is on and the button is pressed. *)
Definition demo_no_labels : App :=
  @run_events demo_host [KeyPress Key_A; MousePress LeftButton (0, 0)]
    (initial_App 1000 [] empty_disk).

(** [demo_marked] with crop mode on. *)
Definition demo_marked_crop : App :=
  @run_events demo_host [CropModeChanged Qt_Checked] demo_marked.

(** The same once [setNextImage] has created the default save directory. *)
Definition demo_crop_ready : App := state_after ensure_save_directory demo_marked_crop.

(** [demo_marked] on a picture that could not be loaded. *)
Definition demo_not_loaded : App := on_label_img (set_WH 0 0) demo_marked.

(** The input directory is chosen and nothing else has happened. *)
Definition demo_chosen : App :=
  @run_events demo_host [InputPathChosen "/data"] demo_start.

(** The last image of the directory is shown. *)
Definition demo_last : App :=
  @run_events demo_host
    [InputPathChosen "/data"; NextClicked; NextClicked; NextClicked] demo_start.

(** A configuration with two labels. *)
Definition demo_config : gmap string string :=
  list_to_map
    [("key_1", "cat"); ("key_2", ""); ("key_3", "dog"); ("key_4", ""); ("key_5", "");
     ("key_6", ""); ("key_7", ""); ("key_8", ""); ("key_9", "")].

(** States of a session on [tall_host]: [/data/a.jpg] is shown, 400 by
    800 on a screen of 1000 lines, crop mode is on and one box is drawn
    and labelled. *)
Definition tall_marked : App :=
  @run_events tall_host
    [InputPathChosen "/data"; NextClicked; CropModeChanged Qt_Checked;
     MousePress LeftButton (10, 20); MouseRelease LeftButton (50, 80);
     KeyPress 50] demo_start.

(** * The definitions at work *)

Example os_path_basename_examples :
  os_path_basename "/data/a.jpg" = "a.jpg"
  /\ os_path_basename "/data" = "data"
  /\ os_path_basename "/" = ""
  /\ os_path_basename "" = "".
Proof. repeat split. Qed.

Example drop_last4_examples :
  drop_last4 "/data/a.jpg" = "/data/a" /\ drop_last4 "end.png" = "end"
  /\ drop_last4 "abc" = "".
Proof. repeat split. Qed.

Example py_index_examples :
  py_index ["cat"; "dog"] 1 = Some "dog" /\ py_index ["cat"; "dog"] (-1) = Some "dog"
  /\ py_index ["cat"; "dog"] 2 = None /\ py_index ["cat"; "dog"] (-3) = None.
Proof. repeat split. Qed.

Example list_remove_examples :
  list_remove "b" ["a"; "b"; "c"; "b"] = Some ["a"; "c"; "b"]
  /\ list_remove "z" ["a"; "b"] = None.
Proof. repeat split. Qed.

Example round_half_even_examples :
  round_half_even (1 # 2)%Q = 0 /\ round_half_even (3 # 2)%Q = 2
  /\ round_half_even (5 # 2)%Q = 2 /\ round_half_even (- (1 # 2))%Q = 0
  /\ round_half_even (7 # 3)%Q = 2.
Proof. vm_compute. repeat split. Qed.

(** The crop of the normalized box (0.5, 0.5, 0.2, 0.1) against an image
    of 1000 by 500 pixels, on exact arithmetic. *)
Example crop_rect_example :
  @crop_rect demo_host (0, (1 # 2)%Q, (1 # 2)%Q, (2 # 10)%Q, (1 # 10)%Q) 1000 500
  = (400, 225, 200, 50).
Proof. vm_compute. reflexivity. Qed.

(** A whole step of the demonstration session: the labelled box of
    [/data/a.jpg] is written when the user moves on. *)
Example demo_advance :
  let s := state_after (@advance demo_host) demo_marked in
  store demo_marked = [[10; 20; 50; 80; 1]]
  /\ files (disk s) !! "/data/a.txt"
     = Some ("1 60/2000 100/1000 40/1000 60/500" +:+ newline)
  /\ fileName (parent s) = "c.jpg" /\ progress (parent s) = "4/5"
  /\ store s = [].
Proof. vm_compute. repeat split. Qed.

(** Crop mode is switched on and the dialog of the save path is then
    dismissed: the label still reads ['Results'] while [save_directory]
    is [None], and the next [advance] stops at [os.makedirs]. *)
Example advance_without_save_directory :
  let s := @run_events demo_host
             [InputPathChosen "/data"; NextClicked; CropModeChanged Qt_Checked;
              SavePathChosen ""] demo_start in
  save_directory (main s) = None /\ savePathLabel (main s) = "Results"
  /\ outcome_of (@advance demo_host) s = Raise TypeError.
Proof. vm_compute. repeat split. Qed.

(** The literal [0.8], the quotient [8 / 10] and the text ['0.8'] are
    one float. *)
Example b64_0_8_examples :
  b64_of_decimal 8 (-1) = b64_0_8 /\ b64_truediv 8 10 = b64_0_8
  /\ float_repr b64_0_8 = "0.8".
Proof. vm_compute. repeat split. Qed.

Example float_repr_examples :
  float_repr (b64_truediv 1 3) = "0.3333333333333333"
  /\ float_repr (b64_truediv 3 40) = "0.075"
  /\ float_repr (b64_of_int 1) = "1.0"
  /\ float_repr (b64_truediv (-5) 2) = "-2.5"
  /\ float_repr (b64_truediv 1 100000) = "1e-05"
  /\ float_repr (b64_truediv 1 10000) = "0.0001"
  /\ float_repr (b64_of_int (10 ^ 16)) = "1e+16"
  /\ float_repr (b64_of_int (10 ^ 15)) = "1000000000000000.0"
  /\ float_repr (b64_of_int (2 ^ 53 + 1)) = "9007199254740992.0"
  /\ float_repr (b64_div (b64_of_int 4938271560493827) (b64_of_int 4))
     = "1234567890123456.8"
  /\ float_repr (b64_mul (b64_of_int 3) (b64_truediv 1 10)) = "0.30000000000000004".
Proof. vm_compute. repeat split. Qed.

Example b64_round_examples :
  b64_round (b64_truediv 5 2) = 2 /\ b64_round (b64_truediv 7 2) = 4
  /\ b64_round (b64_truediv (-1) 2) = 0 /\ b64_round (b64_truediv 7 3) = 2
  /\ b64_round (b64_truediv (-8) 3) = -3.
Proof. vm_compute. repeat split. Qed.

(** An image of 85 by 1088 pixels on a screen of 1000 lines: the limit
    is 800.0, the ratio [800.0 / 1088] and the width [round] of
    62.50000000000001; on exact fractions the product is 62.5 and
    rounds to 62. *)
Example display_size_examples :
  @spec_display_size narrow_host 1000 85 1088 = (63, 800)
  /\ @spec_display_size tall_host 1000 1000 2000 = (400, 800)
  /\ @spec_display_size demo_host 1000 85 1088 = (62, 800).
Proof. vm_compute. repeat split. Qed.

(** A whole step on binary64 floats: the image of 1000 by 2000 pixels is
    shown 400 by 800; the box drawn from (10, 20) to (50, 80) gives the
    line of [/data/a.txt] and, against the decoded image, the crop. *)
Example tall_advance :
  let s := state_after (@advance tall_host) tall_marked in
  getRatio tall_marked = (400, 800)
  /\ store tall_marked = [[10; 20; 50; 80; 1]]
  /\ files (disk s) !! "/data/a.txt"
     = Some ("1 0.075 0.0625 0.1 0.075" +:+ newline)
  /\ crops (disk s) = [("/data/Results/a-dog-0.jpg", (25, 50, 100, 150))].
Proof. vm_compute. repeat split. Qed.

(** [os.path.dirname] and the slices of [numpy]. *)
Example os_path_dirname_examples :
  os_path_dirname "/data/Results/a-dog-0.jpg" = "/data/Results"
  /\ os_path_dirname "a.jpg" = "" /\ os_path_dirname "/a.jpg" = "/"
  /\ os_path_dirname "/data//a.jpg" = "/data" /\ os_path_dirname "//a" = "//".
Proof. vm_compute. repeat split. Qed.

Example cut_region_examples :
  slice_bounds 20 80 500 = (20, 80) /\ slice_bounds (-10) 10 100 = (90, 10)
  /\ slice_bounds (-10) 110 100 = (90, 100) /\ slice_bounds 450 560 500 = (450, 500)
  /\ cut_region (10, 20, 40, 60) 1000 500 = Some (10, 20, 40, 60)
  /\ cut_region (0, 0, 0, 5) 1000 500 = None
  /\ cut_region (-10, 5, 120, 10) 100 100 = Some (90, 5, 10, 10).
Proof. vm_compute. repeat split. Qed.

(** A labelled box of zero width in crop mode: its line is written,
    then [cvtColor] raises on the empty slice; the box stays in the
    store and the image stays the current one. *)
Example empty_crop_raises :
  let s := @run_events tall_host
             [InputPathChosen "/data"; NextClicked; CropModeChanged Qt_Checked;
              MousePress LeftButton (0, 0); MouseRelease LeftButton (0, 5);
              KeyPress 49] demo_start in
  let s' := state_after (@advance tall_host) s in
  store s = [[0; 0; 0; 5; 0]]
  /\ outcome_of (@advance tall_host) s = Raise cv2_error
  /\ files (disk s') !! "/data/a.txt" = Some ("0 0.0 0.003125 0.0 0.00625" +:+ newline)
  /\ crops (disk s') = [] /\ store s' = [[0; 0; 0; 5; 0]]
  /\ currentImg (main s') = "/data/a.jpg".
Proof. vm_compute. repeat split. Qed.

(** * Proofs *)

(** ** The monad *)

Lemma bind_Return {A B : Type} (m : M A) (k : A -> M B) (s s' : App) (a : A) :
  m s = (Return a, s') -> bind m k s = k a s'.
Proof. intros E. unfold bind. now rewrite E. Qed.

Lemma bind_Raise {A B : Type} (m : M A) (k : A -> M B) (s s' : App) (e : exn) :
  m s = (Raise e, s') -> bind m k s = (Raise e, s').
Proof. intros E. unfold bind. now rewrite E. Qed.

Lemma bind_assoc {A B C : Type} (m : M A) (k : A -> M B) (h : B -> M C) (s : App) :
  bind (bind m k) h s = bind m (fun a => bind (k a) h) s.
Proof. unfold bind. destruct (m s) as [[a|e] s']; reflexivity. Qed.

Lemma state_after_bind {A B : Type} (m : M A) (k : A -> M B) (s : App) :
  state_after (bind m k) s =
  match outcome_of m s with
  | Return a => state_after (k a) (state_after m s)
  | Raise _ => state_after m s
  end.
Proof.
  unfold state_after, outcome_of, bind.
  destruct (m s) as [[a|e] s']; reflexivity.
Qed.

Lemma state_after_get {A : Type} (k : App -> M A) (s : App) :
  state_after (bind get k) s = state_after (k s) s.
Proof. reflexivity. Qed.

Lemma preserves_ret {A : Type} (I : App -> Prop) (a : A) : preserves I (ret a).
Proof. intros s Hs. exact Hs. Qed.

Lemma preserves_raise {A : Type} (I : App -> Prop) (e : exn) :
  preserves I (@raise A e).
Proof. intros s Hs. exact Hs. Qed.

Lemma preserves_modify (I : App -> Prop) (f : App -> App) :
  (forall s, I s -> I (f s)) -> preserves I (modify f).
Proof. intros Hf s Hs. apply Hf, Hs. Qed.

Lemma preserves_bind {A B : Type} (I : App -> Prop) (m : M A) (k : A -> M B) :
  preserves I m -> (forall a, preserves I (k a)) -> preserves I (bind m k).
Proof.
  intros Hm Hk s Hs. rewrite state_after_bind.
  destruct (outcome_of m s); [apply Hk|]; apply Hm, Hs.
Qed.

Lemma preserves_get {A : Type} (I : App -> Prop) (k : App -> M A) :
  (forall s, I s -> I (state_after (k s) s)) -> preserves I (bind get k).
Proof. intros Hk s Hs. apply Hk, Hs. Qed.

Lemma unchanged_preserves {A B : Type} (proj : App -> B) (m : M A) :
  unchanged proj m <-> forall x, preserves (fun s => proj s = x) m.
Proof.
  split.
  - intros U x s Hs. now rewrite U.
  - intros P s. now apply (P (proj s)).
Qed.

Lemma unchanged_ret {A B : Type} (proj : App -> B) (a : A) : unchanged proj (ret a).
Proof. intros s. reflexivity. Qed.

Lemma unchanged_raise {A B : Type} (proj : App -> B) (e : exn) :
  unchanged proj (@raise A e).
Proof. intros s. reflexivity. Qed.

Lemma unchanged_modify {B : Type} (proj : App -> B) (f : App -> App) :
  (forall s, proj (f s) = proj s) -> unchanged proj (modify f).
Proof. intros Hf s. apply Hf. Qed.

Lemma unchanged_bind {A B C : Type} (proj : App -> C) (m : M A) (k : A -> M B) :
  unchanged proj m -> (forall a, unchanged proj (k a)) -> unchanged proj (bind m k).
Proof.
  intros Hm Hk s. rewrite state_after_bind.
  destruct (outcome_of m s); [rewrite Hk|]; apply Hm.
Qed.

Lemma unchanged_get {A B : Type} (proj : App -> B) (k : App -> M A) :
  (forall s, unchanged proj (k s)) -> unchanged proj (bind get k).
Proof. intros Hk s. apply (Hk s s). Qed.

Lemma drawResultBox_state (s : App) : state_after drawResultBox s = s.
Proof.
  unfold state_after, drawResultBox, bind, get.
  destruct (draw_boxes _ _); reflexivity.
Qed.

Lemma unchanged_drawResultBox {B : Type} (proj : App -> B) :
  unchanged proj drawResultBox.
Proof. intros s. now rewrite drawResultBox_state. Qed.

Lemma showPopupOk_store (t c : string) : unchanged store (showPopupOk t c).
Proof. intros s. reflexivity. Qed.

(** ** Lists of boxes *)

Lemma store_inv_iff (bs : list Box) :
  store_inv bs = true <->
  Forall (fun b => labeled b = true) (removelast bs)
  /\ Forall (fun b => well_shaped b = true) bs.
Proof.
  unfold store_inv. rewrite andb_true_iff, !forallb_forall, !List.Forall_forall.
  reflexivity.
Qed.

Lemma labeled_well_shaped (b : Box) : labeled b = true -> well_shaped b = true.
Proof. unfold well_shaped. intros ->. reflexivity. Qed.

Lemma store_inv_snoc (bs : list Box) (b : Box) :
  store_inv (bs ++ [b]) = true <->
  Forall (fun b => labeled b = true) bs /\ well_shaped b = true.
Proof.
  rewrite store_inv_iff, removelast_last, Forall_app, Forall_singleton.
  split.
  - intros (Hl & _ & Hb). now split.
  - intros (Hl & Hb). repeat split; try assumption.
    eapply Forall_impl; [exact Hl|]. intros x. apply labeled_well_shaped.
Qed.

Lemma store_inv_all_labeled (bs : list Box) :
  Forall (fun b => labeled b = true) bs -> store_inv bs = true.
Proof.
  intros Hl. destruct bs as [|b0 bs0] using rev_ind; [reflexivity|].
  apply store_inv_snoc. apply Forall_app in Hl as [Hl Hb].
  split; [exact Hl|]. apply labeled_well_shaped.
  exact (Forall_inv Hb).
Qed.

Lemma last_has_len_snoc (n : nat) (bs : list Box) (b : Box) :
  last_has_len n (bs ++ [b]) = (length b =? n)%nat.
Proof. unfold last_has_len. now rewrite last_snoc. Qed.

(** With the invariant, a store whose last box is not of four fields
    holds labelled boxes only. *)
Lemma store_inv_all_labeled_inv (bs : list Box) :
  store_inv bs = true -> last_has_len 4 bs = false ->
  Forall (fun b => labeled b = true) bs.
Proof.
  destruct bs as [|b0 bs0] using rev_ind; [constructor|].
  rewrite store_inv_snoc, last_has_len_snoc. intros [Hl Hb] H4.
  apply Forall_app. split; [exact Hl|]. apply Forall_singleton.
  unfold well_shaped, unlabeled in Hb. rewrite H4, orb_false_r in Hb. exact Hb.
Qed.

Lemma store_inv_removelast (bs : list Box) :
  store_inv bs = true -> store_inv (removelast bs) = true.
Proof.
  destruct bs as [|b0 bs0] using rev_ind; [trivial|].
  rewrite store_inv_snoc, removelast_last. intros [Hl _].
  now apply store_inv_all_labeled.
Qed.

Lemma store_inv_delete (i : nat) (bs : list Box) :
  store_inv bs = true -> store_inv (delete i bs) = true.
Proof.
  destruct bs as [|b0 bs0] using rev_ind; [now destruct i|].
  intros Hinv. pose proof Hinv as [Hl Hb]%store_inv_snoc.
  destruct (lt_eq_lt_dec i (length bs0)) as [[Hi| ->]|Hi].
  - replace (delete i (bs0 ++ [b0])) with (delete i bs0 ++ [b0]).
    + apply store_inv_snoc. split; [now apply Forall_delete|exact Hb].
    + rewrite !delete_take_drop.
      rewrite take_app_le by (apply Nat.lt_le_incl, Hi).
      rewrite drop_app_le by exact Hi.
      now rewrite app_assoc.
  - replace (delete (length bs0) (bs0 ++ [b0])) with bs0.
    + now apply store_inv_all_labeled.
    + rewrite delete_take_drop, take_app_le, drop_app_ge by (simpl; lia).
      rewrite take_ge by lia. replace (S (length bs0) - length bs0)%nat with 1%nat by lia.
      simpl. now rewrite app_nil_r.
  - replace (delete i (bs0 ++ [b0])) with (bs0 ++ [b0]); [exact Hinv|].
    rewrite delete_take_drop, take_ge, drop_ge; rewrite ?length_app; simpl; try lia.
    now rewrite app_nil_r.
Qed.

(** ** The store after each handler of ImageWidget *)

Ltac run_handler :=
  cbv [state_after outcome_of store bind get modify ret raise
       showPopupOk drawResultBox]; simpl.

Lemma rect_of_pair (x1 y1 x2 y2 : Z) :
  rect_of (x1, y1) (x2, y2) =
  [Z.min x1 x2; Z.min y1 y2; Z.min x1 x2 + Z.abs (x1 - x2); Z.min y1 y2 + Z.abs (y1 - y2)].
Proof. reflexivity. Qed.

(** A release at the press point changes nothing. *)
Lemma finalize_point (s : App) :
  finalize (lastPoint (label_img s)) s = (Return tt, s).
Proof.
  unfold finalize, mouseReleaseEvent, bind, get. simpl.
  destruct (lastPoint (label_img s)) as [x y].
  now rewrite !Z.eqb_refl.
Qed.

(** In Manual mode with a pending box the release only warns. *)
Lemma finalize_pending (s : App) (pos : Z * Z) :
  autoLabel (parent s) = ManualLabel ->
  last_has_len 4 (store s) = true ->
  pos <> lastPoint (label_img s) ->
  let s' := state_after (finalize pos) s in
  popups s' = popups s ++ [pending_warning]
  /\ store s' = store s /\ last_idx (label_img s') = last_idx (label_img s)
  /\ main s' = main s /\ parent s' = parent s /\ disk s' = disk s.
Proof.
  intros Hm H4 Hne. unfold finalize, mouseReleaseEvent.
  run_handler. unfold store in H4.
  destruct (lastPoint (label_img s)) as [x1 y1], pos as [x2 y2].
  rewrite Hm, H4. simpl.
  destruct ((x1 =? x2) && (y1 =? y2)) eqn:E.
  - apply andb_true_iff in E as [->%Z.eqb_eq ->%Z.eqb_eq]. now contradict Hne.
  - simpl. destruct (draw_boxes _ _); simpl; repeat split.
Qed.

(** In Auto mode the rectangle is appended with the last label and every
    box of four fields gets that label. *)
Lemma finalize_auto (s : App) (pos : Z * Z) :
  autoLabel (parent s) = AutoLabel ->
  pos <> lastPoint (label_img s) ->
  let idx := last_idx (label_img s) in
  let s' := state_after (finalize pos) s in
  store s' = backfill idx (store s ++ [rect_of (lastPoint (label_img s)) pos ++ [idx]])
  /\ last_idx (label_img s') = idx /\ popups s' = popups s.
Proof.
  intros Hm Hne. unfold finalize, mouseReleaseEvent.
  run_handler.
  destruct (lastPoint (label_img s)) as [x1 y1], pos as [x2 y2].
  rewrite Hm, andb_false_r. simpl.
  destruct ((x1 =? x2) && (y1 =? y2)) eqn:E.
  - apply andb_true_iff in E as [->%Z.eqb_eq ->%Z.eqb_eq]. now contradict Hne.
  - simpl. destruct (draw_boxes _ _); simpl; repeat split.
Qed.

(** In Manual mode without a pending box the rectangle is appended
    without a label. *)
Lemma finalize_manual (s : App) (pos : Z * Z) :
  autoLabel (parent s) = ManualLabel ->
  last_has_len 4 (store s) = false ->
  pos <> lastPoint (label_img s) ->
  let s' := state_after (finalize pos) s in
  store s' = store s ++ [rect_of (lastPoint (label_img s)) pos]
  /\ last_idx (label_img s') = last_idx (label_img s) /\ popups s' = popups s.
Proof.
  intros Hm H4 Hne. unfold finalize, mouseReleaseEvent.
  run_handler. unfold store in H4.
  destruct (lastPoint (label_img s)) as [x1 y1], pos as [x2 y2].
  rewrite Hm, H4. simpl.
  destruct ((x1 =? x2) && (y1 =? y2)) eqn:E.
  - apply andb_true_iff in E as [->%Z.eqb_eq ->%Z.eqb_eq]. now contradict Hne.
  - simpl. repeat split.
Qed.

(** The four cases together. *)
Lemma finalize_cases (s : App) (pos : Z * Z) :
  let idx := last_idx (label_img s) in
  let rect := rect_of (lastPoint (label_img s)) pos in
  let s' := state_after (finalize pos) s in
  store s' = store s
  \/ (last_has_len 4 (store s) = false /\ store s' = store s ++ [rect])
  \/ store s' = backfill idx (store s ++ [rect ++ [idx]]).
Proof.
  intros idx rect s'.
  destruct (decide (pos = lastPoint (label_img s))) as [->|Hne].
  { left. subst s'. unfold state_after. now rewrite finalize_point. }
  destruct (autoLabel (parent s)) eqn:Hm.
  - destruct (last_has_len 4 (store s)) eqn:H4.
    + left. now apply finalize_pending.
    + right; left. split; [reflexivity|]. now apply finalize_manual.
  - right; right. now apply finalize_auto.
Qed.

Lemma markBox_store (idx : Z) (s : App) :
  let s' := state_after (markBox idx) s in
  last_idx (label_img s') = idx
  /\ store s' =
     match last (store s) with
     | None => store s
     | Some b =>
         if (length b =? 4)%nat then removelast (store s) ++ [b ++ [idx]]
         else if (length b =? 5)%nat then removelast (store s) ++ [set_last_field idx b]
         else store s
     end.
Proof.
  unfold markBox. run_handler.
  destruct (last (results (label_img s))) as [b|]; [|now split].
  destruct (length b =? 4)%nat; simpl.
  - destruct (draw_boxes _ _); now split.
  - destruct (length b =? 5)%nat; simpl; [|now split].
    destruct (draw_boxes _ _); now split.
Qed.

Lemma cancelLast_store (s : App) :
  store (state_after cancelLast s) = removelast (store s).
Proof.
  unfold cancelLast. run_handler.
  destruct (results (label_img s)) as [|b bs] eqn:E; simpl; [now rewrite E|].
  destruct (draw_boxes _ _); simpl; now rewrite E.
Qed.

Lemma mousePressEvent_store (button : MouseButton) (pos : Z * Z) (s : App) :
  let s' := state_after (mousePressEvent button pos) s in
  store s' = store s \/ exists i, store s' = delete i (store s).
Proof.
  unfold mousePressEvent. destruct button; run_handler; try (now left).
  destruct (first_hit _ _ _ _) as [[i|]|e]; simpl; try (now left).
  right. exists i. destruct (draw_boxes _ _); reflexivity.
Qed.

Lemma resetResult_store (s : App) : store (state_after resetResult s) = [].
Proof. reflexivity. Qed.

(** ** Backfill *)

Lemma backfill_app (idx : Z) (bs cs : list Box) :
  backfill idx (bs ++ cs) = backfill idx bs ++ backfill idx cs.
Proof. apply map_app. Qed.

Lemma backfill_labeled (idx : Z) (bs : list Box) :
  Forall (fun b => well_shaped b = true) bs ->
  Forall (fun b => labeled b = true) (backfill idx bs).
Proof.
  intros Hw. unfold backfill. apply Forall_map.
  eapply Forall_impl; [exact Hw|]. intros b. simpl.
  unfold well_shaped, labeled, unlabeled.
  destruct (length b =? 4)%nat eqn:E4.
  - apply Nat.eqb_eq in E4. rewrite length_app, E4. reflexivity.
  - now rewrite orb_false_r.
Qed.

Lemma backfill_length (idx : Z) (bs : list Box) :
  length (backfill idx bs) = length bs.
Proof. apply List.length_map. Qed.

Lemma backfill_lookup (idx : Z) (bs : list Box) (i : nat) :
  backfill idx bs !! i =
  (fun b => if (length b =? 4)%nat then b ++ [idx] else b) <$> bs !! i.
Proof. apply list_lookup_fmap. Qed.

Lemma store_inv_well_shaped (bs : list Box) :
  store_inv bs = true -> Forall (fun b => well_shaped b = true) bs.
Proof. intros H. now apply store_inv_iff in H. Qed.

(** ** The store invariant under the handlers of ImageWidget *)

Lemma finalize_store_inv (pos : Z * Z) :
  preserves (fun s => store_inv (store s) = true) (finalize pos).
Proof.
  intros s Hs.
  destruct (finalize_cases s pos) as [E|[[H4 E]|E]]; rewrite E.
  - exact Hs.
  - apply store_inv_snoc. split; [now apply store_inv_all_labeled_inv|reflexivity].
  - apply store_inv_all_labeled, backfill_labeled, Forall_app.
    split; [now apply store_inv_well_shaped|].
    apply Forall_singleton. reflexivity.
Qed.

Lemma markBox_store_inv (idx : Z) :
  preserves (fun s => store_inv (store s) = true) (markBox idx).
Proof.
  intros s Hs. destruct (markBox_store idx s) as [_ E]. rewrite E. clear E.
  destruct (store s) as [|b0 bs0] using rev_ind; [exact Hs|].
  rewrite last_snoc, removelast_last.
  apply store_inv_snoc in Hs as [Hl Hb].
  destruct (length b0 =? 4)%nat eqn:E4.
  - apply store_inv_snoc. split; [exact Hl|].
    apply Nat.eqb_eq in E4. unfold well_shaped, labeled.
    rewrite length_app, E4. reflexivity.
  - destruct (length b0 =? 5)%nat eqn:E5.
    + apply store_inv_snoc. split; [exact Hl|].
      apply Nat.eqb_eq in E5. unfold well_shaped, labeled, set_last_field.
      destruct b0 as [|a [|b [|c [|d [|e [|f b0]]]]]]; try discriminate. reflexivity.
    + apply store_inv_snoc. now split.
Qed.

Lemma cancelLast_store_inv :
  preserves (fun s => store_inv (store s) = true) cancelLast.
Proof. intros s Hs. rewrite cancelLast_store. now apply store_inv_removelast. Qed.

Lemma mousePressEvent_store_inv (button : MouseButton) (pos : Z * Z) :
  preserves (fun s => store_inv (store s) = true) (mousePressEvent button pos).
Proof.
  intros s Hs. destruct (mousePressEvent_store button pos s) as [E|[i E]]; rewrite E.
  - exact Hs.
  - now apply store_inv_delete.
Qed.

(** ** Frames: what the handlers of MainWidget leave alone *)

Ltac frame_step :=
  lazymatch goal with
  | |- unchanged _ (ret _) => apply unchanged_ret
  | |- unchanged _ (raise _) => apply unchanged_raise
  | |- unchanged _ drawResultBox => apply unchanged_drawResultBox
  | |- unchanged _ (save_crop _ _) => unfold save_crop
  | |- unchanged _ (modify _) => apply unchanged_modify; intros ?; reflexivity
  | |- unchanged _ (bind get _) => apply unchanged_get; intros ?
  | |- unchanged _ (bind _ _) => apply unchanged_bind; [|intros ?]
  | |- unchanged _ (match ?x with _ => _ end) => destruct x
  end.

Ltac frame := repeat frame_step.

Section Frames.
Context {host : Host}.

Lemma unchanged_setPixmap_store (fn : string) : unchanged store (setPixmap fn).
Proof. unfold setPixmap. frame. Qed.

Lemma unchanged_setPixmap_main (fn : string) : unchanged main (setPixmap fn).
Proof. unfold setPixmap. frame. Qed.

Lemma unchanged_setPixmap_disk (fn : string) : unchanged disk (setPixmap fn).
Proof. unfold setPixmap. frame. Qed.

Lemma unchanged_setPixmap_popups (fn : string) : unchanged popups (setPixmap fn).
Proof. unfold setPixmap. frame. Qed.

Lemma unchanged_write_box_label_img (i : nat) (b : Box) :
  unchanged label_img (write_box i b).
Proof. unfold write_box. frame. Qed.

Lemma unchanged_write_box_main (i : nat) (b : Box) : unchanged main (write_box i b).
Proof. unfold write_box. frame. Qed.


Lemma unchanged_write_box_popups (i : nat) (b : Box) : unchanged popups (write_box i b).
Proof. unfold write_box. frame. Qed.

Lemma unchanged_write_boxes {B : Type} (proj : App -> B) :
  (forall i b, unchanged proj (write_box i b)) ->
  forall res i, unchanged proj (write_boxes i res).
Proof.
  intros Hb res. induction res as [|b res IH]; intros i; simpl.
  - apply unchanged_ret.
  - apply unchanged_bind; [apply Hb|intros _; apply IH].
Qed.

Lemma unchanged_writeResults {B : Type} (proj : App -> B) (res : list Box) :
  (forall f s, proj (on_disk f s) = proj s) ->
  (forall i b, unchanged proj (write_box i b)) ->
  unchanged proj (writeResults res).
Proof.
  intros Hd Hb. unfold writeResults.
  apply unchanged_get; intros s. destruct (negb _); [|apply unchanged_ret].
  apply unchanged_bind.
  - destruct res; [apply unchanged_modify; intros; apply Hd|apply unchanged_ret].
  - intros _. now apply unchanged_write_boxes.
Qed.

Lemma unchanged_writeResults_label_img (res : list Box) :
  unchanged label_img (writeResults res).
Proof. apply unchanged_writeResults; [reflexivity|apply unchanged_write_box_label_img]. Qed.

Lemma unchanged_writeResults_main (res : list Box) : unchanged main (writeResults res).
Proof. apply unchanged_writeResults; [reflexivity|apply unchanged_write_box_main]. Qed.


Lemma unchanged_writeResults_popups (res : list Box) :
  unchanged popups (writeResults res).
Proof. apply unchanged_writeResults; [reflexivity|apply unchanged_write_box_popups]. Qed.

Lemma unchanged_ensure_label_img : unchanged label_img ensure_save_directory.
Proof. unfold ensure_save_directory. frame. Qed.

Lemma unchanged_ensure_main : unchanged main ensure_save_directory.
Proof. unfold ensure_save_directory. frame. Qed.

Lemma unchanged_ensure_parent : unchanged parent ensure_save_directory.
Proof. unfold ensure_save_directory. frame. Qed.


Lemma unchanged_ensure_files :
  unchanged (fun s => files (disk s)) ensure_save_directory.
Proof. unfold ensure_save_directory. frame. Qed.

Lemma unchanged_ensure_crops :
  unchanged (fun s => crops (disk s)) ensure_save_directory.
Proof. unfold ensure_save_directory. frame. Qed.

Lemma unchanged_pop_next_store : unchanged store pop_next.
Proof. unfold pop_next. frame. Qed.

Lemma unchanged_pop_next_disk : unchanged disk pop_next.
Proof. unfold pop_next. frame. Qed.

Lemma unchanged_show_current_store : unchanged store show_current.
Proof. unfold show_current. frame. apply unchanged_setPixmap_store. Qed.

Lemma unchanged_show_current_main : unchanged main show_current.
Proof. unfold show_current. frame. apply unchanged_setPixmap_main. Qed.

Lemma unchanged_show_current_disk : unchanged disk show_current.
Proof. unfold show_current. frame. apply unchanged_setPixmap_disk. Qed.

Lemma unchanged_scan_store (d : string) : unchanged store (scan d).
Proof. unfold scan. frame. Qed.

Lemma unchanged_registerInputPath_store (d : string) :
  unchanged store (registerInputPath d).
Proof. unfold registerInputPath, print_line. frame. apply unchanged_scan_store. Qed.

Lemma unchanged_registerSavePath_store (d : string) :
  unchanged store (registerSavePath d).
Proof. unfold registerSavePath, print_line. frame. Qed.

Lemma unchanged_cropMode_store (st : Z) : unchanged store (cropMode st).
Proof. unfold cropMode. frame. Qed.

End Frames.

(** ** The displayed size *)

Section Geometry.
Context {host : Host}.

(** [setPixmap] keeps the size of the image unless its height exceeds
    the limit, and otherwise multiplies width and height by one ratio. *)
Lemma setPixmap_size (fn : string) (s : App) (W0 H0 : Z) :
  QPixmap_size (disk s) fn = (W0, H0) ->
  let limit := fmul (float_of_int (screen_height (label_img s))) float_0_8 in
  let s' := state_after (setPixmap fn) s in
  (int_gt_float H0 limit = false ->
   W (label_img s') = W0 /\ H (label_img s') = H0)
  /\ (int_gt_float H0 limit = true -> H0 <> 0 ->
      let ratio := fdiv limit (float_of_int H0) in
      W (label_img s') = py_round (fmul (float_of_int W0) ratio)
      /\ H (label_img s') = py_round (fmul (float_of_int H0) ratio)).
Proof.
  intros Hsize limit s'. subst s'. unfold setPixmap, state_after, bind, get, modify.
  rewrite Hsize. fold limit. split.
  - intros ->. simpl. now split.
  - intros -> Hz. apply Z.eqb_neq in Hz. rewrite Hz. simpl. now split.
Qed.

End Geometry.

(** ** setNextImage *)

Section Advance.
Context {host : Host}.

Lemma state_after_eq {A : Type} (m : M A) (s s' : App) (o : outcome A) :
  m s = (o, s') -> state_after m s = s'.
Proof. intros E. unfold state_after. now rewrite E. Qed.



(** With the store invariant the guard of line 440 is the test for a
    pending unlabelled box. *)
Lemma last_not_marked_store_inv (bs : list Box) :
  store_inv bs = true -> last_not_marked bs = last_has_len 4 bs.
Proof.
  unfold last_has_len, last_not_marked.
  destruct bs as [|b0 bs0] using rev_ind; [reflexivity|].
  rewrite store_inv_snoc, last_snoc. intros [_ Hb].
  unfold well_shaped, labeled, unlabeled in Hb.
  destruct (length b0 =? 5)%nat eqn:E5; simpl in *.
  - apply Nat.eqb_eq in E5. now rewrite E5.
  - now rewrite Hb.
Qed.


(** The transition that goes through. *)
Lemma setNextImage_commits (s : App) :
  last_not_marked (store s) = false ->
  setNextImage None s =
  (ensure_save_directory ;; writeResults (store s) ;; resetResult ;;
   pop_next ;; show_current ;; ret None) s.
Proof.
  intros Hg. unfold setNextImage.
  change (falsy None) with true. cbv beta iota.
  destruct (ensure_save_directory s) as [[[]|e] s0] eqn:He.
  - rewrite !(bind_Return _ _ _ _ _ He).
    pose proof (state_after_eq _ _ _ _ He) as Hs0.
    pose proof (unchanged_ensure_label_img s) as Hl. rewrite Hs0 in Hl.
    unfold bind at 1, get, getResult. cbv beta iota.
    unfold store in *. rewrite <- Hl in Hg. rewrite Hg, Hl. reflexivity.
  - now rewrite !(bind_Raise _ _ _ _ _ He).
Qed.

Lemma after_commit (s1 : App) :
  let s' := state_after (resetResult ;; pop_next ;; show_current ;; ret (@None string)) s1 in
  store s' = [] /\ disk s' = disk s1
  /\ match imgList (main s1) with
     | Some (p :: rest) => currentImg (main s') = p /\ imgList (main s') = Some rest
     | _ => currentImg (main s') = "end.png" /\ imgList (main s') = imgList (main s1)
     end.
Proof.
  intros s'. subst s'.
  rewrite state_after_bind. change (outcome_of resetResult s1) with (@Return unit tt).
  set (s2 := state_after resetResult s1).
  rewrite state_after_bind.
  assert (Hpop : outcome_of pop_next s2 = Return tt).
  { unfold outcome_of, pop_next, bind, get. destruct (imgList (main s2)) as [[|]|]; reflexivity. }
  rewrite Hpop.
  set (s3 := state_after pop_next s2).
  assert (Hshow : forall B (proj : App -> B),
             unchanged proj show_current ->
             proj (state_after (show_current ;; ret (@None string)) s3) = proj s3).
  { intros B proj U. apply (unchanged_bind proj show_current (fun _ => @ret (option string) None)).
    - exact U.
    - intros _. apply unchanged_ret. }
  split; [|split].
  - rewrite (Hshow _ store unchanged_show_current_store).
    subst s3. now rewrite unchanged_pop_next_store.
  - rewrite (Hshow _ disk unchanged_show_current_disk).
    subst s3. now rewrite unchanged_pop_next_disk.
  - rewrite (Hshow _ main unchanged_show_current_main).
    subst s3 s2. unfold state_after, pop_next, resetResult, bind, get, modify. simpl.
    destruct (imgList (main s1)) as [[|p rest]|] eqn:E; simpl; rewrite ?E; now split.
Qed.

(** Whatever happens in [setNextImage], the store is kept or emptied. *)
(** Lines 433-434 on their own. *)
Lemma ensure_save_directory_run (s : App) :
  ensure_save_directory s =
  if default_wanted s then
    match save_directory (main s) with
    | None => (Raise TypeError, s)
    | Some d => (Return tt, on_disk (makedirs d) s)
    end
  else (Return tt, s).
Proof.
  unfold ensure_save_directory, default_wanted, bind, get.
  destruct (String.eqb _ _ && _); [|reflexivity].
  now destruct (save_directory (main s)).
Qed.

Lemma ensure_raises (s : App) :
  no_save_directory s = true -> ensure_save_directory s = (Raise TypeError, s).
Proof.
  unfold no_save_directory. intros Hn. apply andb_true_iff in Hn as [Hw Hn].
  apply bool_decide_eq_true in Hn. now rewrite ensure_save_directory_run, Hw, Hn.
Qed.

Lemma ensure_returns (s : App) :
  no_save_directory s = false ->
  ensure_save_directory s = (Return tt, state_after ensure_save_directory s)
  /\ disk (state_after ensure_save_directory s)
     = match save_directory (main s) with
       | Some d => if default_wanted s then makedirs d (disk s) else disk s
       | None => disk s
       end.
Proof.
  unfold no_save_directory, state_after. intros Hn.
  rewrite ensure_save_directory_run.
  destruct (default_wanted s); simpl in *.
  - destruct (save_directory (main s)); [now split|].
    now rewrite bool_decide_eq_true_2 in Hn.
  - now destruct (save_directory (main s)).
Qed.

Lemma advance_no_save_directory (s : App) :
  no_save_directory s = true -> advance s = (Raise TypeError, s).
Proof.
  intros Hn. unfold advance, setNextImage.
  now rewrite (bind_Raise _ _ _ _ _ (ensure_raises s Hn)).
Qed.




Lemma setNextImage_store (img : option string) (s : App) :
  let s' := state_after (setNextImage img) s in
  store s' = store s \/ store s' = [].
Proof.
  intros s'. subst s'. unfold setNextImage.
  rewrite state_after_bind.
  pose proof (unchanged_ensure_label_img s) as Hl.
  destruct (outcome_of ensure_save_directory s); [|left; unfold store; now rewrite Hl].
  set (s0 := state_after ensure_save_directory s) in *.
  assert (Hst : store s0 = store s) by (unfold store; now rewrite Hl).
  rewrite <- Hst. clearbody s0. clear Hl Hst.
  assert (Hload : forall s2, store s2 = [] ->
            store (state_after (show_current ;; ret (@None string)) s2) = []).
  { intros s2 E. rewrite <- E.
    apply (unchanged_bind store show_current (fun _ => @ret (option string) None)).
    - exact unchanged_show_current_store.
    - intros _. apply unchanged_ret. }
  destruct (falsy img).
  - rewrite !state_after_get.
    destruct (last_not_marked (getResult s0)); [now left|].
    rewrite state_after_bind.
    pose proof (unchanged_writeResults_label_img (getResult s0) s0) as Hw.
    destruct (outcome_of (writeResults (getResult s0)) s0);
      [|left; unfold store; now rewrite Hw].
    right. rewrite state_after_bind.
    change (outcome_of resetResult ?x) with (@Return unit tt). cbv iota.
    rewrite state_after_bind.
    set (s2 := state_after resetResult _).
    assert (Hpop : outcome_of pop_next s2 = Return tt).
    { unfold outcome_of, pop_next, bind, get.
      destruct (imgList (main s2)) as [[|]|]; reflexivity. }
    rewrite Hpop. apply Hload. now rewrite unchanged_pop_next_store.
  - right. rewrite state_after_bind.
    change (outcome_of resetResult ?x) with (@Return unit tt). cbv iota.
    now apply Hload.
Qed.

End Advance.

(** ** Properties of the store kept by every event *)

Lemma preserves_unchanged_store {A : Type} (P : list Box -> Prop) (m : M A) :
  unchanged store m -> preserves (fun s => P (store s)) m.
Proof. intros U s Hs. now rewrite U. Qed.

Section Events.
Context {host : Host}.
Variable P : list Box -> Prop.
Hypothesis HP : closed_store_property P.

Let I (s : App) : Prop := P (store s).

Lemma preserves_setNextImage (img : option string) : preserves I (setNextImage img).
Proof.
  intros s Hs. unfold I.
  destruct (setNextImage_store img s) as [E|E]; rewrite E.
  - exact Hs.
  - apply (closed_nil P HP).
Qed.

Lemma preserves_mouseReleaseEvent (button : MouseButton) (pos : Z * Z) :
  preserves I (mouseReleaseEvent button pos).
Proof.
  destruct button; try apply preserves_ret.
  apply (closed_finalize P HP).
Qed.

Lemma preserves_mark_by_key (key n : Z) (ks : list (Z * Z)) :
  preserves I (mark_by_key key n ks).
Proof.
  induction ks as [|[i key_n] ks IH]; simpl.
  - apply preserves_ret.
  - destruct ((key =? key_n) && (i <=? n)); [apply (closed_markBox P HP)|exact IH].
Qed.

Lemma preserves_keyPressEvent (key : Z) : preserves I (keyPressEvent key).
Proof.
  unfold keyPressEvent. apply preserves_get. intros s Hs.
  apply preserves_bind; [apply preserves_mark_by_key| |exact Hs].
  intros _.
  destruct (key =? Key_Escape); [apply (closed_cancelLast P HP)|].
  destruct (key =? Key_E).
  { apply preserves_bind; [apply preserves_setNextImage|intros; apply preserves_ret]. }
  destruct (key =? Key_Q).
  { apply preserves_bind.
    - intros s1 _. apply (closed_nil P HP).
    - intros _. apply preserves_unchanged_store, unchanged_drawResultBox. }
  destruct (key =? Key_A); [|apply preserves_ret].
  apply preserves_unchanged_store, unchanged_modify. reflexivity.
Qed.

Lemma preserves_handle (e : Event) : preserves I (handle e).
Proof.
  destruct e; simpl.
  - apply (closed_press P HP).
  - apply preserves_mouseReleaseEvent.
  - apply preserves_keyPressEvent.
  - apply preserves_bind; [apply preserves_setNextImage|intros; apply preserves_ret].
  - apply (closed_cancelLast P HP).
  - apply preserves_unchanged_store, unchanged_cropMode_store.
  - apply preserves_bind; [|intros; apply preserves_ret].
    apply preserves_unchanged_store, unchanged_registerInputPath_store.
  - apply preserves_unchanged_store, unchanged_registerSavePath_store.
Qed.

Lemma preserves_run_events (es : list Event) (s : App) :
  I s -> I (run_events es s).
Proof.
  revert s. induction es as [|e es IH]; intros s Hs; simpl; [exact Hs|].
  pose proof (preserves_handle e s Hs) as H1. unfold state_after in H1.
  destruct (handle e s) as [[[]|x] s1]; simpl in H1; [now apply IH|exact H1].
Qed.

End Events.

Lemma store_inv_closed : closed_store_property (fun bs => store_inv bs = true).
Proof.
  split.
  - reflexivity.
  - apply finalize_store_inv.
  - apply markBox_store_inv.
  - apply cancelLast_store_inv.
  - apply mousePressEvent_store_inv.
Qed.

(** ** Corner-normalized boxes *)

Lemma rect_of_corner_normalized (p1 p2 : Z * Z) :
  corner_normalized (rect_of p1 p2) = true.
Proof.
  unfold rect_of, corner_normalized. apply andb_true_iff.
  split; apply Z.leb_le; lia.
Qed.

Lemma corner_normalized_app (b c : Box) :
  corner_normalized b = true -> corner_normalized (b ++ c) = true.
Proof. destruct b as [|x1 [|x2 [|x3 [|x4 b]]]]; try discriminate. trivial. Qed.

Lemma corner_normalized_set_last_field (idx : Z) (b : Box) :
  length b = 5%nat -> corner_normalized b = true ->
  corner_normalized (set_last_field idx b) = true.
Proof.
  destruct b as [|x1 [|x2 [|x3 [|x4 [|x5 [|x6 b]]]]]]; try discriminate. trivial.
Qed.

Lemma Forall_removelast {A : Type} (Q : A -> Prop) (l : list A) :
  Forall Q l -> Forall Q (removelast l).
Proof.
  destruct l as [|x l] using rev_ind; [trivial|].
  rewrite removelast_last. intros H. now apply Forall_app in H.
Qed.

Lemma backfill_corner_normalized (idx : Z) (bs : list Box) :
  Forall (fun b => corner_normalized b = true) bs ->
  Forall (fun b => corner_normalized b = true) (backfill idx bs).
Proof.
  intros H. unfold backfill. apply Forall_map.
  eapply Forall_impl; [exact H|]. intros b Hb. simpl.
  destruct (length b =? 4)%nat; [now apply corner_normalized_app|exact Hb].
Qed.

Lemma corner_normalized_closed :
  closed_store_property (Forall (fun b => corner_normalized b = true)).
Proof.
  split.
  - constructor.
  - intros pos s Hs.
    destruct (finalize_cases s pos) as [E|[[_ E]|E]]; rewrite E.
    + exact Hs.
    + apply Forall_app. split; [exact Hs|].
      apply Forall_singleton, rect_of_corner_normalized.
    + apply backfill_corner_normalized, Forall_app. split; [exact Hs|].
      apply Forall_singleton, corner_normalized_app, rect_of_corner_normalized.
  - intros idx s Hs. destruct (markBox_store idx s) as [_ E]. rewrite E. clear E.
    destruct (store s) as [|b0 bs0] using rev_ind; [exact Hs|].
    rewrite last_snoc, removelast_last.
    apply Forall_app in Hs as [Hl Hb]. pose proof (Forall_inv Hb) as Hb0.
    destruct (length b0 =? 4)%nat.
    { apply Forall_app. split; [exact Hl|].
      now apply Forall_singleton, corner_normalized_app. }
    destruct (length b0 =? 5)%nat eqn:E5.
    { apply Forall_app. split; [exact Hl|].
      apply Forall_singleton, corner_normalized_set_last_field; [|exact Hb0].
      now apply Nat.eqb_eq. }
    apply Forall_app. now split.
  - intros s Hs. rewrite cancelLast_store. now apply Forall_removelast.
  - intros button pos s Hs.
    destruct (mousePressEvent_store button pos s) as [E|[i E]]; rewrite E.
    + exact Hs.
    + now apply Forall_delete.
Qed.

(** ** The scan of a directory *)

Lemma list_remove_head (x : string) (l : list string) :
  list_remove x (x :: l) = Some l.
Proof. simpl. now rewrite String.eqb_refl. Qed.

Lemma remove_all_skip_head (Q : string -> Prop) (sk l : list string) (y : string) :
  Forall Q sk -> ~ Q y ->
  remove_all sk (y :: l) = cons y <$> remove_all sk l.
Proof.
  intros Hsk Hy. revert l. induction Hsk as [|x sk Hx Hsk IH]; intros l; [reflexivity|].
  simpl. assert (Hne : String.eqb y x = false).
  { apply String.eqb_neq. intros ->. now apply Hy. }
  rewrite Hne. destruct (list_remove x l) as [l'|]; [apply IH|reflexivity].
Qed.

(** Removing, one by one, every entry that satisfies [Q] leaves the
    entries that do not, in their order; no removal fails. *)
Lemma remove_all_filter (Q : string -> Prop) `{!forall x, Decision (Q x)}
    (l : list string) :
  remove_all (filter Q l) l = Some (filter (fun x => ~ Q x) l).
Proof.
  induction l as [|y l IH]; [reflexivity|].
  destruct (decide (Q y)) as [Hy|Hy].
  - rewrite (filter_cons_True Q), (filter_cons_False (fun x => ~ Q x)) by tauto.
    simpl remove_all. rewrite String.eqb_refl. exact IH.
  - rewrite (filter_cons_False Q), (filter_cons_True (fun x => ~ Q x)) by tauto.
    rewrite (remove_all_skip_head Q); [|apply Forall_forall; intros x Hx; now apply list_elem_of_filter in Hx|exact Hy].
    now rewrite IH.
Qed.

Lemma filter_split_length (Q : string -> Prop) `{!forall x, Decision (Q x)}
    (l : list string) :
  (length (filter Q l) + length (filter (fun x => ~ Q x) l) = length l)%nat.
Proof.
  induction l as [|y l IH]; [reflexivity|].
  destruct (decide (Q y)) as [Hy|Hy].
  - rewrite (filter_cons_True Q), (filter_cons_False (fun x => ~ Q x)) by tauto.
    simpl. lia.
  - rewrite (filter_cons_False Q), (filter_cons_True (fun x => ~ Q x)) by tauto.
    simpl. lia.
Qed.

(** ** Binary64 arithmetic *)

Lemma pow2_pos (e : Z) : (0 < pow2 e)%Q.
Proof. apply Qpower_0_lt. reflexivity. Qed.

Lemma pow2_add (a b : Z) : (pow2 (a + b) == pow2 a * pow2 b)%Q.
Proof. apply Qpower_plus. discriminate. Qed.

Lemma pow2_succ (e : Z) : (pow2 (e + 1) == 2 * pow2 e)%Q.
Proof. rewrite pow2_add. change (pow2 1) with 2%Q. ring. Qed.

Lemma pow2_le (a b : Z) : a <= b -> (pow2 a <= pow2 b)%Q.
Proof. intros H. apply Qpower_le_compat_l; [exact H|discriminate]. Qed.

Lemma pow2_lt (a b : Z) : a < b -> (pow2 a < pow2 b)%Q.
Proof. intros H. apply Qpower_lt_compat_l; [exact H|reflexivity]. Qed.

Lemma pow2_Z (e : Z) : 0 <= e -> (pow2 e == inject_Z (2 ^ e))%Q.
Proof. intros H. unfold pow2. now rewrite Zpower_Qpower. Qed.

Lemma shr_1_m (mrs : shr_record) :
  0 <= shr_m mrs -> shr_m (shr_1 mrs) = shr_m mrs / 2.
Proof.
  destruct mrs as [m r s]. simpl. intros Hm.
  destruct m as [|[p|p|]|p]; simpl; try lia; try reflexivity.
  all: first [apply Z.div_unique with 1; lia
             |apply Z.div_unique with 0; lia].
Qed.

Lemma Qcompare_Lt (x y : Q) : (x < y)%Q -> (x ?= y)%Q = Lt.
Proof. now rewrite Qlt_alt. Qed.
Lemma Qcompare_Gt (x y : Q) : (y < x)%Q -> (x ?= y)%Q = Gt.
Proof. now rewrite Qgt_alt. Qed.
Lemma Qcompare_Eq (x y : Q) : (x == y)%Q -> (x ?= y)%Q = Eq.
Proof. now rewrite Qeq_alt. Qed.

Lemma shr_1_located (mrs : shr_record) (e : Z) (x : Q) :
  0 <= shr_m mrs ->
  located (shr_m mrs) e (loc_of_shr_record mrs) x ->
  located (shr_m (shr_1 mrs)) (e + 1) (loc_of_shr_record (shr_1 mrs)) x.
Proof.
  intros Hm. pose proof (pow2_pos e) as Ht. pose proof (pow2_succ e) as Hs.
  destruct mrs as [m r s].
  assert (Hcase : exists h b, m = 2 * h + b /\ (b = 0 \/ b = 1) /\ shr_m (shr_1 (Build_shr_record m r s)) = h
            /\ shr_r (shr_1 (Build_shr_record m r s)) = (if Z.eqb b 0 then false else true)
            /\ shr_s (shr_1 (Build_shr_record m r s)) = orb r s).
  { simpl in Hm. destruct m as [|[p|p|]|p]; simpl; try lia.
    - exists 0, 0. repeat split; auto.
    - exists (Zpos p), 1. repeat split; auto; lia.
    - exists (Zpos p), 0. repeat split; auto; lia.
    - exists 0, 1. repeat split; auto. }
  destruct Hcase as (h & b & Hmb & Hb & E1 & E2 & E3).
  destruct (shr_1 (Build_shr_record m r s)) as [m' r' s']. simpl in E1, E2, E3.
  subst m' r' s'. simpl shr_m. unfold located, loc_of_shr_record.
  assert (Hinj : (inject_Z m == 2 * inject_Z h + inject_Z b)%Q).
  { rewrite Hmb, inject_Z_plus, inject_Z_mult. reflexivity. }
  unfold located, loc_of_shr_record in *. simpl shr_m in *.
  destruct Hb as [-> | ->]; simpl Z.eqb; cbv iota;
    change (inject_Z 0) with 0%Q in Hinj; change (inject_Z 1) with 1%Q in Hinj;
    destruct r, s; simpl orb; cbv iota in *.
  all: repeat match goal with
       | H : _ /\ _ |- _ => destruct H
       | H : (_ ?= _)%Q = Lt |- _ => apply Qlt_alt in H
       | H : (_ ?= _)%Q = Gt |- _ => apply Qgt_alt in H
       | H : (_ ?= _)%Q = Eq |- _ => apply Qeq_alt in H
       end.
  all: rewrite ?Hs.
  all: try (repeat split; [nra|nra|first [apply Qcompare_Lt; nra|apply Qcompare_Gt; nra|apply Qcompare_Eq; nra]]).
  all: try nra.
Qed.

Lemma iter_pos_shr (p : positive) :
  forall (mrs : shr_record) (e : Z) (x : Q),
    0 <= shr_m mrs -> located (shr_m mrs) e (loc_of_shr_record mrs) x ->
    shr_m (SpecFloat.iter_pos shr_1 p mrs) = shr_m mrs / 2 ^ Zpos p
    /\ located (shr_m (SpecFloat.iter_pos shr_1 p mrs)) (e + Zpos p)
         (loc_of_shr_record (SpecFloat.iter_pos shr_1 p mrs)) x.
Proof.
  induction p as [p IH|p IH|]; intros mrs e x Hm Hl; simpl SpecFloat.iter_pos.
  - pose proof (shr_1_m mrs Hm) as H1. pose proof (shr_1_located mrs e x Hm Hl) as L1.
    assert (P1 : 0 <= shr_m (shr_1 mrs)) by (rewrite H1; apply Z.div_pos; lia).
    destruct (IH (shr_1 mrs) (e + 1) x P1 L1) as [H2 L2].
    assert (P2 : 0 <= shr_m (SpecFloat.iter_pos shr_1 p (shr_1 mrs))).
    { rewrite H2. apply Z.div_pos; [lia|]. apply Z.pow_pos_nonneg; lia. }
    destruct (IH _ (e + 1 + Zpos p) x P2 L2) as [H3 L3]. split.
    + rewrite H3, H2, H1, !Z.div_div by (try apply Z.pow_pos_nonneg; lia).
      f_equal. rewrite Pos2Z.inj_xI, Z.pow_add_r, Z.pow_mul_r by lia.
      change (2 ^ 2) with 4. change (2 ^ 1) with 2.
      replace (4 ^ Zpos p) with (2 ^ Zpos p * 2 ^ Zpos p); [ring|].
      rewrite <- Z.pow_add_r by lia. replace (Zpos p + Zpos p) with (2 * Zpos p) by lia.
      now rewrite Z.pow_mul_r by lia.
    + replace (e + Zpos p~1) with (e + 1 + Zpos p + Zpos p) by lia. exact L3.
  - destruct (IH mrs e x Hm Hl) as [H2 L2].
    assert (P2 : 0 <= shr_m (SpecFloat.iter_pos shr_1 p mrs)).
    { rewrite H2. apply Z.div_pos; [lia|]. apply Z.pow_pos_nonneg; lia. }
    destruct (IH _ (e + Zpos p) x P2 L2) as [H3 L3]. split.
    + rewrite H3, H2, !Z.div_div by (try apply Z.pow_pos_nonneg; lia).
      f_equal. rewrite <- Z.pow_add_r by lia. f_equal. lia.
    + replace (e + Zpos p~0) with (e + Zpos p + Zpos p) by lia. exact L3.
  - split; [|now apply shr_1_located]. rewrite shr_1_m by exact Hm. reflexivity.
Qed.

Lemma digits2_pos_bounds (p : positive) :
  2 ^ (Zpos (digits2_pos p) - 1) <= Zpos p < 2 ^ Zpos (digits2_pos p).
Proof.
  induction p as [p IH|p IH|]; simpl digits2_pos;
    rewrite ?Pos2Z.inj_succ; [| |simpl; lia].
  - replace (Z.succ (Zpos (digits2_pos p)) - 1) with (Z.succ (Zpos (digits2_pos p) - 1)) by lia.
    rewrite !Z.pow_succ_r by lia. lia.
  - replace (Z.succ (Zpos (digits2_pos p)) - 1) with (Z.succ (Zpos (digits2_pos p) - 1)) by lia.
    rewrite !Z.pow_succ_r by lia. lia.
Qed.

Lemma Zdigits2_bounds (n : Z) :
  0 < n -> 2 ^ (Zdigits2 n - 1) <= n < 2 ^ Zdigits2 n.
Proof. destruct n as [|p|p]; try lia. intros _. apply digits2_pos_bounds. Qed.

Lemma Zdigits2_pos (n : Z) : 0 < n -> 0 < Zdigits2 n.
Proof. destruct n; simpl; lia. Qed.

Lemma Zdigits2_unique (n d : Z) :
  0 < n -> 2 ^ (d - 1) <= n < 2 ^ d -> Zdigits2 n = d.
Proof.
  intros Hn [Hl Hu]. pose proof (Zdigits2_bounds n Hn) as [Hl' Hu'].
  pose proof (Zdigits2_pos n Hn) as Hp.
  assert (Hd : 0 < d).
  { destruct (Z_lt_le_dec 0 d) as [|Hd]; [assumption|].
    destruct (Z.eq_dec d 0) as [->|]; [simpl in Hu; lia|].
    rewrite Z.pow_neg_r in Hu by lia. lia. }
  destruct (Z.lt_trichotomy (Zdigits2 n) d) as [Hlt|[Heq|Hgt]]; [|assumption|].
  - assert (2 ^ Zdigits2 n <= 2 ^ (d - 1)) by (apply Z.pow_le_mono_r; lia). lia.
  - assert (2 ^ d <= 2 ^ (Zdigits2 n - 1)) by (apply Z.pow_le_mono_r; lia). lia.
Qed.

Lemma located_of_loc (m e : Z) (l : location) (x : Q) :
  located m e l x ->
  located (shr_m (shr_record_of_loc m l)) e
    (loc_of_shr_record (shr_record_of_loc m l)) x.
Proof. destruct l as [|[]]; simpl; auto. Qed.

Lemma shr_fexp_spec (mx ex : Z) (lx : location) (x : Q) :
  0 <= mx -> located mx ex lx x ->
  let n := fexp 53 1024 (Zdigits2 mx + ex) - ex in
  0 <= n ->
  exists mrs,
    shr_fexp 53 1024 mx ex lx = (mrs, ex + n)
    /\ shr_m mrs = mx / 2 ^ n
    /\ located (shr_m mrs) (ex + n) (loc_of_shr_record mrs) x.
Proof.
  intros Hm Hl n Hn. unfold shr_fexp. fold n. unfold shr.
  assert (Hm0 : 0 <= shr_m (shr_record_of_loc mx lx)) by (destruct lx as [|[]]; exact Hm).
  assert (Hmm : shr_m (shr_record_of_loc mx lx) = mx) by (destruct lx as [|[]]; reflexivity).
  destruct n as [|p|p] eqn:En; [| |lia].
  - exists (shr_record_of_loc mx lx). rewrite Z.add_0_r, Z.pow_0_r, Z.div_1_r.
    split; [reflexivity|]. split; [exact Hmm|]. now apply located_of_loc.
  - destruct (iter_pos_shr p _ ex x Hm0 (located_of_loc _ _ _ _ Hl)) as [H1 L1].
    eexists. split; [reflexivity|]. split; [now rewrite H1, Hmm|exact L1].
Qed.

Lemma located_bounds (m e : Z) (l : location) (x : Q) :
  located m e l x ->
  (inject_Z m * pow2 e <= x /\ x < (inject_Z m + 1) * pow2 e)%Q.
Proof.
  pose proof (pow2_pos e) as Ht.
  destruct l as [|c]; simpl.
  - intros E. split; nra.
  - intros [[H1 H2] _]. split; [apply Qlt_le_weak|]; assumption.
Qed.

(** Rounding to nearest, ties to even, moves a located value by at most
    half a unit. *)
Lemma round_nearest_even_located (m e : Z) (l : location) (x : Q) :
  located m e l x ->
  m <= round_nearest_even m l <= m + 1
  /\ (Qabs (inject_Z (round_nearest_even m l) * pow2 e - x) <= (1 # 2) * pow2 e)%Q.
Proof.
  pose proof (pow2_pos e) as Ht. intros Hl.
  assert (Hinj : (inject_Z (m + 1) == inject_Z m + 1)%Q) by (rewrite inject_Z_plus; reflexivity).
  destruct l as [|[]]; unfold located, round_nearest_even in *.
  - split; [lia|]. apply Qabs_Qle_condition. split; nra.
  - destruct Hl as [[H1 H2] H3]. apply Qeq_alt in H3.
    destruct (Z.even m); (split; [lia|]); rewrite ?Hinj;
      apply Qabs_Qle_condition; split; nra.
  - destruct Hl as [[H1 H2] H3]. apply Qlt_alt in H3.
    split; [lia|]. apply Qabs_Qle_condition; split; nra.
  - destruct Hl as [[H1 H2] H3]. apply Qgt_alt in H3.
    split; [lia|]. rewrite Hinj. apply Qabs_Qle_condition; split; nra.
Qed.

Lemma pow2_half (e : Z) : ((1 # 2) * pow2 e == pow2 (e - 1))%Q.
Proof.
  replace e with (e - 1 + 1) at 1 by lia. rewrite pow2_succ. field.
Qed.

Lemma inject_Z_pow2 (n : Z) : 0 <= n -> (inject_Z (2 ^ n) == pow2 n)%Q.
Proof. intros H. now rewrite pow2_Z. Qed.

(** The value behind a mantissa of [d] digits at exponent [e]. *)
Lemma located_magnitude (m e : Z) (l : location) (x : Q) :
  0 < m -> located m e l x ->
  (pow2 (Zdigits2 m + e - 1) <= x /\ x < pow2 (Zdigits2 m + e))%Q.
Proof.
  intros Hm Hl. destruct (located_bounds _ _ _ _ Hl) as [H1 H2].
  pose proof (Zdigits2_bounds m Hm) as [Hl' Hu'].
  pose proof (Zdigits2_pos m Hm) as Hp. pose proof (pow2_pos e) as Ht.
  replace (Zdigits2 m + e - 1) with ((Zdigits2 m - 1) + e) by lia.
  rewrite !pow2_add.
  assert (A : (pow2 (Zdigits2 m - 1) <= inject_Z m)%Q).
  { rewrite <- inject_Z_pow2 by lia. rewrite <- Zle_Qle. lia. }
  assert (B : (inject_Z m + 1 <= pow2 (Zdigits2 m))%Q).
  { rewrite <- inject_Z_pow2 by lia.
    change 1%Q with (inject_Z 1). rewrite <- inject_Z_plus, <- Zle_Qle. lia. }
  split.
  - apply Qle_trans with (inject_Z m * pow2 e)%Q; [|exact H1].
    apply Qmult_le_compat_r; [exact A|now apply Qlt_le_weak].
  - apply Qlt_le_trans with ((inject_Z m + 1) * pow2 e)%Q; [exact H2|].
    apply Qmult_le_compat_r; [exact B|now apply Qlt_le_weak].
Qed.

Lemma binary_round_aux_normal (s : bool) (mx ex : Z) (lx : location) (x : Q) :
  0 < mx -> located mx ex lx x ->
  53 <= Zdigits2 mx ->
  -1021 <= Zdigits2 mx + ex <= 1022 ->
  exists (m : positive) (e k : Z),
    binary_round_aux 53 1024 s mx ex lx = S754_finite s m e
    /\ Zdigits2 (Zpos m) = 53
    /\ Zdigits2 mx + ex <= e + 53 <= Zdigits2 mx + ex + 1
    /\ 0 < k
    /\ (inject_Z (Zpos m) * pow2 e == inject_Z k * pow2 (Zdigits2 mx + ex - 53))%Q
    /\ (Qabs (inject_Z k * pow2 (Zdigits2 mx + ex - 53) - x)
        <= pow2 (Zdigits2 mx + ex - 54))%Q.
Proof.
  intros Hm Hl Hd HD. set (dg := Zdigits2 mx) in *. set (D := dg + ex) in *.
  assert (Hfexp : fexp 53 1024 D = D - 53) by (unfold fexp, emin; lia).
  destruct (shr_fexp_spec mx ex lx x) as (mrs1 & E1 & Hm1 & L1); try lia; try assumption.
  { fold dg. fold D. rewrite Hfexp. lia. }
  fold dg in E1, Hm1, L1. fold D in E1, Hm1, L1. rewrite Hfexp in E1, Hm1, L1.
  replace (ex + (D - 53 - ex)) with (D - 53) in E1, L1 by lia.
  replace (D - 53 - ex) with (dg - 53) in Hm1 by lia.
  set (m1 := shr_m mrs1) in *.
  pose proof (Zdigits2_bounds mx Hm) as [Hlo Hhi]. fold dg in Hlo, Hhi.
  assert (Hm1b : 2 ^ 52 <= m1 < 2 ^ 53).
  { rewrite Hm1. split.
    - replace (2 ^ 52) with (2 ^ (dg - 1) / 2 ^ (dg - 53)).
      + apply Z.div_le_mono; [apply Z.pow_pos_nonneg; lia|exact Hlo].
      + rewrite <- Z.pow_sub_r by lia. f_equal. lia.
    - apply Z.div_lt_upper_bound; [apply Z.pow_pos_nonneg; lia|].
      rewrite <- Z.pow_add_r by lia. replace (dg - 53 + 53) with dg by lia. exact Hhi. }
  destruct (round_nearest_even_located _ _ _ _ L1) as [Hr Herr].
  set (mr := round_nearest_even m1 (loc_of_shr_record mrs1)) in *.
  rewrite pow2_half in Herr. replace (D - 53 - 1) with (D - 54) in Herr by lia.
  unfold binary_round_aux. rewrite E1. fold m1. fold mr.
  assert (Hmr : 0 < mr) by lia.
  destruct (Z_lt_le_dec mr (2 ^ 53)) as [Hlt|Hge].
  - (* no carry *)
    assert (Hdg : Zdigits2 mr = 53) by (apply Zdigits2_unique; simpl; lia).
    unfold shr_fexp. rewrite Hdg.
    assert (Hf2 : fexp 53 1024 (53 + (D - 53)) - (D - 53) = 0) by (unfold fexp, emin; lia).
    rewrite Hf2. simpl shr. simpl shr_m.
    destruct mr as [|m|m] eqn:Emr; try lia.
    exists m, (D - 53), (Zpos m).
    assert (Hle : (D - 53 <=? 1024 - 53) = true) by (apply Z.leb_le; lia).
    rewrite Hle. split; [reflexivity|]. split; [exact Hdg|]. split; [lia|].
    split; [lia|]. split; [reflexivity|exact Herr].
  - (* the mantissa has reached 2^53 *)
    assert (Emr : mr = 2 ^ 53) by lia.
    assert (Hdg : Zdigits2 mr = 54) by (apply Zdigits2_unique; rewrite ?Emr; simpl; lia).
    unfold shr_fexp. rewrite Hdg.
    assert (Hf2 : fexp 53 1024 (54 + (D - 53)) - (D - 53) = 1) by (unfold fexp, emin; lia).
    rewrite Hf2, Emr. simpl shr. simpl shr_m.
    exists (4503599627370496)%positive, (D - 53 + 1), mr.
    assert (Hle : (D - 53 + 1 <=? 1024 - 53) = true) by (apply Z.leb_le; lia).
    rewrite Hle. split; [reflexivity|]. split; [reflexivity|]. split; [lia|].
    split; [lia|]. split; [|exact Herr].
    rewrite pow2_succ, Emr. change (inject_Z (2 ^ 53)) with (2 * inject_Z 4503599627370496)%Q.
    ring.
Qed.

(** *** Correct rounding as a relation on values *)

Lemma b64_value_finite (s : bool) (m : positive) (e : Z) :
  (b64_value (S754_finite s m e) == signed s (inject_Z (Zpos m) * pow2 e))%Q.
Proof.
  unfold b64_value, signed. destruct s; simpl cond_Zopp; [|reflexivity].
  change (Z.neg m) with (- Z.pos m). rewrite inject_Z_opp. ring.
Qed.

Lemma Qabs_signed (s : bool) (x : Q) : (Qabs (signed s x) == Qabs x)%Q.
Proof. destruct s; simpl; [apply Qabs_opp|reflexivity]. Qed.

Lemma round_aux_RN (s : bool) (mx ex : Z) (lx : location) (x : Q) :
  0 < mx -> located mx ex lx x ->
  53 <= Zdigits2 mx ->
  -1021 <= Zdigits2 mx + ex <= 1022 ->
  exists (m : positive) (e : Z),
    binary_round_aux 53 1024 s mx ex lx = S754_finite s m e
    /\ Zdigits2 (Zpos m) = 53
    /\ Zdigits2 mx + ex <= e + 53 <= Zdigits2 mx + ex + 1
    /\ RN (signed s x) (b64_value (S754_finite s m e)).
Proof.
  intros Hm Hl Hd HD.
  destruct (binary_round_aux_normal s mx ex lx x Hm Hl Hd HD)
    as (m & e & k & E & Hdg & He & Hk & Hv & Herr).
  destruct (located_magnitude _ _ _ _ Hm Hl) as [Hlo Hhi].
  assert (Hx : (0 < x)%Q).
  { apply Qlt_le_trans with (pow2 (Zdigits2 mx + ex - 1)); [apply pow2_pos|exact Hlo]. }
  exists m, e. split; [exact E|]. split; [exact Hdg|]. split; [exact He|].
  right. exists (Zdigits2 mx + ex), (cond_Zopp s k).
  rewrite Qabs_signed, (Qabs_pos x) by (now apply Qlt_le_weak).
  split; [now split|]. rewrite b64_value_finite.
  destruct s; unfold signed; simpl cond_Zopp; rewrite Hv.
  - split; [rewrite inject_Z_opp; ring|].
    apply Qabs_Qle_condition in Herr. apply Qabs_Qle_condition. lra.
  - split; [reflexivity|exact Herr].
Qed.

(** *** What follows from [RN] *)

Lemma RN_error (x y : Q) : RN x y -> (Qabs (y - x) <= (1 # 9007199254740992) * Qabs x)%Q.
Proof.
  intros [[Hx Hy]|(mag & k & [Hlo Hhi] & Hy & Herr)].
  - rewrite Hx, Hy. discriminate.
  - apply Qle_trans with (pow2 (mag - 54)); [exact Herr|].
    replace (mag - 1) with (mag - 54 + 53) in Hlo by lia. rewrite pow2_add in Hlo.
    change (pow2 53) with (9007199254740992%Q) in Hlo.
    pose proof (pow2_pos (mag - 54)). nra.
Qed.

Lemma Z_of_Q_close (a b : Z) : (Qabs (inject_Z a - inject_Z b) < 1)%Q -> a = b.
Proof.
  intros H. apply Qabs_Qlt_condition in H. destruct H as [H1 H2].
  unfold Qminus in H1, H2. rewrite <- inject_Z_opp, <- inject_Z_plus in H1, H2.
  change (- (1))%Q with (inject_Z (-1)) in H1. change 1%Q with (inject_Z 1) in H2.
  rewrite <- Zlt_Qlt in H1, H2. lia.
Qed.

Lemma Qabs_inject_Z (z : Z) : (Qabs (inject_Z z) == inject_Z (Z.abs z))%Q.
Proof.
  destruct (Z_le_gt_dec 0 z).
  - rewrite Qabs_pos, Z.abs_eq by (try rewrite <- (Zle_Qle 0); lia). reflexivity.
  - rewrite Qabs_neg, Z.abs_neq, inject_Z_opp by (try rewrite <- (Zle_Qle _ 0); lia).
    reflexivity.
Qed.

(** A value with at most 53 significant bits is not changed. *)
Lemma RN_exact (j g : Z) (x y : Q) :
  (x == inject_Z j * pow2 g)%Q -> Z.abs j < 2 ^ 53 -> RN x y -> (y == x)%Q.
Proof.
  intros Hx Hj [[Hx0 Hy]|(mag & k & [Hlo Hhi] & Hy & Herr)].
  - now rewrite Hx0, Hy.
  - assert (Hg : mag - 53 <= g).
    { destruct (Z_le_gt_dec (mag - 53) g) as [|Hgt]; [assumption|exfalso].
      assert (Hc : (Qabs x < pow2 (mag - 1))%Q); [|now apply (Qlt_not_le _ _ Hc)].
      rewrite Hx, Qabs_Qmult, (Qabs_pos (pow2 g)) by (apply Qlt_le_weak, pow2_pos).
      rewrite Qabs_inject_Z.
      apply Qlt_le_trans with (pow2 53 * pow2 g)%Q.
      - apply Qmult_lt_compat_r; [apply pow2_pos|].
        rewrite <- inject_Z_pow2 by lia. now rewrite <- Zlt_Qlt.
      - rewrite <- pow2_add. apply pow2_le. lia. }
    set (q := mag - 53) in *.
    assert (Hxq : (x == inject_Z (j * 2 ^ (g - q)) * pow2 q)%Q).
    { rewrite Hx, inject_Z_mult, inject_Z_pow2 by lia.
      replace g with ((g - q) + q) at 1 by lia. rewrite pow2_add. ring. }
    assert (Hk : k = j * 2 ^ (g - q)).
    { apply Z_of_Q_close.
      rewrite Hy, Hxq in Herr. replace (mag - 54) with (q - 1) in Herr by lia.
      rewrite <- pow2_half in Herr. pose proof (pow2_pos q).
      apply Qabs_Qle_condition in Herr. apply Qabs_Qlt_condition.
      set (K := inject_Z k) in *. set (J := inject_Z (j * 2 ^ (g - q))) in *.
      split; nra. }
    now rewrite Hy, Hxq, Hk.
Qed.

Lemma RN_exact_int (z : Z) (y : Q) :
  Z.abs z < 2 ^ 53 -> RN (inject_Z z) y -> (y == inject_Z z)%Q.
Proof.
  intros Hz H. apply (RN_exact z 0); [|exact Hz|exact H].
  change (pow2 0) with 1%Q. ring.
Qed.

Lemma RN_eq_l (x x' y : Q) : (x == x')%Q -> RN x y -> RN x' y.
Proof.
  intros E [[Hx Hy]|(mag & k & [Hlo Hhi] & Hy & Herr)].
  - left. split; [now rewrite <- E|exact Hy].
  - right. exists mag, k. rewrite <- E. repeat split; assumption.
Qed.

Lemma RN_zero : RN 0 0.
Proof. left. split; reflexivity. Qed.

(** The value of a float in the normal range is not changed by rounding. *)
Lemma RN_float (s : bool) (m : positive) (e : Z) :
  Zdigits2 (Zpos m) = 53 ->
  RN (b64_value (S754_finite s m e)) (b64_value (S754_finite s m e)).
Proof.
  intros Hd. right. exists (e + 53), (cond_Zopp s (Zpos m)).
  pose proof (Zdigits2_bounds (Zpos m) eq_refl) as [Hlo Hhi]. rewrite Hd in Hlo, Hhi.
  assert (Ha : (Qabs (b64_value (S754_finite s m e)) == inject_Z (Zpos m) * pow2 e)%Q).
  { rewrite b64_value_finite, Qabs_signed, Qabs_Qmult, Qabs_inject_Z.
    rewrite (Qabs_pos (pow2 e)) by (apply Qlt_le_weak, pow2_pos). reflexivity. }
  pose proof (pow2_pos e) as Ht.
  split; [|split].
  - rewrite Ha. replace (e + 53 - 1) with (52 + e) by lia.
    replace (e + 53) with (53 + e) by lia. rewrite !pow2_add.
    rewrite <- (inject_Z_pow2 52), <- (inject_Z_pow2 53) by lia. split.
    + apply Qmult_le_compat_r; [rewrite <- Zle_Qle; exact Hlo|now apply Qlt_le_weak].
    + apply Qmult_lt_compat_r; [exact Ht|rewrite <- Zlt_Qlt; exact Hhi].
  - replace (e + 53 - 53) with e by lia. reflexivity.
  - setoid_replace (b64_value (S754_finite s m e) - b64_value (S754_finite s m e))%Q
      with 0%Q using relation Qeq by ring.
    apply Qlt_le_weak, pow2_pos.
Qed.

(** *** Conversion from an integer *)

Lemma pos_iter_xO (m d : positive) : Zpos (Pos.iter xO m d) = Zpos m * 2 ^ Zpos d.
Proof.
  induction d as [|d IH] using Pos.peano_ind.
  - simpl. lia.
  - rewrite Pos.iter_succ, Pos2Z.inj_xO, IH, Pos2Z.inj_succ, Z.pow_succ_r by lia. ring.
Qed.

Lemma shl_align_spec (mx : positive) (ex ex' : Z) :
  exists (mz : positive) (ez : Z),
    shl_align mx ex ex' = (mz, ez)
    /\ ez = Z.min ex ex' /\ Zpos mz = Zpos mx * 2 ^ (ex - ez).
Proof.
  unfold shl_align. destruct (ex' - ex) as [|d|d] eqn:E.
  - exists mx, ex. replace (ex - ex) with 0 by lia. repeat split; lia.
  - exists mx, ex. replace (ex - ex) with 0 by lia. repeat split; lia.
  - exists (Pos.iter xO mx d), ex'. split; [reflexivity|]. split; [lia|].
    rewrite pos_iter_xO. f_equal. f_equal. lia.
Qed.

Lemma Zdigits2_mul_pow2 (m n : Z) :
  0 < m -> 0 <= n -> Zdigits2 (m * 2 ^ n) = Zdigits2 m + n.
Proof.
  intros Hm Hn. pose proof (Zdigits2_bounds m Hm) as [Hlo Hhi].
  pose proof (Zdigits2_pos m Hm).
  assert (0 < 2 ^ n) by (apply Z.pow_pos_nonneg; lia).
  apply Zdigits2_unique; [nia|].
  replace (Zdigits2 m + n - 1) with (Zdigits2 m - 1 + n) by lia.
  rewrite !Z.pow_add_r by lia. split; nia.
Qed.

Lemma binary_round_RN (s : bool) (mx : positive) (ex : Z) :
  -1021 <= Zdigits2 (Zpos mx) + ex <= 1022 ->
  exists (m : positive) (e : Z),
    binary_round 53 1024 s mx ex = S754_finite s m e
    /\ Zdigits2 (Zpos m) = 53
    /\ Zdigits2 (Zpos mx) + ex <= e + 53 <= Zdigits2 (Zpos mx) + ex + 1
    /\ RN (signed s (inject_Z (Zpos mx) * pow2 ex)) (b64_value (S754_finite s m e)).
Proof.
  intros HD. unfold binary_round.
  change (Zpos (digits2_pos mx)) with (Zdigits2 (Zpos mx)).
  set (D := Zdigits2 (Zpos mx) + ex) in *.
  assert (Hfexp : fexp 53 1024 D = D - 53) by (unfold fexp, emin; lia).
  rewrite Hfexp.
  destruct (shl_align_spec mx ex (D - 53)) as (mz & ez & E & Hez & Hmz). rewrite E.
  assert (Hdz : Zdigits2 (Zpos mz) = Zdigits2 (Zpos mx) + (ex - ez)).
  { rewrite Hmz. apply Zdigits2_mul_pow2; lia. }
  destruct (round_aux_RN s (Zpos mz) ez loc_Exact (inject_Z (Zpos mx) * pow2 ex))
    as (m & e & E2 & Hdg & He & Hrn); try lia.
  - unfold located. rewrite Hmz, inject_Z_mult, inject_Z_pow2 by lia.
    replace ex with ((ex - ez) + ez) at 1 by lia. rewrite pow2_add. ring.
  - exists m, e. split; [exact E2|]. split; [exact Hdg|]. split; [lia|exact Hrn].
Qed.

Lemma binary_normalize_RN (m e : Z) :
  m <> 0 -> -1021 <= Zdigits2 m + e <= 1022 ->
  exists (s : bool) (mm : positive) (ee : Z),
    binary_normalize 53 1024 m e false = S754_finite s mm ee
    /\ Zdigits2 (Zpos mm) = 53
    /\ Zdigits2 m + e <= ee + 53 <= Zdigits2 m + e + 1
    /\ RN (inject_Z m * pow2 e) (b64_value (S754_finite s mm ee)).
Proof.
  intros Hm HD. destruct m as [|p|p]; [contradiction| |]; simpl binary_normalize.
  - destruct (binary_round_RN false p e HD) as (mm & ee & E & H1 & H2 & H3).
    exists false, mm, ee. repeat split; try assumption; lia.
  - destruct (binary_round_RN true p e HD) as (mm & ee & E & H1 & H2 & H3).
    exists true, mm, ee. split; [exact E|]. split; [exact H1|]. split; [exact H2|].
    apply (RN_eq_l (signed true (inject_Z (Zpos p) * pow2 e))); [|exact H3].
    unfold signed. change (Z.neg p) with (- Z.pos p). rewrite inject_Z_opp. ring.
Qed.

Lemma Zdigits2_le (n k : Z) : 0 < n -> n < 2 ^ k -> Zdigits2 n <= k.
Proof.
  intros Hn Hk. pose proof (Zdigits2_bounds n Hn) as [Hlo _].
  destruct (Z_le_gt_dec (Zdigits2 n) k) as [|Hgt]; [assumption|exfalso].
  assert (2 ^ k <= 2 ^ (Zdigits2 n - 1)); [|lia].
  apply Z.pow_le_mono_r; [lia|]. lia.
Qed.

Lemma Zdigits2_abs (n : Z) : Zdigits2 (Z.abs n) = Zdigits2 n.
Proof. now destruct n. Qed.

Lemma b64_of_int_spec (k z : Z) :
  0 <= k <= 1000 -> Z.abs z < 2 ^ k ->
  b64_ok (k + 1) (b64_of_int z)
  /\ RN (inject_Z z) (b64_value (b64_of_int z)).
Proof.
  intros Hk Hz. unfold b64_of_int.
  destruct (Z.eq_dec z 0) as [->|Hne].
  - simpl. split; [exact I|apply RN_zero].
  - assert (Hd : 1 <= Zdigits2 z <= k).
    { rewrite <- Zdigits2_abs. split.
      - pose proof (Zdigits2_pos (Z.abs z)). lia.
      - apply Zdigits2_le; lia. }
    destruct (binary_normalize_RN z 0 Hne) as (s & mm & ee & E & H1 & H2 & H3); [lia|].
    rewrite E. split; [simpl; split; [exact H1|lia]|].
    apply (RN_eq_l (inject_Z z * pow2 0)%Q); [|exact H3].
    change (pow2 0) with 1%Q. ring.
Qed.

Lemma b64_of_int_exact (z : Z) :
  Z.abs z < 2 ^ 53 -> (b64_value (b64_of_int z) == inject_Z z)%Q.
Proof.
  intros Hz. apply RN_exact_int; [exact Hz|].
  apply (b64_of_int_spec 53); [lia|exact Hz].
Qed.

Lemma Zdigits2_gt (n k : Z) : 0 <= k -> 2 ^ k <= n -> k < Zdigits2 n.
Proof.
  intros Hk Hn. assert (Hp : 0 < n) by (pose proof (Z.pow_pos_nonneg 2 k); lia).
  pose proof (Zdigits2_bounds n Hp) as [_ Hhi].
  destruct (Z_lt_le_dec k (Zdigits2 n)) as [|Hle]; [assumption|exfalso].
  assert (2 ^ Zdigits2 n <= 2 ^ k); [|lia].
  apply Z.pow_le_mono_r; lia.
Qed.

Lemma mantissa_bounds (m : positive) :
  Zdigits2 (Zpos m) = 53 -> 2 ^ 52 <= Zpos m < 2 ^ 53.
Proof.
  intros Hd. pose proof (Zdigits2_bounds (Zpos m) eq_refl) as H.
  now rewrite Hd in H.
Qed.

(** *** Multiplication *)

Lemma b64_mul_spec (ka kb : Z) (a b : spec_float) :
  b64_ok ka a -> b64_ok kb b -> ka + kb <= 1000 ->
  b64_ok (ka + kb + 1) (b64_mul a b)
  /\ RN (b64_value a * b64_value b) (b64_value (b64_mul a b)).
Proof.
  intros Ha Hb Hk.
  destruct a as [sa|sa| |sa ma ea]; try contradiction;
    destruct b as [sb|sb| |sb mb eb]; try contradiction; simpl b64_mul.
  - split; [exact I|]. left. split; [simpl; ring|reflexivity].
  - split; [exact I|]. left. split; [simpl; ring|reflexivity].
  - split; [exact I|]. left. split; [simpl b64_value at 2; ring|reflexivity].
  - destruct Ha as [Hda Hea], Hb as [Hdb Heb].
    pose proof (mantissa_bounds ma Hda) as Hma.
    pose proof (mantissa_bounds mb Hdb) as Hmb.
    assert (HP : 2 ^ 104 <= Zpos (ma * mb) < 2 ^ 106).
    { rewrite Pos2Z.inj_mul. change (2 ^ 104) with (2 ^ 52 * 2 ^ 52).
      change (2 ^ 106) with (2 ^ 53 * 2 ^ 53). split; nia. }
    assert (HdP : 105 <= Zdigits2 (Zpos (ma * mb)) <= 106).
    { pose proof (Zdigits2_gt (Zpos (ma * mb)) 104 ltac:(lia) ltac:(lia)).
      pose proof (Zdigits2_le (Zpos (ma * mb)) 106 ltac:(lia) ltac:(lia)). lia. }
    destruct (round_aux_RN (xorb sa sb) (Zpos (ma * mb)) (ea + eb) loc_Exact
                (inject_Z (Zpos (ma * mb)) * pow2 (ea + eb)))
      as (m & e & E & Hdg & He & Hrn); try lia.
    + reflexivity.
    + rewrite E. split; [simpl; split; [exact Hdg|lia]|].
      apply (RN_eq_l (signed (xorb sa sb)
                        (inject_Z (Zpos (ma * mb)) * pow2 (ea + eb)))); [|exact Hrn].
      unfold b64_value.
      destruct sa, sb; unfold signed; simpl xorb; simpl cond_Zopp; cbv iota;
        change (Z.neg ?p) with (- Z.pos p);
        rewrite ?inject_Z_opp, Pos2Z.inj_mul, inject_Z_mult, pow2_add; ring.
Qed.

Lemma b64_mul_comm (a b : spec_float) : b64_mul a b = b64_mul b a.
Proof.
  destruct a as [sa|sa| |sa ma ea], b as [sb|sb| |sb mb eb]; simpl;
    rewrite ?(xorb_comm sa sb), ?(Pos.mul_comm ma mb), ?(Z.add_comm ea eb); reflexivity.
Qed.

(** *** Division *)

Lemma new_location_located (m2 q r e : Z) :
  0 < m2 -> 0 <= r < m2 ->
  located q e (new_location m2 r)
    ((inject_Z q + inject_Z r / inject_Z m2) * pow2 e).
Proof.
  intros Hm Hr. pose proof (pow2_pos e) as Ht.
  assert (HM : (0 < inject_Z m2)%Q) by (rewrite <- (Zlt_Qlt 0); lia).
  set (M := inject_Z m2) in *. set (R := inject_Z r).
  assert (HR : (0 <= R)%Q) by (subst R; rewrite <- (Zle_Qle 0); lia).
  set (rho := (R / M)%Q).
  assert (Hrho : (rho * M == R)%Q) by (subst rho; field; lra).
  assert (HRM : (R < M)%Q) by (subst R M; rewrite <- Zlt_Qlt; lia).
  destruct (Z.eq_dec r 0) as [Hr0|Hr0].
  - assert (E0 : (rho == 0)%Q).
    { subst rho R. rewrite Hr0. change (inject_Z 0) with 0%Q. field. lra. }
    assert (El : new_location m2 r = loc_Exact).
    { rewrite Hr0. unfold new_location, new_location_even, new_location_odd.
      now destruct (Z.even m2). }
    rewrite El. unfold located. rewrite E0. ring.
  - assert (HRpos : (0 < R)%Q) by (subst R; rewrite <- (Zlt_Qlt 0); lia).
    assert (Hrho0 : (0 < rho)%Q) by nra.
    assert (Hrho1 : (rho < 1)%Q) by nra.
    assert (Hcmp : forall c, (2 * r ?= m2) = c ->
                            (((inject_Z q + rho) * pow2 e ?= (inject_Z q + (1 # 2)) * pow2 e)%Q = c)).
    { intros c Hc. destruct c.
      - apply Z.compare_eq in Hc. apply Qcompare_Eq.
        assert (2 * R == M)%Q.
        { subst R M. rewrite <- Hc, inject_Z_mult. reflexivity. }
        assert (rho == 1 # 2)%Q by nra. nra.
      - assert (Hc' : 2 * r < m2) by exact Hc. apply Qcompare_Lt.
        assert (2 * R < M)%Q.
        { subst R M. change 2%Q with (inject_Z 2).
          rewrite <- inject_Z_mult, <- Zlt_Qlt. exact Hc'. }
        assert (rho < 1 # 2)%Q by nra. nra.
      - assert (Hc' : m2 < 2 * r) by (apply Z.compare_gt_iff; exact Hc). apply Qcompare_Gt.
        assert (M < 2 * R)%Q.
        { subst R M. change 2%Q with (inject_Z 2).
          rewrite <- inject_Z_mult, <- Zlt_Qlt. exact Hc'. }
        assert ((1 # 2) < rho)%Q by nra. nra. }
    assert (Hbetween : (inject_Z q * pow2 e < (inject_Z q + rho) * pow2 e
                        /\ (inject_Z q + rho) * pow2 e < (inject_Z q + 1) * pow2 e)%Q)
      by (split; nra).
    unfold new_location.
    destruct (Z.even m2) eqn:Ev; unfold new_location_even, new_location_odd;
      rewrite (proj2 (Z.eqb_neq r 0) Hr0); unfold located.
    + split; [exact Hbetween|]. now apply Hcmp.
    + split; [exact Hbetween|]. apply Hcmp.
      assert (Hodd : 2 * r <> m2).
      { intros E. rewrite <- E, Z.even_mul in Ev. discriminate. }
      destruct (2 * r + 1 ?= m2) eqn:Ec.
      * apply Z.compare_eq in Ec. apply Z.compare_lt_iff. lia.
      * assert (Ec' : 2 * r + 1 < m2) by exact Ec. apply Z.compare_lt_iff. lia.
      * assert (Ec' : m2 < 2 * r + 1) by (apply Z.compare_gt_iff; exact Ec).
        apply Z.compare_gt_iff. lia.
Qed.

Lemma div_core_spec (m1 e1 m2 e2 : Z) :
  0 < m1 -> 0 < m2 ->
  -1074 <= Zdigits2 m1 + e1 - (Zdigits2 m2 + e2) - 53 ->
  exists (q e' : Z) (l : location),
    SFdiv_core_binary 53 1024 m1 e1 m2 e2 = (q, e', l)
    /\ 0 < q /\ 53 <= Zdigits2 q
    /\ located q e' l (inject_Z m1 / inject_Z m2 * pow2 (e1 - e2)).
Proof.
  intros H1 H2 Hn. unfold SFdiv_core_binary.
  set (d1 := Zdigits2 m1) in *. set (d2 := Zdigits2 m2) in *.
  assert (Hfexp : fexp 53 1024 (d1 + e1 - (d2 + e2)) = d1 + e1 - (d2 + e2) - 53)
    by (unfold fexp, emin; lia).
  rewrite Hfexp. set (e' := Z.min (d1 + e1 - (d2 + e2) - 53) (e1 - e2)).
  set (s := e1 - e2 - e').
  assert (Hs : 0 <= s /\ 53 + d2 - d1 <= s) by (subst s e'; lia).
  assert (Hm' : match s with
                | Zpos _ => Z.shiftl m1 s
                | Z0 => m1
                | Zneg _ => 0
                end = m1 * 2 ^ s).
  { destruct s as [|p|p] eqn:Es; [simpl; lia| |lia].
    apply Z.shiftl_mul_pow2. lia. }
  rewrite Hm'. set (m' := m1 * 2 ^ s).
  pose proof (Z_div_mod m' m2 ltac:(lia)) as Hdm.
  destruct (Z.div_eucl m' m2) as [q r]. destruct Hdm as [Hq Hr].
  exists q, e', (new_location m2 r).
  pose proof (Zdigits2_bounds m1 H1) as [Hlo1 _]. fold d1 in Hlo1.
  pose proof (Zdigits2_bounds m2 H2) as [_ Hhi2]. fold d2 in Hhi2.
  pose proof (Zdigits2_pos m1 H1). pose proof (Zdigits2_pos m2 H2).
  assert (Hq52 : 2 ^ 52 <= q).
  { assert (Hb : 2 ^ 52 * m2 <= m').
    { apply Z.le_trans with (2 ^ 52 * 2 ^ d2).
      - apply Z.mul_le_mono_nonneg_l; lia.
      - subst m'. apply Z.le_trans with (2 ^ (d1 - 1) * 2 ^ s).
        + rewrite <- !Z.pow_add_r by lia. apply Z.pow_le_mono_r; lia.
        + apply Z.mul_le_mono_nonneg_r; [apply Z.pow_nonneg; lia|exact Hlo1]. }
    nia. }
  split; [reflexivity|]. split; [lia|].
  split; [pose proof (Zdigits2_gt q 52 ltac:(lia) Hq52); lia|].
  assert (HM : (0 < inject_Z m2)%Q) by (rewrite <- (Zlt_Qlt 0); lia).
  assert (Hx : (inject_Z m1 / inject_Z m2 * pow2 (e1 - e2)
                == (inject_Z q + inject_Z r / inject_Z m2) * pow2 e')%Q).
  { replace (e1 - e2) with (s + e') by (subst s; lia). rewrite pow2_add.
    rewrite <- (inject_Z_pow2 s) by lia.
    assert (Hm1 : (inject_Z m1 * inject_Z (2 ^ s) == inject_Z m2 * inject_Z q + inject_Z r)%Q).
    { rewrite <- !inject_Z_mult, <- inject_Z_plus. fold m'. now rewrite Hq. }
    field_simplify_eq; [|lra]. nra. }
  unfold located. pose proof (new_location_located m2 q r e' H2 Hr) as Hl.
  destruct (new_location m2 r) as [|c]; unfold located in Hl |- *.
  - now rewrite Hx.
  - rewrite Hx. exact Hl.
Qed.

Lemma pow2_lt_inv (a b : Z) : (pow2 a < pow2 b)%Q -> a < b.
Proof. intros H. apply (Qpower_lt_compat_l_inv 2); [exact H|reflexivity]. Qed.

Lemma magnitude_range (D lo hi : Z) (x : Q) :
  (pow2 (D - 1) <= x)%Q -> (x < pow2 D)%Q ->
  (pow2 lo <= x)%Q -> (x < pow2 hi)%Q -> lo < D <= hi.
Proof.
  intros H1 H2 H3 H4. split.
  - apply pow2_lt_inv. now apply Qle_lt_trans with x.
  - assert (D - 1 < hi); [|lia]. apply pow2_lt_inv. now apply Qle_lt_trans with x.
Qed.

Lemma b64_ok_weaken (k k' : Z) (r : spec_float) : k <= k' -> b64_ok k r -> b64_ok k' r.
Proof. intros Hk. destruct r; simpl; try tauto. intros [H1 H2]. split; [exact H1|lia]. Qed.

Lemma b64_div_spec (ka kb : Z) (a b : spec_float) :
  b64_ok ka a -> b64_ok kb b -> ka + kb <= 1000 ->
  (forall s, b <> S754_zero s) ->
  b64_ok (ka + kb + 2) (b64_div a b)
  /\ RN (b64_value a / b64_value b) (b64_value (b64_div a b)).
Proof.
  intros Ha Hb Hk Hnz.
  destruct a as [sa|sa| |sa ma ea]; try contradiction;
    destruct b as [sb|sb| |sb mb eb]; try contradiction;
    try (exfalso; now apply (Hnz sb)); simpl b64_div.
  - split; [exact I|]. left. split; [|reflexivity]. simpl b64_value at 1.
    unfold Qdiv. ring.
  - destruct Ha as [Hda Hea], Hb as [Hdb Heb].
    pose proof (mantissa_bounds ma Hda) as Hma.
    pose proof (mantissa_bounds mb Hdb) as Hmb.
    unfold SFdiv.
    assert (Hside : -1074 <= Zdigits2 (Zpos ma) + ea - (Zdigits2 (Zpos mb) + eb) - 53)
      by (rewrite Hda, Hdb; lia).
    destruct (div_core_spec (Zpos ma) ea (Zpos mb) eb ltac:(lia) ltac:(lia) Hside)
      as (q & e' & l & E & Hq & Hdq & Hl).
    rewrite E.
    set (x := (inject_Z (Zpos ma) / inject_Z (Zpos mb) * pow2 (ea - eb))%Q) in *.
    destruct (located_magnitude _ _ _ _ Hq Hl) as [Hlo Hhi].
    set (A := inject_Z (Zpos ma)) in *. set (B := inject_Z (Zpos mb)) in *.
    assert (HA : (4503599627370496 <= A /\ A < 9007199254740992)%Q).
    { subst A. change (4503599627370496%Q) with (inject_Z (2 ^ 52)).
      change (9007199254740992%Q) with (inject_Z (2 ^ 53)).
      rewrite <- Zle_Qle, <- Zlt_Qlt. exact Hma. }
    assert (HB : (4503599627370496 <= B /\ B < 9007199254740992)%Q).
    { subst B. change (4503599627370496%Q) with (inject_Z (2 ^ 52)).
      change (9007199254740992%Q) with (inject_Z (2 ^ 53)).
      rewrite <- Zle_Qle, <- Zlt_Qlt. exact Hmb. }
    set (rho := (A / B)%Q) in *.
    assert (Hrho : (rho * B == A)%Q) by (subst rho; field; lra).
    assert (Hr1 : ((1 # 2) <= rho)%Q) by nra.
    assert (Hr2 : (rho < 2)%Q) by nra.
    pose proof (pow2_pos (ea - eb)) as Ht.
    assert (Hx1 : (pow2 (ea - eb - 1) <= x)%Q).
    { subst x. rewrite <- pow2_half. nra. }
    assert (Hx2 : (x < pow2 (ea - eb + 1))%Q).
    { subst x. rewrite pow2_succ. nra. }
    pose proof (magnitude_range _ _ _ _ Hlo Hhi Hx1 Hx2) as HD.
    destruct (round_aux_RN (xorb sa sb) q e' l x Hq Hl Hdq) as (m & e & E2 & Hdg & He & Hrn);
      [lia|].
    rewrite E2. split; [simpl; split; [exact Hdg|lia]|].
    apply (RN_eq_l (signed (xorb sa sb) x)); [|exact Hrn].
    subst x rho. unfold b64_value.
    assert (Hinv : (pow2 (ea - eb) == pow2 ea * / pow2 eb)%Q).
    { replace (ea - eb) with (ea + - eb) by lia. rewrite pow2_add.
      unfold pow2. now rewrite Qpower_opp. }
    pose proof (pow2_pos eb). pose proof (pow2_pos ea).
    destruct sa, sb; unfold signed; simpl xorb; simpl cond_Zopp; cbv iota;
      change (Z.neg ?p) with (- Z.pos p); rewrite ?inject_Z_opp, Hinv;
      fold A; fold B; field; lra.
Qed.

(** *** True division of integers *)

Lemma b64_ratio_spec (k : Z) (s : bool) (m1 m2 : Z) :
  0 <= k <= 1000 -> 0 < m1 < 2 ^ k -> 0 < m2 < 2 ^ k ->
  b64_ok (k + 1) (b64_ratio s m1 m2)
  /\ RN (signed s (inject_Z m1 / inject_Z m2)) (b64_value (b64_ratio s m1 m2)).
Proof.
  intros Hk H1 H2. unfold b64_ratio.
  pose proof (Zdigits2_pos m1 ltac:(lia)). pose proof (Zdigits2_pos m2 ltac:(lia)).
  pose proof (Zdigits2_le m1 k ltac:(lia) ltac:(lia)).
  pose proof (Zdigits2_le m2 k ltac:(lia) ltac:(lia)).
  destruct (div_core_spec m1 0 m2 0 ltac:(lia) ltac:(lia) ltac:(lia))
    as (q & e' & l & E & Hq & Hdq & Hl).
  rewrite E. replace (0 - 0) with 0 in Hl by lia. change (pow2 0) with 1%Q in Hl.
  set (x := (inject_Z m1 / inject_Z m2 * 1)%Q) in *.
  destruct (located_magnitude _ _ _ _ Hq Hl) as [Hlo Hhi].
  assert (HA : (1 <= inject_Z m1 /\ inject_Z m1 < pow2 k)%Q).
  { rewrite <- inject_Z_pow2 by lia. change 1%Q with (inject_Z 1).
    rewrite <- Zle_Qle, <- Zlt_Qlt. lia. }
  assert (HB : (1 <= inject_Z m2 /\ inject_Z m2 < pow2 k)%Q).
  { rewrite <- inject_Z_pow2 by lia. change 1%Q with (inject_Z 1).
    rewrite <- Zle_Qle, <- Zlt_Qlt. lia. }
  set (A := inject_Z m1) in *. set (B := inject_Z m2) in *.
  set (rho := (A / B)%Q) in *.
  assert (Hrho : (rho * B == A)%Q) by (subst rho; field; lra).
  pose proof (pow2_pos k) as Hpk.
  assert (Hinv : (pow2 (- k) * pow2 k == 1)%Q).
  { rewrite <- pow2_add. replace (- k + k) with 0 by lia. reflexivity. }
  pose proof (pow2_pos (- k)) as Hpk'.
  assert (Hx1 : (pow2 (- k) <= x)%Q) by (subst x; nra).
  assert (Hx2 : (x < pow2 k)%Q) by (subst x; nra).
  pose proof (magnitude_range _ _ _ _ Hlo Hhi Hx1 Hx2) as HD.
  destruct (round_aux_RN s q e' l x Hq Hl Hdq) as (m & e & E2 & Hdg & He & Hrn); [lia|].
  rewrite E2. split; [simpl; split; [exact Hdg|lia]|].
  apply (RN_eq_l (signed s x)); [|exact Hrn].
  subst x. destruct s; unfold signed; ring.
Qed.

Lemma b64_truediv_spec (k a b : Z) :
  0 <= k <= 1000 -> Z.abs a < 2 ^ k -> 0 < Z.abs b < 2 ^ k ->
  b64_ok (k + 1) (b64_truediv a b)
  /\ RN (inject_Z a / inject_Z b) (b64_value (b64_truediv a b)).
Proof.
  intros Hk Ha Hb. unfold b64_truediv.
  rewrite (proj2 (Z.eqb_neq b 0)) by lia.
  destruct (Z.eqb_spec a 0) as [->|Hne].
  - split; [exact I|]. left. split; [|reflexivity].
    change (inject_Z 0) with 0%Q. unfold Qdiv. ring.
  - destruct (b64_ratio_spec k (xorb (a <? 0) (b <? 0)) (Z.abs a) (Z.abs b))
      as [Hok Hrn]; try lia.
    split; [exact Hok|]. eapply RN_eq_l; [|exact Hrn].
    assert (HB : ~ (inject_Z b == 0)%Q).
    { change 0%Q with (inject_Z 0). rewrite inject_Z_injective. lia. }
    assert (HB' : ~ (inject_Z (Z.abs b) == 0)%Q).
    { change 0%Q with (inject_Z 0). rewrite inject_Z_injective. lia. }
    destruct (Z.ltb_spec a 0), (Z.ltb_spec b 0); unfold signed; simpl xorb; cbv iota;
      rewrite ?(Z.abs_neq a), ?(Z.abs_neq b), ?(Z.abs_eq a), ?(Z.abs_eq b) by lia;
      rewrite ?inject_Z_opp; field; try assumption.
    all: rewrite ?(Z.abs_neq b) in HB' by lia; rewrite ?inject_Z_opp in HB'; lra.
Qed.

(** *** Subtraction *)

Lemma shl_align_fst (mx : positive) (ex ez : Z) :
  ez <= ex -> Zpos (fst (shl_align mx ex ez)) = Zpos mx * 2 ^ (ex - ez).
Proof.
  intros H. destruct (shl_align_spec mx ex ez) as (mz & ez' & E & He & Hm).
  rewrite E. simpl. rewrite Hm. f_equal. f_equal. lia.
Qed.

Lemma b64_sub_spec (k : Z) (a b : spec_float) :
  b64_ok k a -> b64_ok k b -> k <= 900 ->
  b64_ok (k + 54) (b64_sub a b)
  /\ RN (b64_value a - b64_value b) (b64_value (b64_sub a b)).
Proof.
  intros Ha Hb Hk.
  destruct a as [sa|sa| |sa ma ea]; try contradiction;
    destruct b as [sb|sb| |sb mb eb]; try contradiction.
  - split.
    + simpl. destruct sa, sb; exact I.
    + left. split; [simpl; ring|]. simpl. destruct sa, sb; reflexivity.
  - split.
    + simpl. destruct Hb as [H1 H2]. split; [exact H1|lia].
    + simpl b64_sub. destruct Hb as [H1 H2].
      apply (RN_eq_l (b64_value (S754_finite (negb sb) mb eb))); [|now apply RN_float].
      simpl b64_value at 2. rewrite !b64_value_finite.
      destruct sb; unfold signed; simpl negb; cbv iota; ring.
  - split.
    + simpl. destruct Ha as [H1 H2]. split; [exact H1|lia].
    + simpl b64_sub. destruct Ha as [H1 H2].
      apply (RN_eq_l (b64_value (S754_finite sa ma ea))); [|now apply RN_float].
      simpl b64_value at 3. ring.
  - destruct Ha as [Hda Hea], Hb as [Hdb Heb].
    pose proof (mantissa_bounds ma Hda) as Hma.
    pose proof (mantissa_bounds mb Hdb) as Hmb.
    unfold b64_sub, SFsub.
    set (ez := Z.min ea eb).
    rewrite !shl_align_fst by (subst ez; lia).
    set (A := Zpos ma * 2 ^ (ea - ez)). set (B := Zpos mb * 2 ^ (eb - ez)).
    set (m := cond_Zopp sa A - cond_Zopp sb B).
    assert (Hval : (b64_value (S754_finite sa ma ea) - b64_value (S754_finite sb mb eb)
                    == inject_Z m * pow2 ez)%Q).
    { unfold b64_value. subst m A B.
      assert (E1 : (pow2 ea == inject_Z (2 ^ (ea - ez)) * pow2 ez)%Q).
      { rewrite inject_Z_pow2 by (subst ez; lia). rewrite <- pow2_add.
        replace (ea - ez + ez) with ea by lia. reflexivity. }
      assert (E2 : (pow2 eb == inject_Z (2 ^ (eb - ez)) * pow2 ez)%Q).
      { rewrite inject_Z_pow2 by (subst ez; lia). rewrite <- pow2_add.
        replace (eb - ez + ez) with eb by lia. reflexivity. }
      rewrite E1, E2.
      destruct sa, sb; simpl cond_Zopp; change (Z.neg ?p) with (- Z.pos p);
        rewrite ?inject_Z_opp, ?inject_Z_minus, ?inject_Z_plus, ?inject_Z_mult,
          ?inject_Z_opp; unfold Z.sub; rewrite ?inject_Z_plus, ?inject_Z_opp,
          ?inject_Z_mult, ?inject_Z_opp; ring. }
    destruct (Z.eq_dec m 0) as [Hm0|Hm0].
    + rewrite Hm0. simpl binary_normalize. split; [exact I|].
      left. split; [|reflexivity]. rewrite Hval, Hm0. change (inject_Z 0) with 0%Q. ring.
    + assert (HpA : 0 < 2 ^ (ea - ez)) by (apply Z.pow_pos_nonneg; subst ez; lia).
      assert (HpB : 0 < 2 ^ (eb - ez)) by (apply Z.pow_pos_nonneg; subst ez; lia).
      assert (Hbound : Z.abs m < 2 ^ (54 + Z.max ea eb - ez)).
      { assert (HA : 0 < A < 2 ^ (53 + Z.max ea eb - ez)).
        { subst A. split; [nia|].
          apply Z.lt_le_trans with (2 ^ 53 * 2 ^ (ea - ez)); [nia|].
          rewrite <- Z.pow_add_r by (subst ez; lia).
          apply Z.pow_le_mono_r; subst ez; lia. }
        assert (HB : 0 < B < 2 ^ (53 + Z.max ea eb - ez)).
        { subst B. split; [nia|].
          apply Z.lt_le_trans with (2 ^ 53 * 2 ^ (eb - ez)); [nia|].
          rewrite <- Z.pow_add_r by (subst ez; lia).
          apply Z.pow_le_mono_r; subst ez; lia. }
        replace (54 + Z.max ea eb - ez) with (Z.succ (53 + Z.max ea eb - ez)) by lia.
        rewrite Z.pow_succ_r by (subst ez; lia).
        subst m. destruct sa, sb; simpl cond_Zopp; lia. }
      assert (Hdm : 1 <= Zdigits2 m <= 54 + Z.max ea eb - ez).
      { rewrite <- Zdigits2_abs. split.
        - pose proof (Zdigits2_pos (Z.abs m)). lia.
        - apply Zdigits2_le; lia. }
      destruct (binary_normalize_RN m ez Hm0) as (s & mm & ee & E & H1 & H2 & H3).
      { subst ez. lia. }
      rewrite E. split; [simpl; split; [exact H1|subst ez; lia]|].
      apply (RN_eq_l _ _ _ (Qeq_sym _ _ Hval)). exact H3.
Qed.

(** *** [round] and the comparison with an integer *)

Lemma pow2_neg_inv (e : Z) : e <= 0 -> (pow2 e * inject_Z (2 ^ (- e)) == 1)%Q.
Proof.
  intros He. rewrite inject_Z_pow2 by lia. rewrite <- pow2_add.
  replace (e + - e) with 0 by lia. reflexivity.
Qed.

Lemma round_half_cases (m d n : Z) :
  0 < d -> 2 * Z.abs (m - n * d) < d ->
  match 2 * (m mod d) ?= d with
  | Lt => m / d
  | Gt => m / d + 1
  | Eq => if Z.even (m / d) then m / d else m / d + 1
  end = n.
Proof.
  intros Hd Hn. pose proof (Z.div_mod m d ltac:(lia)) as Hdm.
  pose proof (Z.mod_pos_bound m d Hd) as Hr.
  set (q := m / d) in *. set (r := m mod d) in *.
  assert (Hz : n - q = 0 \/ n - q = 1).
  { assert (n - q < 2) by nia. assert (-1 < n - q) by nia. lia. }
  destruct (2 * r ?= d) eqn:Ec.
  - apply Z.compare_eq in Ec. exfalso. destruct Hz as [Hz|Hz]; nia.
  - assert (Ec' : 2 * r < d) by exact Ec. destruct Hz as [Hz|Hz]; [lia|exfalso; nia].
  - assert (Ec' : d < 2 * r) by (apply Z.compare_gt_iff; exact Ec).
    destruct Hz as [Hz|Hz]; [exfalso; nia|lia].
Qed.

Lemma b64_round_close (r : spec_float) (n : Z) :
  (Qabs (b64_value r - inject_Z n) < 1 # 2)%Q -> b64_round r = n.
Proof.
  intros H.
  assert (Hz : forall v : Q, (v == 0)%Q -> (Qabs (v - inject_Z n) < 1 # 2)%Q -> 0 = n).
  { intros v Hv Hc. apply Z_of_Q_close. change (inject_Z 0) with 0%Q.
    apply Qabs_Qlt_condition in Hc. apply Qabs_Qlt_condition. lra. }
  destruct r as [s|s| |s m e]; try (apply (Hz _ (Qeq_refl 0) H)).
  unfold b64_round. set (n' := cond_Zopp s n).
  assert (Hn : n = cond_Zopp s n') by (subst n'; destruct s; simpl; lia).
  assert (H' : (Qabs (inject_Z (Zpos m) * pow2 e - inject_Z n') < 1 # 2)%Q).
  { apply Qabs_Qlt_condition in H. apply Qabs_Qlt_condition.
    unfold b64_value in H. subst n'.
    destruct s; simpl cond_Zopp in *; [|exact H].
    change (Z.neg m) with (- Z.pos m) in H. rewrite inject_Z_opp in *. lra. }
  rewrite Hn. f_equal. clear Hn H Hz.
  destruct (Z.leb_spec 0 e) as [He|He].
  - apply Z_of_Q_close. rewrite inject_Z_mult, inject_Z_pow2 by lia.
    apply Qabs_Qlt_condition in H'. apply Qabs_Qlt_condition. lra.
  - set (d := 2 ^ (- e)).
    assert (Hd : 0 < d) by (apply Z.pow_pos_nonneg; lia).
    apply round_half_cases; [exact Hd|].
    pose proof (pow2_neg_inv e ltac:(lia)) as Hinv. fold d in Hinv.
    assert (HD : (0 < inject_Z d)%Q) by (rewrite <- (Zlt_Qlt 0); lia).
    apply Qabs_Qlt_condition in H'. pose proof (pow2_pos e) as Ht.
    set (M := inject_Z (Zpos m)) in *. set (N := inject_Z n') in *.
    set (Dq := inject_Z d) in *. set (t := pow2 e) in *.
    assert (HV : (M * t * Dq == M)%Q).
    { setoid_replace (M * t * Dq)%Q with (M * (t * Dq))%Q using relation Qeq by ring.
      rewrite Hinv. ring. }
    set (V := (M * t)%Q) in *.
    assert (H1 : (inject_Z 2 * M < Dq + inject_Z 2 * N * Dq)%Q)
      by (change (inject_Z 2) with 2%Q; nra).
    assert (H2 : (inject_Z 2 * N * Dq < Dq + inject_Z 2 * M)%Q)
      by (change (inject_Z 2) with 2%Q; nra).
    subst V M N Dq.
    rewrite <- !inject_Z_mult, <- inject_Z_plus, <- Zlt_Qlt in H1, H2. lia.
Qed.

Lemma b64_int_gt_spec (z : Z) (s : bool) (m : positive) (e : Z) :
  b64_int_gt z (S754_finite s m e) = true
  <-> (b64_value (S754_finite s m e) < inject_Z z)%Q.
Proof.
  unfold b64_int_gt, b64_value. set (v := cond_Zopp s (Zpos m)).
  destruct (Z.leb_spec 0 e) as [He|He].
  - rewrite Z.ltb_lt, <- inject_Z_pow2, <- inject_Z_mult, <- Zlt_Qlt by lia. reflexivity.
  - rewrite Z.ltb_lt. pose proof (pow2_neg_inv e ltac:(lia)) as Hinv.
    set (d := 2 ^ (- e)) in *.
    assert (Hd : 0 < d) by (apply Z.pow_pos_nonneg; lia).
    assert (HD : (0 < inject_Z d)%Q) by (rewrite <- (Zlt_Qlt 0); lia).
    pose proof (pow2_pos e) as Ht.
    rewrite Zlt_Qlt, inject_Z_mult.
    set (V := inject_Z v). set (Z' := inject_Z z). set (Dq := inject_Z d) in *.
    set (t := pow2 e) in *.
    assert (HV : (V * t * Dq == V)%Q).
    { setoid_replace (V * t * Dq)%Q with (V * (t * Dq))%Q using relation Qeq by ring.
      rewrite Hinv. ring. }
    set (U := (V * t)%Q) in *.
    split; intros H; nra.
Qed.

Lemma b64_int_gt_zero (z : Z) (s : bool) :
  b64_int_gt z (S754_zero s) = true <-> (b64_value (S754_zero s) < inject_Z z)%Q.
Proof.
  unfold b64_int_gt, b64_value. rewrite Z.ltb_lt, (Zlt_Qlt 0). reflexivity.
Qed.

Lemma b64_int_gt_ok (k z : Z) (r : spec_float) :
  b64_ok k r -> b64_int_gt z r = true <-> (b64_value r < inject_Z z)%Q.
Proof.
  destruct r; try contradiction; intros _;
    [apply b64_int_gt_zero|apply b64_int_gt_spec].
Qed.

(** *** Rounding does not cross 1 *)

Lemma RN_ge_1 (x y : Q) : (1 <= x)%Q -> RN x y -> (1 <= y)%Q.
Proof.
  intros Hx [[Hx0 _]|(mag & k & [Hlo Hhi] & Hy & Herr)]; [lra|].
  rewrite (Qabs_pos x) in Hlo, Hhi by lra.
  assert (Hmag : 0 < mag).
  { apply pow2_lt_inv. change (pow2 0) with 1%Q. lra. }
  set (q := pow2 (mag - 53)) in *.
  assert (Hq : (0 < q)%Q) by apply pow2_pos.
  assert (E1 : (pow2 (mag - 1) == 4503599627370496 * q)%Q).
  { subst q. replace (mag - 1) with (52 + (mag - 53)) by lia. now rewrite pow2_add. }
  assert (E2 : (pow2 (mag - 54) == (1 # 2) * q)%Q).
  { subst q. rewrite pow2_half. replace (mag - 53 - 1) with (mag - 54) by lia. reflexivity. }
  assert (Hone : (1 <= pow2 (mag - 1))%Q).
  { change 1%Q with (pow2 0). apply pow2_le. lia. }
  rewrite E2 in Herr. apply Qabs_Qle_condition in Herr.
  assert (Hk : 2 ^ 52 <= k).
  { assert (Hk' : (inject_Z (2 ^ 52 - 1) < inject_Z k)%Q).
    { change (inject_Z (2 ^ 52 - 1)) with (4503599627370495%Q). nra. }
    rewrite <- Zlt_Qlt in Hk'. lia. }
  assert (Hkq : (4503599627370496 <= inject_Z k)%Q).
  { change (4503599627370496%Q) with (inject_Z (2 ^ 52)). now rewrite <- Zle_Qle. }
  rewrite Hy. nra.
Qed.

Lemma RN_le_1 (x y : Q) : (0 <= x)%Q -> (x < 1)%Q -> RN x y -> (y <= 1)%Q.
Proof.
  intros Hx0 Hx [[_ Hy]|(mag & k & [Hlo Hhi] & Hy & Herr)]; [lra|].
  rewrite (Qabs_pos x) in Hlo, Hhi by lra.
  assert (Hmag : mag <= 0).
  { assert (mag - 1 < 0); [|lia]. apply pow2_lt_inv. change (pow2 0) with 1%Q. lra. }
  set (q := pow2 (mag - 53)) in *.
  assert (Hq : (0 < q)%Q) by apply pow2_pos.
  assert (E1 : (pow2 mag == 9007199254740992 * q)%Q).
  { subst q. replace mag with (53 + (mag - 53)) at 1 by lia. now rewrite pow2_add. }
  assert (E2 : (pow2 (mag - 54) == (1 # 2) * q)%Q).
  { subst q. rewrite pow2_half. replace (mag - 53 - 1) with (mag - 54) by lia. reflexivity. }
  assert (Hone : (pow2 mag <= 1)%Q).
  { change 1%Q with (pow2 0). apply pow2_le. lia. }
  rewrite E2 in Herr. apply Qabs_Qle_condition in Herr.
  assert (Hk : k <= 2 ^ 53).
  { assert (Hk' : (inject_Z k < inject_Z (2 ^ 53 + 1))%Q).
    { change (inject_Z (2 ^ 53 + 1)) with (9007199254740993%Q). nra. }
    rewrite <- Zlt_Qlt in Hk'. lia. }
  assert (Hkq : (inject_Z k <= 9007199254740992)%Q).
  { change (9007199254740992%Q) with (inject_Z (2 ^ 53)). now rewrite <- Zle_Qle. }
  rewrite Hy. nra.
Qed.

(** The only float of value 1. *)
Lemma b64_value_one (k : Z) (r : spec_float) :
  b64_ok k r -> (b64_value r == 1)%Q -> r = S754_finite false 4503599627370496 (-52).
Proof.
  destruct r as [s|s| |s m e]; try contradiction.
  - intros _ H. simpl in H. discriminate.
  - intros [Hd _] Hv. pose proof (mantissa_bounds m Hd) as Hm.
    pose proof (pow2_pos e) as Ht.
    assert (HM : (4503599627370496 <= inject_Z (Zpos m)
                  /\ inject_Z (Zpos m) < 9007199254740992)%Q).
    { change (4503599627370496%Q) with (inject_Z (2 ^ 52)).
      change (9007199254740992%Q) with (inject_Z (2 ^ 53)).
      rewrite <- Zle_Qle, <- Zlt_Qlt. exact Hm. }
    rewrite b64_value_finite in Hv.
    destruct s; unfold signed in Hv; [exfalso; nra|].
    assert (He : e = -52).
    { destruct (Z.lt_trichotomy e (-52)) as [Hlt|[Heq|Hgt]]; [exfalso|assumption|exfalso].
      - assert (Hp : (pow2 e <= pow2 (-53))%Q) by (apply pow2_le; lia).
        change (pow2 (-53)) with (1 # 9007199254740992)%Q in Hp. nra.
      - assert (Hp : (pow2 (-51) <= pow2 e)%Q) by (apply pow2_le; lia).
        change (pow2 (-51)) with (1 # 2251799813685248)%Q in Hp. nra. }
    subst e. change (pow2 (-52)) with (1 # 4503599627370496)%Q in Hv.
    assert (Hmz : Zpos m = 4503599627370496).
    { apply inject_Z_injective. apply Qeq_bool_eq.
      unfold Qeq in Hv. simpl in Hv. apply Qeq_bool_iff. unfold Qeq. simpl. lia. }
    injection Hmz as ->. reflexivity.
Qed.

(** *** The round trip of one axis *)

Lemma Qabs_tri (a b c : Q) : (Qabs (a - c) <= Qabs (a - b) + Qabs (b - c))%Q.
Proof.
  setoid_replace (a - c)%Q with ((a - b) + (b - c))%Q using relation Qeq by ring.
  apply Qabs_triangle.
Qed.

Lemma Qabs_tri0 (x y : Q) : (Qabs y <= Qabs (y - x) + Qabs x)%Q.
Proof.
  setoid_replace y with ((y - x) + x)%Q using relation Qeq at 1 by ring.
  apply Qabs_triangle.
Qed.

Lemma rel_scale (v rho N D : Q) :
  (rho * N == D)%Q -> (0 < N)%Q ->
  (Qabs (v - rho) <= (1 # 9007199254740992) * Qabs rho)%Q ->
  (Qabs (v * N - D) <= (1 # 9007199254740992) * Qabs D)%Q.
Proof.
  intros E HN H.
  setoid_replace (v * N - D)%Q with ((v - rho) * N)%Q using relation Qeq
    by (rewrite <- E; ring).
  rewrite <- E, !Qabs_Qmult, (Qabs_pos N) by lra.
  pose proof (Qabs_nonneg (v - rho)). pose proof (Qabs_nonneg rho). nra.
Qed.

Lemma b64_of_int_nonzero (z : Z) :
  z <> 0 -> Z.abs z < 2 ^ 53 -> forall s, b64_of_int z <> S754_zero s.
Proof.
  intros Hz Hb s E. pose proof (b64_of_int_exact z Hb) as Hv.
  rewrite E in Hv. simpl in Hv. change 0%Q with (inject_Z 0) in Hv.
  rewrite inject_Z_injective in Hv. lia.
Qed.

Lemma inject_Z_bound (z B : Z) :
  Z.abs z <= B -> (Qabs (inject_Z z) <= inject_Z B)%Q.
Proof. intros H. rewrite Qabs_inject_Z, <- Zle_Qle. exact H. Qed.

Lemma axis_round_trip (l r n : Z) :
  - 2 ^ 31 <= l < 2 ^ 31 -> - 2 ^ 31 <= r < 2 ^ 31 -> 0 < n < 2 ^ 31 ->
  let fn := b64_of_int n in
  let nw := b64_truediv (r - l) n in
  let cx := b64_div (b64_truediv (l + r) 2) fn in
  let w := b64_round (b64_mul nw fn) in
  let x := b64_round (b64_sub (b64_mul cx fn) (b64_truediv w 2)) in
  w = r - l /\ x = l.
Proof.
  intros Hl Hr Hn fn nw cx w x.
  change (2 ^ 31) with 2147483648 in *.
  (* the divisor *)
  destruct (b64_of_int_spec 31 n ltac:(lia) ltac:(change (2 ^ 31) with 2147483648; lia))
    as [Hfn_ok _]. fold fn in Hfn_ok.
  assert (Hfn : (b64_value fn == inject_Z n)%Q)
    by (apply b64_of_int_exact; change (2 ^ 53) with 9007199254740992; lia).
  assert (Hfn_nz : forall s, fn <> S754_zero s)
    by (apply b64_of_int_nonzero; change (2 ^ 53) with 9007199254740992; lia).
  set (N := inject_Z n) in *.
  assert (HN : (1 <= N)%Q) by (subst N; change 1%Q with (inject_Z 1); rewrite <- Zle_Qle; lia).
  (* the width *)
  destruct (b64_truediv_spec 32 (r - l) n ltac:(lia)
              ltac:(change (2 ^ 32) with 4294967296; lia)
              ltac:(change (2 ^ 32) with 4294967296; lia)) as [Hnw_ok Hnw].
  fold nw in Hnw_ok, Hnw.
  set (D := inject_Z (r - l)) in *.
  assert (HD : (Qabs D <= 4294967296)%Q).
  { subst D. change (4294967296%Q) with (inject_Z 4294967296).
    apply inject_Z_bound. lia. }
  destruct (b64_mul_spec _ _ nw fn Hnw_ok Hfn_ok ltac:(lia)) as [Ht_ok Ht].
  assert (Hw : w = r - l).
  { subst w. apply b64_round_close. fold D.
    pose proof (RN_error _ _ Hnw) as E1.
    assert (E1' : (Qabs (b64_value nw * N - D) <= (1 # 9007199254740992) * Qabs D)%Q).
    { apply (rel_scale _ (D / N)); [field; lra|lra|exact E1]. }
    apply (RN_eq_l _ (b64_value nw * N)) in Ht; [|now rewrite Hfn].
    pose proof (RN_error _ _ Ht) as E2.
    pose proof (Qabs_tri (b64_value (b64_mul nw fn)) (b64_value nw * N) D) as T1.
    pose proof (Qabs_tri0 D (b64_value nw * N)) as T2.
    lra. }
  split; [exact Hw|].
  (* the corner *)
  subst x. rewrite Hw. apply b64_round_close.
  set (C := inject_Z (l + r)) in *.
  assert (HC : (Qabs C <= 4294967296)%Q).
  { subst C. change (4294967296%Q) with (inject_Z 4294967296).
    apply inject_Z_bound. lia. }
  destruct (b64_truediv_spec 33 (l + r) 2 ltac:(lia)
              ltac:(change (2 ^ 33) with 8589934592; lia)
              ltac:(change (2 ^ 33) with 8589934592; lia)) as [Hc0_ok Hc0].
  assert (Hc0v : (b64_value (b64_truediv (l + r) 2) == C / 2)%Q).
  { apply (RN_exact (l + r) (-1)); [|change (2 ^ 53) with 9007199254740992; lia|exact Hc0].
    fold C. change (pow2 (-1)) with (1 # 2)%Q. change (inject_Z 2) with 2%Q. field. }
  destruct (b64_truediv_spec 32 (r - l) 2 ltac:(lia)
              ltac:(change (2 ^ 32) with 4294967296; lia)
              ltac:(change (2 ^ 32) with 4294967296; lia)) as [Hh_ok Hh].
  assert (Hhv : (b64_value (b64_truediv (r - l) 2) == D / 2)%Q).
  { apply (RN_exact (r - l) (-1)); [|change (2 ^ 53) with 9007199254740992; lia|exact Hh].
    fold D. change (pow2 (-1)) with (1 # 2)%Q. change (inject_Z 2) with 2%Q. field. }
  destruct (b64_div_spec _ _ _ fn Hc0_ok Hfn_ok ltac:(lia) Hfn_nz) as [Hcx_ok Hcx].
  fold cx in Hcx_ok, Hcx.
  destruct (b64_mul_spec _ _ cx fn Hcx_ok Hfn_ok ltac:(lia)) as [Hp_ok Hp].
  set (p := b64_mul cx fn) in *. set (hw := b64_truediv (r - l) 2) in *.
  destruct (b64_sub_spec 200 p hw) as [Hq_ok Hq].
  { eapply b64_ok_weaken; [|exact Hp_ok]. lia. }
  { eapply b64_ok_weaken; [|exact Hh_ok]. lia. }
  { lia. }
  apply (RN_eq_l _ (C / 2 / N)) in Hcx; [|now rewrite Hc0v, Hfn].
  pose proof (RN_error _ _ Hcx) as E1.
  assert (E1' : (Qabs (b64_value cx * N - C / 2) <= (1 # 9007199254740992) * Qabs (C / 2))%Q).
  { apply (rel_scale _ (C / 2 / N)); [field; lra|lra|exact E1]. }
  apply (RN_eq_l _ (b64_value cx * N)) in Hp; [|now rewrite Hfn].
  pose proof (RN_error _ _ Hp) as E2.
  apply (RN_eq_l _ (b64_value p - D / 2)) in Hq; [|now rewrite Hhv].
  pose proof (RN_error _ _ Hq) as E3.
  assert (HL : (inject_Z l == C / 2 - D / 2)%Q).
  { subst C D. unfold Z.sub. rewrite !inject_Z_plus, inject_Z_opp. field. }
  assert (HC2 : (Qabs (C / 2) <= 2147483648)%Q).
  { apply Qabs_Qle_condition in HC. apply Qabs_Qle_condition.
    split; [apply Qle_shift_div_l|apply Qle_shift_div_r]; lra. }
  assert (HLb : (Qabs (inject_Z l) <= 2147483648)%Q).
  { change (2147483648%Q) with (inject_Z 2147483648). apply inject_Z_bound. lia. }
  pose proof (Qabs_tri (b64_value p) (b64_value cx * N) (C / 2)) as T1.
  pose proof (Qabs_tri0 (C / 2) (b64_value cx * N)) as T2.
  pose proof (Qabs_tri (b64_value (b64_sub p hw)) (b64_value p - D / 2) (inject_Z l)) as T3.
  assert (T4 : (Qabs (b64_value p - D / 2 - inject_Z l) == Qabs (b64_value p - C / 2))%Q).
  { apply Qabs_wd. rewrite HL. ring. }
  pose proof (Qabs_tri0 (inject_Z l) (b64_value p - D / 2)) as T5.
  lra.
Qed.

(** *** The display scale *)

Lemma RN_nonneg (x y : Q) : (0 <= x)%Q -> RN x y -> (0 <= y)%Q.
Proof.
  intros Hx H. pose proof (RN_error _ _ H) as E.
  rewrite (Qabs_pos x) in E by exact Hx. apply Qabs_Qle_condition in E. lra.
Qed.

Lemma b64_0_8_ok : b64_ok 0 b64_0_8.
Proof. split; [reflexivity|lia]. Qed.

Lemma b64_0_8_value : (b64_value b64_0_8 == 3602879701896397 # 4503599627370496)%Q.
Proof. reflexivity. Qed.

Lemma b64_round_int (ka : Z) (z : Z) (one : spec_float) :
  Z.abs z < 2 ^ 31 -> b64_ok ka one -> ka <= 900 -> (b64_value one == 1)%Q ->
  b64_round (b64_mul (b64_of_int z) one) = z.
Proof.
  intros Hz Hok Hka H1. apply b64_round_close.
  destruct (b64_of_int_spec 31 z ltac:(lia) Hz) as [Hfz _].
  assert (Hv : (b64_value (b64_of_int z) == inject_Z z)%Q).
  { apply b64_of_int_exact. change (2 ^ 53) with 9007199254740992.
    change (2 ^ 31) with 2147483648 in Hz. lia. }
  destruct (b64_mul_spec _ _ _ _ Hfz Hok ltac:(lia)) as [_ Hm].
  apply (RN_eq_l _ (inject_Z z)) in Hm; [|rewrite Hv, H1; ring].
  apply RN_exact_int in Hm.
  - setoid_replace (b64_value (b64_mul (b64_of_int z) one) - inject_Z z)%Q with 0%Q
      using relation Qeq by (rewrite Hm; ring).
    reflexivity.
  - change (2 ^ 53) with 9007199254740992. change (2 ^ 31) with 2147483648 in Hz. lia.
Qed.

Lemma b64_one : b64_of_int 1 = S754_finite false 4503599627370496 (-52).
Proof. reflexivity. Qed.

Lemma display_scale (Sc H0 : Z) :
  0 <= Sc < 2 ^ 31 -> 0 < H0 < 2 ^ 31 ->
  let limit := b64_mul (b64_of_int Sc) b64_0_8 in
  let ratio := b64_div limit (b64_of_int H0) in
  let scale := if b64_int_gt 1 ratio then ratio else b64_of_int 1 in
  (b64_int_gt H0 limit = true -> scale = ratio)
  /\ (b64_int_gt H0 limit = false -> scale = b64_of_int 1)
  /\ (0 <= b64_value scale <= 1)%Q
  /\ b64_ok 100 scale.
Proof.
  intros HSc HH limit ratio scale.
  change (2 ^ 31) with 2147483648 in *.
  destruct (b64_of_int_spec 31 Sc ltac:(lia) ltac:(change (2 ^ 31) with 2147483648; lia))
    as [HfS _].
  assert (HvS : (b64_value (b64_of_int Sc) == inject_Z Sc)%Q)
    by (apply b64_of_int_exact; change (2 ^ 53) with 9007199254740992; lia).
  destruct (b64_of_int_spec 31 H0 ltac:(lia) ltac:(change (2 ^ 31) with 2147483648; lia))
    as [HfH _].
  assert (HvH : (b64_value (b64_of_int H0) == inject_Z H0)%Q)
    by (apply b64_of_int_exact; change (2 ^ 53) with 9007199254740992; lia).
  assert (HnzH : forall s, b64_of_int H0 <> S754_zero s)
    by (apply b64_of_int_nonzero; change (2 ^ 53) with 9007199254740992; lia).
  destruct (b64_mul_spec _ _ _ _ HfS b64_0_8_ok ltac:(lia)) as [Hl_ok Hl].
  fold limit in Hl_ok, Hl.
  assert (HSq : (0 <= inject_Z Sc)%Q) by (rewrite <- (Zle_Qle 0); lia).
  assert (HHq : (1 <= inject_Z H0)%Q)
    by (change 1%Q with (inject_Z 1); rewrite <- Zle_Qle; lia).
  assert (Hl0 : (0 <= b64_value limit)%Q).
  { refine (RN_nonneg _ _ _ Hl). rewrite HvS, b64_0_8_value.
    apply Qmult_le_0_compat; [exact HSq|discriminate]. }
  destruct (b64_div_spec _ _ _ _ Hl_ok HfH ltac:(lia) HnzH) as [Hr_ok Hr].
  fold ratio in Hr_ok, Hr.
  apply (RN_eq_l _ (b64_value limit / inject_Z H0)) in Hr; [|now rewrite HvH].
  assert (Hone_ok : b64_ok 100 (b64_of_int 1)) by (rewrite b64_one; split; [reflexivity|lia]).
  assert (Hr0 : (0 <= b64_value ratio)%Q).
  { refine (RN_nonneg _ _ _ Hr). apply Qle_shift_div_l; lra. }
  assert (Hgt1 : b64_int_gt 1 ratio = true <-> (b64_value ratio < 1)%Q)
    by (apply (b64_int_gt_ok _ 1 ratio Hr_ok)).
  assert (HgtH : b64_int_gt H0 limit = true <-> (b64_value limit < inject_Z H0)%Q)
    by (apply (b64_int_gt_ok _ H0 limit Hl_ok)).
  split; [|split; [|split]].
  - intros Hg. apply HgtH in Hg. subst scale.
    destruct (b64_int_gt 1 ratio) eqn:E1; [reflexivity|].
    assert (Hle : (b64_value ratio <= 1)%Q).
    { apply (RN_le_1 (b64_value limit / inject_Z H0)); [| |exact Hr].
      - apply Qle_shift_div_l; lra.
      - apply Qlt_shift_div_r; lra. }
    assert (Hv1 : (b64_value ratio == 1)%Q).
    { destruct (Qlt_le_dec (b64_value ratio) 1) as [Hc|Hc].
      - apply Hgt1 in Hc. congruence.
      - now apply Qle_antisym. }
    rewrite b64_one. symmetry. now apply (b64_value_one _ _ Hr_ok).
  - intros Hg. subst scale.
    assert (Hge : (1 <= b64_value ratio)%Q).
    { apply (RN_ge_1 (b64_value limit / inject_Z H0)); [|exact Hr].
      apply Qle_shift_div_l; [lra|].
      destruct (Qlt_le_dec (b64_value limit) (inject_Z H0)) as [Hc|Hc]; [|lra].
      apply HgtH in Hc. congruence. }
    destruct (b64_int_gt 1 ratio) eqn:E1; [|reflexivity].
    assert (b64_value ratio < 1)%Q by (now apply Hgt1). lra.
  - subst scale. destruct (b64_int_gt 1 ratio) eqn:E1.
    + assert (b64_value ratio < 1)%Q by (now apply Hgt1). split; [exact Hr0|lra].
    + rewrite b64_one. split; discriminate.
  - subst scale. destruct (b64_int_gt 1 ratio); [|exact Hone_ok].
    eapply b64_ok_weaken; [|exact Hr_ok]. lia.
Qed.

(** Rounding does not cross an integer. *)
Lemma RN_ge_int (z : Z) (x y : Q) :
  0 < z -> (inject_Z z <= x)%Q -> (x < pow2 53)%Q -> RN x y -> (inject_Z z <= y)%Q.
Proof.
  intros Hz Hzx Hx53 H.
  assert (Hz1 : (1 <= inject_Z z)%Q)
    by (change 1%Q with (inject_Z 1); rewrite <- Zle_Qle; lia).
  destruct H as [[Hx0 _]|(mag & k & [Hlo Hhi] & Hy & Herr)]; [lra|].
  rewrite (Qabs_pos x) in Hlo, Hhi by lra.
  assert (Hmag : mag <= 53).
  { assert (mag - 1 < 53); [|lia]. apply pow2_lt_inv. lra. }
  set (q := pow2 (mag - 53)) in *.
  assert (Hq : (0 < q)%Q) by apply pow2_pos.
  assert (E2 : (pow2 (mag - 54) == (1 # 2) * q)%Q).
  { subst q. rewrite pow2_half. replace (mag - 53 - 1) with (mag - 54) by lia. reflexivity. }
  assert (Ez : (inject_Z z == inject_Z (z * 2 ^ (53 - mag)) * q)%Q).
  { rewrite inject_Z_mult, inject_Z_pow2 by lia. subst q.
    rewrite <- Qmult_assoc, <- pow2_add.
    replace (53 - mag + (mag - 53)) with 0 by lia. change (pow2 0) with 1%Q. ring. }
  set (j := z * 2 ^ (53 - mag)) in *.
  rewrite E2 in Herr. apply Qabs_Qle_condition in Herr.
  assert (Hk : j <= k).
  { assert (Hk' : (inject_Z (j - 1) < inject_Z k)%Q).
    { unfold Zminus. rewrite inject_Z_plus. change (inject_Z (- (1))) with (- (1))%Q.
      rewrite Hy in Herr. rewrite Ez in Hzx. nra. }
    rewrite <- Zlt_Qlt in Hk'. lia. }
  assert (Hkq : (inject_Z j <= inject_Z k)%Q) by (now rewrite <- Zle_Qle).
  rewrite Hy, Ez. apply Qmult_le_compat_r; [exact Hkq|lra].
Qed.

(** The float comparison of [setPixmap] decides as the exact one. *)
Lemma height_test (Sc H0 : Z) :
  0 <= Sc < 2 ^ 31 -> 0 < H0 < 2 ^ 31 ->
  b64_int_gt H0 (b64_mul (b64_of_int Sc) b64_0_8) = true <-> 4 * Sc < 5 * H0.
Proof.
  intros HSc HH. change (2 ^ 31) with 2147483648 in *.
  destruct (b64_of_int_spec 31 Sc ltac:(lia) ltac:(change (2 ^ 31) with 2147483648; lia))
    as [HfS _].
  assert (HvS : (b64_value (b64_of_int Sc) == inject_Z Sc)%Q)
    by (apply b64_of_int_exact; change (2 ^ 53) with 9007199254740992; lia).
  destruct (b64_mul_spec _ _ _ _ HfS b64_0_8_ok ltac:(lia)) as [Hl_ok Hl].
  set (limit := b64_mul (b64_of_int Sc) b64_0_8) in *.
  apply (RN_eq_l _ (inject_Z Sc * (3602879701896397 # 4503599627370496))) in Hl;
    [|now rewrite HvS, b64_0_8_value].
  assert (HSq : (0 <= inject_Z Sc)%Q) by (rewrite <- (Zle_Qle 0); lia).
  assert (HSq' : (inject_Z Sc <= 2147483647)%Q).
  { change (2147483647%Q) with (inject_Z 2147483647). rewrite <- Zle_Qle. lia. }
  rewrite (b64_int_gt_ok _ H0 limit Hl_ok). split.
  - intros Hlt. destruct (Z_lt_le_dec (4 * Sc) (5 * H0)) as [Hc|Hc]; [exact Hc|].
    exfalso.
    assert (Hq : (5 * inject_Z H0 <= 4 * inject_Z Sc)%Q).
    { change 5%Q with (inject_Z 5). change 4%Q with (inject_Z 4).
      rewrite <- !inject_Z_mult, <- Zle_Qle. exact Hc. }
    assert (Hge : (inject_Z H0 <= b64_value limit)%Q).
    { apply (RN_ge_int H0 (inject_Z Sc * (3602879701896397 # 4503599627370496)));
        [lia| | |exact Hl].
      - lra.
      - change (pow2 53) with (9007199254740992%Q). lra. }
    lra.
  - intros Hc.
    assert (Hq : (4 * inject_Z Sc + 1 <= 5 * inject_Z H0)%Q).
    { change 5%Q with (inject_Z 5). change 4%Q with (inject_Z 4). change 1%Q with (inject_Z 1).
      rewrite <- !inject_Z_mult, <- inject_Z_plus, <- Zle_Qle. lia. }
    pose proof (RN_error _ _ Hl) as E.
    rewrite (Qabs_pos (inject_Z Sc * _)) in E by lra.
    apply Qabs_Qle_condition in E. lra.
Qed.

(** * The claims *)

Lemma forallb_Forall_true {A : Type} (f : A -> bool) (l : list A) :
  forallb f l = true <-> Forall (fun x => f x = true) l.
Proof. rewrite forallb_forall, List.Forall_forall. reflexivity. Qed.

Lemma store_op_store_inv (o : StoreOp) :
  preserves (fun s => store_inv (store s) = true) (store_op o).
Proof.
  destruct o; cbv [store_op].
  - apply finalize_store_inv.
  - apply markBox_store_inv.
  - apply mousePressEvent_store_inv.
  - apply cancelLast_store_inv.
  - intros s _. reflexivity.
Qed.

Lemma store_op_corner_normalized (o : StoreOp) :
  preserves (fun s => Forall (fun b => corner_normalized b = true) (store s)) (store_op o).
Proof.
  destruct o; cbv [store_op].
  - apply (closed_finalize _ corner_normalized_closed).
  - apply (closed_markBox _ corner_normalized_closed).
  - apply (closed_press _ corner_normalized_closed).
  - apply (closed_cancelLast _ corner_normalized_closed).
  - intros s _. constructor.
Qed.

Lemma point_neq (pos p1 : Z * Z) : fst pos <> fst p1 -> pos <> p1.
Proof. intros H ->. now apply H. Qed.

(** A release on the column of the press point, at another row, stores
    a box of zero width when no box is pending in Manual mode. *)
Lemma finalize_zero_width (s : App) (y : Z) :
  autoLabel (parent s) = ManualLabel ->
  last_has_len 4 (store s) = false ->
  y <> snd (lastPoint (label_img s)) ->
  let pos := (fst (lastPoint (label_img s)), y) in
  let rect := rect_of (lastPoint (label_img s)) pos in
  store (state_after (finalize pos) s) = store s ++ [rect]
  /\ degenerate rect = true.
Proof.
  intros Hm H4 Hy pos rect. split.
  - apply finalize_manual; [exact Hm|exact H4|].
    subst pos. destruct (lastPoint (label_img s)) as [x1 y1]. simpl in *.
    intros E. injection E as E. now apply Hy.
  - subst rect pos. unfold rect_of, degenerate. simpl.
    apply orb_true_iff. left. apply Z.eqb_eq. lia.
Qed.

(** C1 (the code departs from the claim). A release straight below the
    press point draws a rectangle of zero width; the test of line 186
    only rejects a release at the press point itself, so the rectangle
    is appended to the store although it is degenerate. *)
Theorem C1_zero_width_rect_is_stored :
  let s := state_after (mousePressEvent LeftButton (0, 0))
                       (initial_App 1000 ["cat"] empty_disk) in
  let s' := state_after (finalize (0, 5)) s in
  store s = [] /\ store s' = [[0; 0; 0; 5]] /\ existsb degenerate (store s') = true.
Proof. vm_compute. repeat split. Qed.

(** C2. Every operation of the box store (finalize in either mode,
    markBox, the right-click removal, cancelLast, resetResult) keeps the
    invariant that every box has four or five fields and every box
    before the last has five; so does every event handler, and the
    invariant holds in every state a session reaches. *)
Theorem C2_store_invariant {host : Host} :
  (forall (o : StoreOp) (s : App),
     store_inv (store s) = true ->
     store_inv (store (state_after (store_op o) s)) = true)
  /\ (forall (e : Event) (s : App),
        store_inv (store s) = true ->
        store_inv (store (state_after (handle e) s)) = true)
  /\ (forall (es : list Event) (screen : Z) (keys : list string) (d : Disk),
        store_inv (store (run_events es (initial_App screen keys d))) = true).
Proof.
  split; [|split].
  - intros o s. apply store_op_store_inv.
  - intros e s. apply (preserves_handle _ store_inv_closed).
  - intros es screen keys d.
    apply (preserves_run_events _ store_inv_closed). reflexivity.
Qed.

(** C3. In Auto mode the release of a rectangle of non-zero width and
    height appends it with the last used label and gives that label to
    every box of four fields already in the store; the other boxes are
    kept as they are, and a store of well-shaped boxes ends up all
    labelled. *)
Theorem C3_auto_backfill (s : App) (pos : Z * Z) :
  autoLabel (parent s) = AutoLabel ->
  fst pos <> fst (lastPoint (label_img s)) ->
  snd pos <> snd (lastPoint (label_img s)) ->
  let k := last_idx (label_img s) in
  let s' := state_after (finalize pos) s in
  store s' = backfill k (store s) ++ [rect_of (lastPoint (label_img s)) pos ++ [k]]
  /\ (forall (i : nat) (b : Box),
        store s !! i = Some b ->
        store s' !! i = Some (if unlabeled b then b ++ [k] else b))
  /\ (forallb well_shaped (store s) = true -> forallb labeled (store s') = true)
  /\ last_idx (label_img s') = k.
Proof.
  intros Hm Hx _ k s'.
  destruct (finalize_auto s pos Hm (point_neq _ _ Hx)) as (E & Hk & _).
  fold k in E, Hk. fold s' in E, Hk.
  rewrite backfill_app in E. change (backfill k [?b]) with [b] in E.
  split; [exact E|]. split; [|split; [|exact Hk]].
  - intros i b Hi. rewrite E, lookup_app_l
      by (rewrite backfill_length; now apply lookup_lt_Some in Hi).
    rewrite backfill_lookup, Hi. reflexivity.
  - intros Hw. rewrite E. apply forallb_Forall_true, Forall_app. split.
    + now apply backfill_labeled, forallb_Forall_true.
    + apply Forall_singleton. reflexivity.
Qed.

(** C4. In Manual mode with a pending unlabelled box, a release that
    passes the test of line 186 (it is not at the press point) is
    refused: the warning is surfaced and the new rectangle is discarded,
    the store keeping its length and its content; the last used label,
    the queue, the status bar and the disk are those of before as well. *)
Theorem C4_manual_pending (s : App) (pos : Z * Z) :
  autoLabel (parent s) = ManualLabel ->
  last_has_len 4 (store s) = true ->
  pos <> lastPoint (label_img s) ->
  let s' := state_after (finalize pos) s in
  popups s' = popups s ++ [pending_warning]
  /\ store s' = store s /\ length (store s') = length (store s)
  /\ last_idx (label_img s') = last_idx (label_img s)
  /\ main s' = main s /\ parent s' = parent s /\ disk s' = disk s.
Proof.
  intros Hm H4 Hne s'.
  destruct (finalize_pending s pos Hm H4 Hne) as (Hp & Hs & Hk & Hmn & Hpa & Hd).
  fold s' in Hp, Hs, Hk, Hmn, Hpa, Hd.
  repeat split; try assumption. now rewrite Hs.
Qed.

Lemma append_empty_r (x : string) : x +:+ "" = x.
Proof.
  induction x as [|c x IH]; [reflexivity|].
  change (String c (x +:+ "") = String c x). now rewrite IH.
Qed.



(** C7. The scan of a directory returns; [total_imgs] is the number of
    paths the two patterns [*.jpg] and [*.png] list, [imgList] is that
    list without the paths whose sidecar file exists, in the same order;
    five listed paths of which two have a sidecar give a total of 5 and
    a queue of 3; [registerInputPath] leaves the same queue whenever the
    chosen path has a last component. *)
Theorem C7_directory_scan {host : Host} (directory : string) (s : App) :
  let found := eligible (disk s) directory in
  let kept := remaining (disk s) directory in
  let s' := state_after (scan directory) s in
  outcome_of (scan directory) s = Return tt
  /\ total_imgs (main s') = Some (Z.of_nat (length found))
  /\ imgList (main s') = Some kept
  /\ (length kept + length (filter (fun p => already_labelled (disk s) p) found)
      = length found)%nat
  /\ (length found = 5%nat ->
      length (filter (fun p => already_labelled (disk s) p) found) = 2%nat ->
      total_imgs (main s') = Some 5 /\ length kept = 3%nat)
  /\ (os_path_basename directory <> "" ->
      let s2 := state_after (registerInputPath directory) s in
      total_imgs (main s2) = total_imgs (main s')
      /\ imgList (main s2) = imgList (main s')).
Proof.
  intros found kept s'.
  pose proof (remove_all_filter (fun p => already_labelled (disk s) p) found) as Hrm.
  pose proof (filter_split_length (fun p => already_labelled (disk s) p) found) as Hlen.
  assert (Hrun : scan directory s =
                 (Return tt,
                  on_main (set_imgList (Some kept))
                    (on_main (fun m => set_total_imgs (Some (Z.of_nat (length found)))
                                         (set_imgList (Some found) m)) s))).
  { unfold scan, bind, get, modify. cbv beta iota zeta.
    assert (Hf : glob (disk s) (directory +:+ "/" +:+ "*.jpg")
                 ++ glob (disk s) (directory +:+ "/" +:+ "*.png") = found)
      by reflexivity.
    rewrite Hf, Hrm. reflexivity. }
  assert (Hs' : s' = on_main (set_imgList (Some kept))
                    (on_main (fun m => set_total_imgs (Some (Z.of_nat (length found)))
                                         (set_imgList (Some found) m)) s)).
  { subst s'. unfold state_after. now rewrite Hrun. }
  split; [unfold outcome_of; now rewrite Hrun|].
  split; [now rewrite Hs'|]. split; [now rewrite Hs'|].
  split; [fold kept in Hlen; unfold kept, remaining; fold found; lia|].
  split.
  - intros H5 H2. rewrite Hs'. simpl. rewrite H5. split; [reflexivity|].
    unfold kept, remaining. fold found. lia.
  - intros Hb s2. subst s2. rewrite Hs'. unfold registerInputPath.
    destruct (String.eqb (os_path_basename directory) "") eqn:Eb.
    { now apply String.eqb_eq in Eb. }
    unfold state_after. rewrite (bind_Return _ _ _ _ _ Hrun).
    unfold bind, get, modify, ret.
    destruct (bool_decide _ || _); simpl; now split.
Qed.

(** C8 (as amended). Once an image is shown (the status name is no
    longer ['Ready']), the commit of an empty list of boxes returns and
    opens the sidecar file of the current image for appending: the file
    is created empty when it was absent and keeps its content otherwise;
    no other file changes and no crop is written, crop mode or not. *)
Theorem C8_empty_commit {host : Host} (s : App) :
  fileName (parent s) <> "Ready" ->
  let s' := state_after (writeResults []) s in
  outcome_of (writeResults []) s = Return tt
  /\ files (disk s') !! sidecar s = Some (default "" (files (disk s) !! sidecar s))
  /\ (files (disk s) !! sidecar s = None -> files (disk s') !! sidecar s = Some "")
  /\ (forall p : string, p <> sidecar s -> files (disk s') !! p = files (disk s) !! p)
  /\ crops (disk s') = crops (disk s) /\ dirs (disk s') = dirs (disk s)
  /\ label_img s' = label_img s /\ main s' = main s /\ parent s' = parent s.
Proof.
  intros Hready s'. subst s'.
  unfold writeResults, state_after, outcome_of, bind, get, modify, ret. simpl.
  destruct (String.eqb (fileName (parent s)) "Ready") eqn:E.
  { now apply String.eqb_eq in E. }
  simpl. fold (sidecar s). rewrite append_empty_r.
  split; [reflexivity|]. split; [apply lookup_insert_eq|].
  split; [intros Hn; rewrite lookup_insert_eq; now rewrite Hn|].
  split; [intros p Hp; now apply lookup_insert_ne|].
  repeat split.
Qed.

(** C8, the claim as stated fails: before any image is shown the commit
    of an empty list of boxes creates no file. *)
Lemma C8_counterexample :
  store demo_start = []
  /\ outcome_of (@writeResults demo_host []) demo_start = Return tt
  /\ files (disk (state_after (@writeResults demo_host []) demo_start))
       !! sidecar demo_start = None.
Proof. vm_compute. repeat split. Qed.

(** C10. The rectangle a release computes has its left edge not right
    of its right edge and its top not below its bottom, whatever the
    direction of the drag; a release leaves the store as it is, appends
    that rectangle, or appends it with the label after the backfill; and
    every operation of the store and every event keeps all stored boxes
    so ordered, from the start of a session on. *)
Theorem C10_corner_normalized {host : Host} :
  (forall p1 p2 : Z * Z, corner_normalized (rect_of p1 p2) = true)
  /\ (forall (s : App) (pos : Z * Z),
        let rect := rect_of (lastPoint (label_img s)) pos in
        let k := last_idx (label_img s) in
        let s' := state_after (finalize pos) s in
        store s' = store s
        \/ store s' = store s ++ [rect]
        \/ store s' = backfill k (store s) ++ [rect ++ [k]])
  /\ (forall (o : StoreOp) (s : App),
        forallb corner_normalized (store s) = true ->
        forallb corner_normalized (store (state_after (store_op o) s)) = true)
  /\ (forall (e : Event) (s : App),
        forallb corner_normalized (store s) = true ->
        forallb corner_normalized (store (state_after (handle e) s)) = true)
  /\ (forall (es : list Event) (screen : Z) (keys : list string) (d : Disk),
        forallb corner_normalized
          (store (run_events es (initial_App screen keys d))) = true).
Proof.
  split; [apply rect_of_corner_normalized|]. split; [|split; [|split]].
  - intros s pos rect k s'.
    destruct (finalize_cases s pos) as [E|[[_ E]|E]].
    + now left.
    + right; now left.
    + right; right. fold s' in E. rewrite E, backfill_app. reflexivity.
  - intros o s Hs. apply forallb_Forall_true.
    apply (store_op_corner_normalized o), forallb_Forall_true, Hs.
  - intros e s Hs. apply forallb_Forall_true.
    apply (preserves_handle _ corner_normalized_closed e), forallb_Forall_true, Hs.
  - intros es screen keys d. apply forallb_Forall_true.
    apply (preserves_run_events _ corner_normalized_closed). constructor.
Qed.

(** ** The claims on the float arithmetic *)

Section Binary64.
Context (listing : Disk -> string -> list string)
        (pixmap : Disk -> string -> Z * Z)
        (decode : Disk -> string -> option (Z * Z)).

Let host : Host := binary64_host listing pixmap decode.
#[local] Existing Instance host.

Ltac b64_ops :=
  change (@float_of_int host) with b64_of_int in *;
  change (@float_0_8 host) with b64_0_8 in *;
  change (@fmul host) with b64_mul in *;
  change (@fsub host) with b64_sub in *;
  change (@fdiv host) with b64_div in *;
  change (@int_truediv host) with b64_truediv in *;
  change (@int_gt_float host) with b64_int_gt in *;
  change (@py_round host) with b64_round in *;
  change (@QPixmap_size host) with pixmap in *.

(** C6. On binary64 floats, a box whose coordinates are 32-bit integers,
    normalized against a display of [Wd] by [Hd] pixels (lines 497-503)
    and converted back against an image of the same size (lines
    517-519), comes back exactly: the rectangle has the left and top
    edge of the box, its width and its height, so every coordinate is
    well within one pixel of the box. *)
Theorem C6_round_trip (lx ly rx ry idx Wd Hd : Z) :
  - 2 ^ 31 <= lx < 2 ^ 31 -> - 2 ^ 31 <= ly < 2 ^ 31 ->
  - 2 ^ 31 <= rx < 2 ^ 31 -> - 2 ^ 31 <= ry < 2 ^ 31 ->
  0 < Wd < 2 ^ 31 -> 0 < Hd < 2 ^ 31 ->
  crop_rect (yolo_format lx ly rx ry idx Wd Hd) Wd Hd = (lx, ly, rx - lx, ry - ly).
Proof.
  intros Hlx Hly Hrx Hry HW HH. unfold crop_rect, yolo_format. b64_ops.
  destruct (axis_round_trip lx rx Wd Hlx Hrx HW) as [Ew Ex].
  destruct (axis_round_trip ly ry Hd Hly Hry HH) as [Eh Ey].
  cbv zeta in Ew, Ex, Eh, Ey. rewrite Ex, Ey, Ew, Eh. reflexivity.
Qed.

(** C9. On binary64 floats, for an image of [W0] by [H0] pixels with
    [H0] positive and a screen of [Sc] lines, all 32-bit integers,
    [setPixmap] returns with the displayed size of the specification:
    [round(W0 * scale)] by [round(H0 * scale)] for the one scale
    [min(1, 0.8 * Sc / H0)], which depends on the heights alone. The
    scale is at most 1; it is 1, and the size is kept, exactly when
    [H0] is at most 80% of [Sc], and it is the quotient otherwise. *)
Theorem C9_display_geometry (fn : string) (s : App) (W0 H0 : Z) :
  let Sc := screen_height (label_img s) in
  QPixmap_size (disk s) fn = (W0, H0) ->
  0 <= Sc < 2 ^ 31 -> 0 <= W0 < 2 ^ 31 -> 0 < H0 < 2 ^ 31 ->
  let scale := spec_scale Sc H0 in
  let s' := state_after (setPixmap fn) s in
  outcome_of (setPixmap fn) s = Return tt
  /\ getRatio s' = spec_display_size Sc W0 H0
  /\ (0 <= b64_value scale <= 1)%Q
  /\ (5 * H0 <= 4 * Sc ->
      scale = float_of_int 1 /\ getRatio s' = (W0, H0))
  /\ (4 * Sc < 5 * H0 ->
      scale = fdiv (fmul float_0_8 (float_of_int Sc)) (float_of_int H0)).
Proof.
  intros Sc Hsize HSc HW HH scale s'.
  pose proof (display_scale Sc H0 HSc HH) as Hd. cbv zeta in Hd.
  pose proof (height_test Sc H0 HSc HH) as Ht.
  set (X := if b64_int_gt 1 (b64_div (b64_mul (b64_of_int Sc) b64_0_8) (b64_of_int H0))
            then b64_div (b64_mul (b64_of_int Sc) b64_0_8) (b64_of_int H0)
            else b64_of_int 1) in Hd.
  assert (Hs : scale = X).
  { subst scale X. unfold spec_scale. b64_ops. now rewrite (b64_mul_comm b64_0_8). }
  clearbody X.
  rewrite <- Hs in Hd. destruct Hd as (Hgt & Hle & Hv & Hok).
  assert (Hone : forall z, 0 <= z < 2 ^ 31 ->
                 b64_round (b64_mul (b64_of_int z) (b64_of_int 1)) = z).
  { intros z Hz. apply (b64_round_int 1).
    - change (2 ^ 31) with 2147483648 in *. lia.
    - rewrite b64_one. split; [reflexivity|lia].
    - lia.
    - reflexivity. }
  assert (Hsz : getRatio s' = spec_display_size Sc W0 H0
                /\ outcome_of (setPixmap fn) s = Return tt).
  { subst s'. unfold getRatio, spec_display_size. fold scale.
    unfold setPixmap, state_after, outcome_of, bind, get, modify. rewrite Hsize.
    fold Sc. b64_ops.
    destruct (b64_int_gt H0 (b64_mul (b64_of_int Sc) b64_0_8)) eqn:E.
    - assert (Hz : (H0 =? 0) = false) by (apply Z.eqb_neq; lia).
      rewrite Hz. simpl. rewrite (Hgt eq_refl). now split.
    - simpl. rewrite (Hle eq_refl), !Hone by lia. now split. }
  destruct Hsz as [Hsz Hret].
  split; [exact Hret|]. split; [exact Hsz|]. split; [exact Hv|]. split.
  - intros Hc.
    assert (E : b64_int_gt H0 (b64_mul (b64_of_int Sc) b64_0_8) = false).
    { apply not_true_is_false. intros E. apply Ht in E. lia. }
    split; [exact (Hle E)|]. rewrite Hsz. unfold spec_display_size. fold scale.
    rewrite (Hle E). b64_ops. now rewrite !Hone by lia.
  - intros Hc. apply Ht in Hc. rewrite (Hgt Hc). b64_ops.
    now rewrite (b64_mul_comm b64_0_8).
Qed.

End Binary64.

(** * The claims at work on the demonstration session *)

(** C2 at work: labelling the pending box of [demo_pending] with key 2. *)
Lemma C2_witness :
  store_inv (store demo_pending) = true
  /\ store_inv (store (state_after (store_op (LabelLast 1)) demo_pending)) = true.
Proof.
  split; [vm_compute; reflexivity|].
  apply (proj1 (@C2_store_invariant demo_host)). vm_compute; reflexivity.
Defined.

(** C3 at work: a second rectangle drawn in Auto mode from (30, 30) to
    (40, 45) while the first box is still unlabelled. *)
Lemma C3_witness :
  autoLabel (parent demo_pending_auto) = AutoLabel
  /\ store demo_pending_auto = [[10; 20; 50; 80]]
  /\ store (state_after (finalize (40, 45)) demo_pending_auto)
     = [[10; 20; 50; 80; 0]; [30; 30; 40; 45; 0]].
Proof.
  split; [vm_compute; reflexivity|]. split; [vm_compute; reflexivity|].
  assert (H1 : autoLabel (parent demo_pending_auto) = AutoLabel)
    by (vm_compute; reflexivity).
  assert (H2 : fst (40, 45) <> fst (lastPoint (label_img demo_pending_auto)))
    by (vm_compute; discriminate).
  assert (H3 : snd (40, 45) <> snd (lastPoint (label_img demo_pending_auto)))
    by (vm_compute; discriminate).
  rewrite (proj1 (C3_auto_backfill demo_pending_auto (40, 45) H1 H2 H3)).
  vm_compute; reflexivity.
Defined.

(** C4 at work: the same drag in Manual mode only warns. *)
Lemma C4_witness :
  autoLabel (parent demo_pending) = ManualLabel
  /\ last_has_len 4 (store demo_pending) = true
  /\ store (state_after (finalize (40, 45)) demo_pending) = store demo_pending
  /\ popups (state_after (finalize (40, 45)) demo_pending) = [pending_warning].
Proof.
  assert (H1 : autoLabel (parent demo_pending) = ManualLabel)
    by (vm_compute; reflexivity).
  assert (H2 : last_has_len 4 (store demo_pending) = true)
    by (vm_compute; reflexivity).
  assert (H3 : (40, 45) <> lastPoint (label_img demo_pending))
    by (vm_compute; discriminate).
  destruct (C4_manual_pending demo_pending (40, 45) H1 H2 H3) as (Hw & Hs & _).
  split; [exact H1|]. split; [exact H2|]. split; [exact Hs|].
  rewrite Hw. vm_compute; reflexivity.
Defined.


(** C7 at work: the demonstration directory lists five images, two of
    them with a sidecar file. *)
Lemma C7_witness :
  length (@eligible demo_host (disk demo_start) "/data") = 5%nat
  /\ length (filter (fun p => already_labelled (disk demo_start) p)
               (@eligible demo_host (disk demo_start) "/data")) = 2%nat
  /\ total_imgs (main (state_after (@scan demo_host "/data") demo_start)) = Some 5
  /\ length (@remaining demo_host (disk demo_start) "/data") = 3%nat
  /\ imgList (main (state_after (@registerInputPath demo_host "/data") demo_start))
     = Some ["/data/a.jpg"; "/data/c.jpg"; "/data/e.png"].
Proof.
  assert (H5 : length (@eligible demo_host (disk demo_start) "/data") = 5%nat)
    by (vm_compute; reflexivity).
  assert (H2 : length (filter (fun p => already_labelled (disk demo_start) p)
                         (@eligible demo_host (disk demo_start) "/data")) = 2%nat)
    by (vm_compute; reflexivity).
  assert (Hb : os_path_basename "/data" <> "") by (vm_compute; discriminate).
  destruct (@C7_directory_scan demo_host "/data" demo_start)
    as (_ & _ & Hq & _ & H523 & Hreg).
  destruct (H523 H5 H2) as [Ht Hk]. destruct (Hreg Hb) as [_ Hi].
  split; [exact H5|]. split; [exact H2|]. split; [exact Ht|]. split; [exact Hk|].
  rewrite Hi, Hq. vm_compute; reflexivity.
Defined.

(** C8 at work: [/data/a.jpg] is shown with crop mode on and nothing is
    drawn; the commit creates the empty [/data/a.txt] and no crop. *)
Lemma C8_witness :
  fileName (parent demo_loaded) <> "Ready"
  /\ crop_mode (main demo_loaded) = true
  /\ files (disk demo_loaded) !! "/data/a.txt" = None
  /\ files (disk (state_after (@writeResults demo_host []) demo_loaded)) !! "/data/a.txt"
     = Some ""
  /\ crops (disk (state_after (@writeResults demo_host []) demo_loaded)) = [].
Proof.
  assert (H1 : fileName (parent demo_loaded) <> "Ready") by (vm_compute; discriminate).
  assert (H2 : files (disk demo_loaded) !! sidecar demo_loaded = None)
    by (vm_compute; reflexivity).
  destruct (@C8_empty_commit demo_host demo_loaded H1) as (_ & _ & Hn & _ & Hc & _).
  split; [exact H1|]. split; [vm_compute; reflexivity|].
  split; [exact H2|]. split; [exact (Hn H2)|]. rewrite Hc. vm_compute; reflexivity.
Defined.

(** C10 at work: a drag from the bottom right to the top left. *)
Lemma C10_witness :
  forallb corner_normalized (store demo_marked) = true
  /\ forallb corner_normalized
       (store (state_after (@handle demo_host (MouseRelease LeftButton (3, 4)))
                           demo_marked)) = true.
Proof.
  assert (H1 : forallb corner_normalized (store demo_marked) = true)
    by (vm_compute; reflexivity).
  split; [exact H1|].
  exact (proj1 (proj2 (proj2 (proj2 (@C10_corner_normalized demo_host))))
               (MouseRelease LeftButton (3, 4)) demo_marked H1).
Defined.

(** C6 at work: the box from (10, 20) to (50, 80) on a display of 400 by
    800 pixels. *)
Lemma C6_witness :
  @crop_rect tall_host (@yolo_format tall_host 10 20 50 80 1 400 800) 400 800
  = (10, 20, 40, 60).
Proof.
  apply (C6_round_trip demo_listing (fun _ _ => (1000, 2000))
           (fun _ _ => Some (2000, 1000)) 10 20 50 80 1 400 800); lia.
Defined.

(** C9 at work: an image of 85 by 1088 pixels on a screen of 1000 lines
    is shown 63 by 800. *)
Lemma C9_witness :
  screen_height (label_img demo_start) = 1000
  /\ outcome_of (@setPixmap narrow_host "/data/a.jpg") demo_start = Return tt
  /\ getRatio (state_after (@setPixmap narrow_host "/data/a.jpg") demo_start) = (63, 800).
Proof.
  split; [reflexivity|].
  assert (H1 : 0 <= screen_height (label_img demo_start) < 2 ^ 31)
    by (vm_compute; split; [discriminate|reflexivity]).
  destruct (C9_display_geometry demo_listing (fun _ _ => (85, 1088))
              (fun _ _ => Some (1088, 85)) "/data/a.jpg" demo_start 85 1088
              eq_refl H1 ltac:(lia) ltac:(lia)) as (Hret & Hsz & _).
  split; [exact Hret|]. refine (eq_trans Hsz _). vm_compute. reflexivity.
Defined.

(** * Further properties of the handlers *)

(** ** The right-click removal *)

Lemma well_shaped_take4 (b : Box) :
  well_shaped b = true ->
  exists lx ly rx ry, take 4 b = [lx; ly; rx; ry].
Proof.
  unfold well_shaped, labeled, unlabeled. intros H.
  destruct b as [|a [|b [|c [|d [|e [|f b0]]]]]]; try discriminate;
    simpl; eauto.
Qed.

Lemma first_hit_cons (x y : Z) (i : nat) (box : Box) (bs : list Box) :
  well_shaped box = true ->
  first_hit x y i (box :: bs) =
  if contains x y box then Return (Some i) else first_hit x y (S i) bs.
Proof.
  intros (lx & ly & rx & ry & E)%well_shaped_take4.
  simpl. unfold contains. now rewrite E.
Qed.

Lemma first_hit_found (x y : Z) (bs : list Box) :
  Forall (fun b => well_shaped b = true) bs ->
  forall (k i : nat) (b : Box),
    bs !! i = Some b -> contains x y b = true ->
    (forall j b', (j < i)%nat -> bs !! j = Some b' -> contains x y b' = false) ->
    first_hit x y k bs = Return (Some (k + i)%nat).
Proof.
  induction 1 as [|b0 bs Hb0 Hbs IH]; intros k i b Hi Hc Hbefore.
  - discriminate.
  - rewrite first_hit_cons by exact Hb0. destruct i as [|i].
    + simpl in Hi. injection Hi as ->. rewrite Hc. now rewrite Nat.add_0_r.
    + rewrite (Hbefore 0%nat b0) by (first [lia|reflexivity]).
      rewrite (IH (S k) i b Hi Hc).
      * f_equal. f_equal. lia.
      * intros j b' Hj Hl. apply (Hbefore (S j) b'); [lia|exact Hl].
Qed.

Lemma first_hit_missed (x y : Z) (bs : list Box) :
  Forall (fun b => well_shaped b = true) bs ->
  Forall (fun b => contains x y b = false) bs ->
  forall k, first_hit x y k bs = Return None.
Proof.
  induction 1 as [|b0 bs Hb0 Hbs IH]; intros Hm k; [reflexivity|].
  rewrite first_hit_cons by exact Hb0.
  rewrite (Forall_inv Hm). apply IH. now inversion Hm.
Qed.

(** X1. On a store of well-shaped boxes the right click removes the
    first box, in the order of insertion, that contains the point, and
    only that one; a click outside every box changes nothing. *)
Theorem removeAt_first_hit (s : App) (x y : Z) :
  store_inv (store s) = true ->
  let s' := state_after (mousePressEvent RightButton (x, y)) s in
  (forall (i : nat) (b : Box),
     store s !! i = Some b -> contains x y b = true ->
     (forall j b', (j < i)%nat -> store s !! j = Some b' -> contains x y b' = false) ->
     store s' = delete i (store s)
     /\ length (store s') = (length (store s) - 1)%nat)
  /\ (Forall (fun b => contains x y b = false) (store s) -> s' = s).
Proof.
  intros Hinv s'. apply store_inv_well_shaped in Hinv. split.
  - intros i b Hi Hc Hbefore.
    pose proof (first_hit_found x y _ Hinv 0%nat i b Hi Hc Hbefore) as Hf.
    subst s'. unfold mousePressEvent. run_handler.
    unfold store in Hf. simpl in Hf. rewrite Hf. simpl.
    assert (Hlen : length (delete i (results (label_img s)))
                   = (length (results (label_img s)) - 1)%nat).
    { apply lookup_lt_Some in Hi. unfold store in Hi.
      rewrite length_delete by (now apply lookup_lt_is_Some). lia. }
    destruct (draw_boxes _ _); simpl; now split.
  - intros Hm. subst s'. unfold mousePressEvent. run_handler.
    now rewrite (first_hit_missed x y _ Hinv Hm).
Qed.

(** ** Undo *)

(** X2. The Cancel button after a release. In Manual mode it takes back
    the box just drawn; when the release was refused because a box was
    pending, it removes that pending box; in Auto mode it removes the
    new box but the labels given by the backfill stay. *)
Theorem undo_after_release (s : App) (pos : Z * Z) :
  pos <> lastPoint (label_img s) ->
  let s' := state_after cancelLast (state_after (finalize pos) s) in
  (autoLabel (parent s) = ManualLabel -> last_has_len 4 (store s) = false ->
   store s' = store s)
  /\ (autoLabel (parent s) = ManualLabel -> last_has_len 4 (store s) = true ->
      store s' = removelast (store s))
  /\ (autoLabel (parent s) = AutoLabel ->
      store s' = backfill (last_idx (label_img s)) (store s)).
Proof.
  intros Hne s'. subst s'. rewrite cancelLast_store. split; [|split].
  - intros Hm H4. destruct (finalize_manual s pos Hm H4 Hne) as (E & _).
    rewrite E. apply removelast_last.
  - intros Hm H4. destruct (finalize_pending s pos Hm H4 Hne) as (_ & E & _).
    now rewrite E.
  - intros Hm. destruct (finalize_auto s pos Hm Hne) as (E & _).
    rewrite E, backfill_app. change (backfill ?k [?b]) with [b].
    apply removelast_last.
Qed.

(** ** Labelling twice *)

Lemma nil_or_snoc {A : Type} (l : list A) :
  l = [] \/ exists pre x, l = pre ++ [x].
Proof.
  destruct l as [|x l] using rev_ind; [now left|right; eauto].
Qed.

Lemma set_last_field_snoc (idx x : Z) (b : Box) :
  set_last_field idx (b ++ [x]) = b ++ [idx].
Proof. unfold set_last_field. now rewrite removelast_last. Qed.

Lemma set_last_field_twice (i j : Z) (b : Box) :
  set_last_field j (set_last_field i b) = set_last_field j b.
Proof. unfold set_last_field. now rewrite removelast_last. Qed.

Lemma set_last_field_length (idx : Z) (b : Box) :
  length b = 5%nat -> length (set_last_field idx b) = 5%nat.
Proof.
  destruct b as [|x1 [|x2 [|x3 [|x4 [|x5 [|x6 b]]]]]]; try discriminate. reflexivity.
Qed.

Lemma set_last_field_take4 (idx : Z) (b : Box) :
  length b = 5%nat -> take 4 (set_last_field idx b) = take 4 b.
Proof.
  destruct b as [|x1 [|x2 [|x3 [|x4 [|x5 [|x6 b]]]]]]; try discriminate. reflexivity.
Qed.

(** The store after [markBox] when the last box is well shaped. *)
Lemma markBox_last (idx : Z) (s : App) (pre : list Box) (b : Box) :
  store s = pre ++ [b] -> well_shaped b = true ->
  store (state_after (markBox idx) s)
  = pre ++ [if unlabeled b then b ++ [idx] else set_last_field idx b].
Proof.
  intros E Hb. destruct (markBox_store idx s) as [_ Hs]. rewrite Hs, E.
  rewrite last_snoc, removelast_last.
  unfold well_shaped, labeled, unlabeled in *.
  destruct (length b =? 4)%nat; [reflexivity|].
  simpl in Hb. rewrite orb_false_r in Hb. now rewrite Hb.
Qed.

(** X3. Labelling the last box a second time replaces its label: the
    store is the one a single [markBox] with the second label gives, the
    number of boxes and the coordinates of every box are those of
    before, and the last used label is the second one. On an empty store
    [markBox] only records the label. *)
Theorem markBox_twice (a b : Z) (s : App) :
  store_inv (store s) = true ->
  let s2 := state_after (markBox b) (state_after (markBox a) s) in
  store s2 = store (state_after (markBox b) s)
  /\ last_idx (label_img s2) = b
  /\ length (store s2) = length (store s)
  /\ map (take 4) (store s2) = map (take 4) (store s)
  /\ (store s = [] -> store s2 = []).
Proof.
  intros Hinv s2. subst s2.
  destruct (markBox_store b (state_after (markBox a) s)) as [Hidx _].
  destruct (nil_or_snoc (store s)) as [E|(pre & b0 & E)].
  - assert (E1 : store (state_after (markBox a) s) = []).
    { destruct (markBox_store a s) as [_ H1]. now rewrite H1, E. }
    assert (E2 : store (state_after (markBox b) (state_after (markBox a) s)) = []).
    { destruct (markBox_store b (state_after (markBox a) s)) as [_ H2].
      now rewrite H2, E1. }
    assert (E3 : store (state_after (markBox b) s) = []).
    { destruct (markBox_store b s) as [_ H3]. now rewrite H3, E. }
    rewrite E2, E3, E. repeat split; assumption.
  - rewrite E in Hinv. apply store_inv_snoc in Hinv as [_ Hb0].
    pose proof (markBox_last a s pre b0 E Hb0) as E1.
    assert (Hb1 : well_shaped (if unlabeled b0 then b0 ++ [a] else set_last_field a b0)
                  = true
                  /\ unlabeled (if unlabeled b0 then b0 ++ [a] else set_last_field a b0)
                     = false).
    { unfold well_shaped, labeled, unlabeled in *.
      destruct (length b0 =? 4)%nat eqn:E4.
      - apply Nat.eqb_eq in E4. rewrite length_app, E4. now split.
      - simpl in Hb0. rewrite orb_false_r in Hb0. apply Nat.eqb_eq in Hb0.
        rewrite (set_last_field_length a b0 Hb0). now split. }
    destruct Hb1 as [Hw1 Hu1].
    pose proof (markBox_last b _ pre _ E1 Hw1) as E2. rewrite Hu1 in E2.
    pose proof (markBox_last b s pre b0 E Hb0) as E3.
    rewrite E2, E3.
    assert (Hsame : set_last_field b (if unlabeled b0 then b0 ++ [a] else set_last_field a b0)
                    = (if unlabeled b0 then b0 ++ [b] else set_last_field b b0)).
    { destruct (unlabeled b0); [apply set_last_field_snoc|apply set_last_field_twice]. }
    rewrite Hsame, E. split; [reflexivity|]. split; [exact Hidx|].
    split; [now rewrite !length_app|]. split.
    + rewrite !map_app. f_equal. simpl. f_equal.
      unfold well_shaped, labeled, unlabeled in *.
      destruct (length b0 =? 4)%nat eqn:E4.
      * apply Nat.eqb_eq in E4. now rewrite take_app_le by lia.
      * simpl in Hb0. rewrite orb_false_r in Hb0. apply Nat.eqb_eq in Hb0.
        now apply set_last_field_take4.
    + intros H0. now destruct pre.
Qed.

(** ** Labels stay within the configuration *)

Lemma py_index_valid (keys : list string) (idx : Z) :
  valid_label keys idx = true -> is_Some (py_index keys idx).
Proof.
  unfold valid_label, py_index. intros H. rewrite H.
  apply andb_true_iff in H as [H0 H1]. apply Z.leb_le in H0. apply Z.ltb_lt in H1.
  apply lookup_lt_is_Some. lia.
Qed.

Lemma label_ok_unlabeled (keys : list string) (b : Box) :
  length b = 4%nat -> label_ok keys b = true.
Proof. unfold label_ok. now intros ->. Qed.

Lemma label_ok_snoc (keys : list string) (b : Box) (idx : Z) :
  valid_label keys idx = true -> label_ok keys (b ++ [idx]) = true.
Proof.
  intros Hv. unfold label_ok. rewrite last_snoc.
  now destruct (length (b ++ [idx]) =? 5)%nat.
Qed.

Lemma label_ok_set_last_field (keys : list string) (b : Box) (idx : Z) :
  valid_label keys idx = true -> label_ok keys (set_last_field idx b) = true.
Proof. intros Hv. unfold set_last_field. now apply label_ok_snoc. Qed.

Lemma label_ok_backfill (keys : list string) (idx : Z) (bs : list Box) :
  valid_label keys idx = true ->
  Forall (fun b => label_ok keys b = true) bs ->
  Forall (fun b => label_ok keys b = true) (backfill idx bs).
Proof.
  intros Hv H. unfold backfill. apply Forall_map.
  eapply Forall_impl; [exact H|]. intros b Hb. simpl.
  destruct (length b =? 4)%nat; [now apply label_ok_snoc|exact Hb].
Qed.

(** The two parts of [labels_inv]. *)
Lemma labels_inv_iff (s : App) :
  labels_inv s = true <->
  valid_label (key_config (main s)) (last_idx (label_img s)) = true
  /\ Forall (fun b => label_ok (key_config (main s)) b = true) (store s).
Proof.
  unfold labels_inv. rewrite andb_true_iff, forallb_Forall_true. reflexivity.
Qed.

Ltac frame_more :=
  repeat first
    [ frame_step
    | progress unfold showPopupOk, print_line, resetResult ].

Lemma unchanged_mouseReleaseEvent_kl (button : MouseButton) (pos : Z * Z) :
  unchanged keys_and_label (mouseReleaseEvent button pos).
Proof. unfold mouseReleaseEvent. frame_more. Qed.

Lemma unchanged_mousePressEvent_kl (button : MouseButton) (pos : Z * Z) :
  unchanged keys_and_label (mousePressEvent button pos).
Proof. unfold mousePressEvent. frame_more. Qed.

Lemma unchanged_cancelLast_kl : unchanged keys_and_label cancelLast.
Proof. unfold cancelLast. frame_more. Qed.

Lemma unchanged_markBox_keys (idx : Z) :
  unchanged (fun s => key_config (main s)) (markBox idx).
Proof. unfold markBox. frame_more. Qed.

Section LabelFrames.
Context {host : Host}.

Lemma unchanged_setPixmap_kl (fn : string) : unchanged keys_and_label (setPixmap fn).
Proof. unfold setPixmap. frame_more. Qed.

Lemma unchanged_writeResults_kl (res : list Box) :
  unchanged keys_and_label (writeResults res).
Proof.
  apply unchanged_writeResults; [reflexivity|].
  intros i b. unfold write_box. frame_more.
Qed.

Lemma unchanged_setNextImage_kl (img : option string) :
  unchanged keys_and_label (setNextImage img).
Proof.
  unfold setNextImage, ensure_save_directory, pop_next, show_current.
  repeat first [ frame_step
               | progress unfold showPopupOk, resetResult
               | apply unchanged_writeResults_kl
               | apply unchanged_setPixmap_kl ].
Qed.

Lemma unchanged_registerInputPath_kl (d : string) :
  unchanged keys_and_label (registerInputPath d).
Proof. unfold registerInputPath, scan. frame_more. Qed.

Lemma unchanged_registerSavePath_kl (d : string) :
  unchanged keys_and_label (registerSavePath d).
Proof. unfold registerSavePath. frame_more. Qed.

Lemma unchanged_cropMode_kl (st : Z) : unchanged keys_and_label (cropMode st).
Proof. unfold cropMode. frame_more. Qed.

End LabelFrames.

(** A handler that keeps the keys and the last label, and whose store
    keeps valid labels, keeps [labels_inv]. *)
Lemma labels_inv_frame {A : Type} (m : M A) (s : App) :
  unchanged keys_and_label m ->
  labels_inv s = true ->
  (Forall (fun b => label_ok (key_config (main s)) b = true) (store s) ->
   Forall (fun b => label_ok (key_config (main s)) b = true) (store (state_after m s))) ->
  labels_inv (state_after m s) = true.
Proof.
  intros U [Hv Hs]%labels_inv_iff Hstore. apply labels_inv_iff.
  pose proof (U s) as E. unfold keys_and_label in E.
  injection E as Ek El. rewrite Ek, El. split; [exact Hv|now apply Hstore].
Qed.

Lemma finalize_labels_inv (pos : Z * Z) :
  preserves (fun s => labels_inv s = true) (finalize pos).
Proof.
  intros s Hs. apply labels_inv_frame;
    [apply unchanged_mouseReleaseEvent_kl|exact Hs|].
  apply labels_inv_iff in Hs as [Hv _]. intros Hst.
  destruct (finalize_cases s pos) as [E|[[_ E]|E]]; rewrite E.
  - exact Hst.
  - apply Forall_app. split; [exact Hst|]. apply Forall_singleton. reflexivity.
  - apply label_ok_backfill; [exact Hv|]. apply Forall_app. split; [exact Hst|].
    apply Forall_singleton. now apply label_ok_snoc.
Qed.

Lemma markBox_labels_inv (idx : Z) (s : App) :
  valid_label (key_config (main s)) idx = true ->
  labels_inv s = true -> labels_inv (state_after (markBox idx) s) = true.
Proof.
  intros Hv [_ Hst]%labels_inv_iff. apply labels_inv_iff.
  rewrite (unchanged_markBox_keys idx s).
  destruct (markBox_store idx s) as [Hi E]. rewrite Hi, E. split; [exact Hv|].
  destruct (nil_or_snoc (store s)) as [E0|(pre & b & E0)]; rewrite E0 in *.
  - constructor.
  - rewrite last_snoc, removelast_last.
    apply Forall_app in Hst as [Hpre Hb].
    destruct (length b =? 4)%nat.
    { apply Forall_app. split; [exact Hpre|].
      now apply Forall_singleton, label_ok_snoc. }
    destruct (length b =? 5)%nat.
    { apply Forall_app. split; [exact Hpre|].
      now apply Forall_singleton, label_ok_set_last_field. }
    apply Forall_app. now split.
Qed.

Lemma cancelLast_labels_inv : preserves (fun s => labels_inv s = true) cancelLast.
Proof.
  intros s Hs. apply labels_inv_frame; [apply unchanged_cancelLast_kl|exact Hs|].
  rewrite cancelLast_store. apply Forall_removelast.
Qed.

Lemma mousePressEvent_labels_inv (button : MouseButton) (pos : Z * Z) :
  preserves (fun s => labels_inv s = true) (mousePressEvent button pos).
Proof.
  intros s Hs. apply labels_inv_frame; [apply unchanged_mousePressEvent_kl|exact Hs|].
  intros Hst. destruct (mousePressEvent_store button pos s) as [E|[i E]]; rewrite E.
  - exact Hst.
  - now apply Forall_delete.
Qed.

Lemma digit_keys_positive : Forall (fun p : Z * Z => 1 <= fst p) digit_keys.
Proof. unfold digit_keys. repeat constructor; simpl; lia. Qed.

Lemma mark_by_key_labels_inv (key : Z) (ks : list (Z * Z)) (s0 : App) :
  Forall (fun p : Z * Z => 1 <= fst p) ks ->
  forall s, key_config (main s) = key_config (main s0) ->
    labels_inv s = true ->
    labels_inv (state_after
                  (mark_by_key key (Z.of_nat (length (key_config (main s0)))) ks) s)
    = true.
Proof.
  induction 1 as [|[i key_n] ks Hi Hks IH]; intros s Hk Hs; simpl; [exact Hs|].
  destruct ((key =? key_n) && (i <=? Z.of_nat (length (key_config (main s0))))) eqn:E.
  - apply markBox_labels_inv; [|exact Hs].
    apply andb_true_iff in E as [_ E]. apply Z.leb_le in E. simpl in Hi.
    unfold valid_label. rewrite Hk. apply andb_true_iff.
    split; [apply Z.leb_le|apply Z.ltb_lt]; lia.
  - now apply IH.
Qed.

Lemma unchanged_mark_by_key_keys (key n : Z) (ks : list (Z * Z)) :
  unchanged (fun s => key_config (main s)) (mark_by_key key n ks).
Proof.
  induction ks as [|[i key_n] ks IH]; simpl; [apply unchanged_ret|].
  destruct (_ && _); [apply unchanged_markBox_keys|exact IH].
Qed.

Section LabelEvents.
Context {host : Host}.

Lemma setNextImage_labels_inv (img : option string) :
  preserves (fun s => labels_inv s = true) (setNextImage img).
Proof.
  intros s Hs. apply labels_inv_frame; [apply unchanged_setNextImage_kl|exact Hs|].
  intros Hst. destruct (setNextImage_store img s) as [E|E]; rewrite E;
    [exact Hst|constructor].
Qed.

Lemma keyPressEvent_labels_inv (key : Z) :
  preserves (fun s => labels_inv s = true) (keyPressEvent key).
Proof.
  unfold keyPressEvent. apply preserves_get. intros s Hs.
  rewrite state_after_bind.
  pose proof (mark_by_key_labels_inv key digit_keys s digit_keys_positive s eq_refl Hs)
    as H1.
  destruct (outcome_of _ s); [|exact H1].
  revert H1. generalize (state_after
    (mark_by_key key (Z.of_nat (length (key_config (main s)))) digit_keys) s).
  intros s1 H1.
  destruct (key =? Key_Escape); [now apply cancelLast_labels_inv|].
  destruct (key =? Key_E).
  { revert s1 H1.
    apply (preserves_bind (fun s => labels_inv s = true));
      [apply setNextImage_labels_inv|intros; apply preserves_ret]. }
  destruct (key =? Key_Q).
  { rewrite state_after_bind. change (outcome_of resetResult s1) with (@Return unit tt).
    cbv iota. rewrite drawResultBox_state.
    apply labels_inv_iff in H1 as [Hv _]. apply labels_inv_iff. split; [exact Hv|constructor]. }
  destruct (key =? Key_A); [|exact H1].
  apply labels_inv_iff in H1 as [Hv Hst]. apply labels_inv_iff. now split.
Qed.

Lemma handle_labels_inv (e : Event) :
  preserves (fun s => labels_inv s = true) (handle e).
Proof.
  destruct e; cbv [handle].
  - apply mousePressEvent_labels_inv.
  - destruct button; try apply preserves_ret. apply finalize_labels_inv.
  - apply keyPressEvent_labels_inv.
  - apply preserves_bind; [apply setNextImage_labels_inv|intros; apply preserves_ret].
  - apply cancelLast_labels_inv.
  - intros s Hs. apply labels_inv_frame; [apply unchanged_cropMode_kl|exact Hs|].
    now rewrite (unchanged_cropMode_store state s).
  - intros s Hs. apply labels_inv_frame; [|exact Hs|].
    + apply unchanged_bind; [apply unchanged_registerInputPath_kl|intros; apply unchanged_ret].
    + assert (U : unchanged store (registerInputPath directory ;; ret tt)).
      { apply unchanged_bind;
          [apply unchanged_registerInputPath_store|intros; apply unchanged_ret]. }
      now rewrite (U s).
  - intros s Hs. apply labels_inv_frame; [apply unchanged_registerSavePath_kl|exact Hs|].
    now rewrite (unchanged_registerSavePath_store directory s).
Qed.

Lemma run_events_invariant (I : App -> Prop) :
  (forall e, preserves I (handle e)) ->
  forall (es : list Event) (s : App), I s -> I (run_events es s).
Proof.
  intros HI es. induction es as [|e es IH]; intros s Hs; simpl; [exact Hs|].
  pose proof (HI e s Hs) as H1. unfold state_after in H1.
  destruct (handle e s) as [[[]|x] s1]; simpl in H1; [now apply IH|exact H1].
Qed.

(** X4. When the configuration holds at least one label, the last used
    label and the label of every stored box are positions of
    [key_config] in every state of a session: every event keeps this,
    because a digit key is obeyed only up to the number of labels. *)
Theorem labels_in_range :
  (forall (e : Event) (s : App),
     labels_inv s = true -> labels_inv (state_after (handle e) s) = true)
  /\ (forall (es : list Event) (screen : Z) (keys : list string) (d : Disk),
        keys <> [] ->
        labels_inv (run_events es (initial_App screen keys d)) = true).
Proof.
  split.
  - intros e s. apply handle_labels_inv.
  - intros es screen keys d Hk.
    apply (run_events_invariant (fun s => labels_inv s = true) handle_labels_inv).
    destruct keys; [contradiction|reflexivity].
Qed.

End LabelEvents.

(** ** The drawing handlers do not raise *)

Lemma draw_box_ok (keys : list string) (b : Box) :
  well_shaped b = true -> label_ok keys b = true -> draw_box keys b = None.
Proof.
  intros Hw Hl. destruct (well_shaped_take4 b Hw) as (lx & ly & rx & ry & E).
  unfold draw_box. rewrite E. unfold label_ok in Hl.
  destruct (length b =? 5)%nat; [|reflexivity].
  destruct (last b) as [idx|]; [|reflexivity].
  now destruct (py_index_valid keys idx Hl) as [name ->].
Qed.

Lemma draw_boxes_ok (keys : list string) (bs : list Box) :
  Forall (fun b => well_shaped b = true) bs ->
  Forall (fun b => label_ok keys b = true) bs ->
  draw_boxes keys bs = None.
Proof.
  induction 1 as [|b bs Hb Hbs IH]; intros Hl; [reflexivity|].
  simpl. rewrite (draw_box_ok keys b Hb (Forall_inv Hl)).
  apply IH. now inversion Hl.
Qed.

Lemma first_hit_returns (x y : Z) (bs : list Box) :
  Forall (fun b => well_shaped b = true) bs ->
  forall k, exists r, first_hit x y k bs = Return r.
Proof.
  induction 1 as [|b bs Hb Hbs IH]; intros k; [now exists None|].
  rewrite first_hit_cons by exact Hb.
  destruct (contains x y b); [now exists (Some k)|apply IH].
Qed.

Lemma drawable_iff (s : App) :
  drawable s = true <-> store_inv (store s) = true /\ labels_inv s = true.
Proof. unfold drawable. apply andb_true_iff. Qed.

Lemma safe_bind {A B : Type} (m : M A) (k : A -> M B) :
  safe m -> (forall a, safe (k a)) -> safe (bind m k).
Proof.
  intros Hm Hk s Hs. destruct (Hm s Hs) as [[a Ha] Hd].
  unfold outcome_of, state_after in *. unfold bind.
  destruct (m s) as [o s1]. simpl in *. subst o. now apply Hk.
Qed.

Lemma safe_ret {A : Type} (a : A) : safe (ret a).
Proof. intros s Hs. split; [now exists a|exact Hs]. Qed.

Lemma safe_get {A : Type} (k : App -> M A) :
  (forall s, drawable s = true ->
     (exists a, outcome_of (k s) s = Return a) /\ drawable (state_after (k s) s) = true) ->
  safe (bind get k).
Proof. intros Hk s Hs. apply (Hk s Hs). Qed.

Lemma drawResultBox_returns (s : App) :
  drawable s = true -> drawResultBox s = (Return tt, s).
Proof.
  intros [Hi [_ Hl]%labels_inv_iff]%drawable_iff.
  unfold drawResultBox, bind, get. unfold store in *.
  now rewrite (draw_boxes_ok _ _ (store_inv_well_shaped _ Hi) Hl).
Qed.

(** A handler that ends in [drawResultBox] returns as soon as the state
    it leaves is drawable. *)
Lemma returns_of_draw (m : M unit) (s : App) :
  drawable (state_after (m ;; drawResultBox) s) = true ->
  (exists a, outcome_of m s = Return a) ->
  outcome_of (m ;; drawResultBox) s = Return tt.
Proof.
  intros Hd [a Ha]. unfold outcome_of, state_after, bind in *.
  destruct (m s) as [o s1]. simpl in Ha. subst o.
  assert (E : (drawResultBox s1).2 = s1) by apply drawResultBox_state.
  rewrite E in Hd. now rewrite (drawResultBox_returns s1 Hd).
Qed.

Lemma safe_of_preserved (m : M unit) :
  preserves (fun s => store_inv (store s) = true) m ->
  preserves (fun s => labels_inv s = true) m ->
  (forall s, drawable s = true -> outcome_of m s = Return tt) ->
  safe m.
Proof.
  intros P1 P2 Ho s Hs. split; [exists tt; now apply Ho|].
  apply drawable_iff in Hs as [H1 H2]. apply drawable_iff.
  split; [now apply P1|now apply P2].
Qed.

Lemma cancelLast_returns (s : App) :
  drawable s = true -> outcome_of cancelLast s = Return tt.
Proof.
  intros Hs.
  assert (Hd : drawable (state_after cancelLast s) = true).
  { apply drawable_iff in Hs as [H1 H2]. apply drawable_iff.
    split; [now apply cancelLast_store_inv|now apply cancelLast_labels_inv]. }
  revert Hd. unfold cancelLast, bind at 1 3, get, outcome_of, state_after. simpl.
  destruct (results (label_img s)); [reflexivity|].
  intros Hd. apply returns_of_draw; [exact Hd|now exists tt].
Qed.

Lemma mousePressEvent_returns (button : MouseButton) (pos : Z * Z) (s : App) :
  drawable s = true -> outcome_of (mousePressEvent button pos) s = Return tt.
Proof.
  intros Hs.
  assert (Hd : drawable (state_after (mousePressEvent button pos) s) = true).
  { apply drawable_iff in Hs as [H1 H2]. apply drawable_iff.
    split; [now apply mousePressEvent_store_inv|now apply mousePressEvent_labels_inv]. }
  revert Hd. destruct button; try reflexivity.
  unfold mousePressEvent, bind at 1 3, get, outcome_of, state_after. simpl.
  apply drawable_iff in Hs as [H1 _].
  destruct (first_hit_returns pos.1 pos.2 _ (store_inv_well_shaped _ H1) 0%nat) as [r Hr].
  unfold store in Hr. rewrite Hr. destruct r as [i|]; [|reflexivity].
  intros Hd. apply returns_of_draw; [exact Hd|now exists tt].
Qed.

Lemma outcome_of_get {A : Type} (k : App -> M A) (s : App) :
  outcome_of (bind get k) s = outcome_of (k s) s.
Proof. reflexivity. Qed.

Lemma drawable_after_flag (m : M unit) (b : bool) (s : App) :
  drawable (state_after (m ;; modify (on_label_img (set_drawing b))) s)
  = drawable (state_after m s).
Proof.
  unfold state_after, bind, modify. destruct (m s) as [[[]|e] s1]; reflexivity.
Qed.

Lemma returns_before_modify (m : M unit) (f : App -> App) (s : App) :
  outcome_of m s = Return tt -> outcome_of (m ;; modify f) s = Return tt.
Proof.
  unfold outcome_of, bind, modify. destruct (m s) as [o s1]. simpl. now intros ->.
Qed.

Lemma mouseReleaseEvent_returns (button : MouseButton) (pos : Z * Z) (s : App) :
  drawable s = true -> outcome_of (mouseReleaseEvent button pos) s = Return tt.
Proof.
  intros Hs. destruct button; try reflexivity.
  assert (Hd : drawable (state_after (finalize pos) s) = true).
  { apply drawable_iff in Hs as [H1 H2]. apply drawable_iff.
    split; [now apply finalize_store_inv|now apply finalize_labels_inv]. }
  revert Hd. unfold finalize, mouseReleaseEvent.
  rewrite state_after_get, outcome_of_get.
  destruct (lastPoint (label_img s)) as [x1 y1], pos as [x2 y2]. cbv beta iota zeta.
  destruct (negb ((x1 =? x2) && (y1 =? y2))); [|reflexivity].
  rewrite drawable_after_flag. intros Hd. apply returns_before_modify. revert Hd.
  destruct (last_has_len 4 (results (label_img s))
            && String.eqb (text (autoLabel (parent s))) "Manual Label").
  { intros Hd. apply returns_of_draw; [exact Hd|now exists tt]. }
  destruct (String.eqb (text (autoLabel (parent s))) "Auto Label"); [|reflexivity].
  intros Hd.
  change (outcome_of
            ((modify (on_label_img (fun iw =>
                set_results (results iw ++ [[Z.min x1 x2; Z.min y1 y2;
                   Z.min x1 x2 + Z.abs (x1 - x2); Z.min y1 y2 + Z.abs (y1 - y2);
                   last_idx iw]]) iw)) ;;
              modify (on_label_img (fun iw =>
                set_results (backfill (last_idx iw) (results iw)) iw))) ;;
             drawResultBox) s = Return tt).
  apply returns_of_draw; [exact Hd|now exists tt].
Qed.

Lemma state_after_modify {A : Type} (f : App -> App) (k : M A) (s : App) :
  state_after (modify f ;; k) s = state_after k (f s).
Proof. reflexivity. Qed.

Lemma outcome_of_modify {A : Type} (f : App -> App) (k : M A) (s : App) :
  outcome_of (modify f ;; k) s = outcome_of k (f s).
Proof. reflexivity. Qed.

Lemma markBox_returns (idx : Z) (s : App) :
  valid_label (key_config (main s)) idx = true ->
  drawable s = true -> outcome_of (markBox idx) s = Return tt.
Proof.
  intros Hv Hs.
  assert (Hd : drawable (state_after (markBox idx) s) = true).
  { apply drawable_iff in Hs as [H1 H2]. apply drawable_iff.
    split; [now apply markBox_store_inv|now apply markBox_labels_inv]. }
  apply drawable_iff in Hs as [H1 _]. revert Hd. unfold markBox.
  rewrite state_after_modify, outcome_of_modify.
  set (s0 := on_label_img (set_last_idx idx) s).
  rewrite state_after_get, outcome_of_get.
  change (results (label_img s0)) with (store s).
  destruct (nil_or_snoc (store s)) as [E|(pre & b & E)]; rewrite E.
  { reflexivity. }
  rewrite last_snoc. rewrite E in H1. apply store_inv_snoc in H1 as [_ Hb].
  unfold well_shaped, labeled, unlabeled in Hb.
  destruct (length b =? 4)%nat.
  { intros Hd. apply returns_of_draw; [exact Hd|now exists tt]. }
  simpl in Hb. rewrite orb_false_r in Hb. rewrite Hb.
  intros Hd. apply returns_of_draw; [exact Hd|now exists tt].
Qed.

Lemma outcome_of_bind {A B : Type} (m : M A) (k : A -> M B) (s : App) :
  outcome_of (bind m k) s =
  match outcome_of m s with
  | Return a => outcome_of (k a) (state_after m s)
  | Raise e => Raise e
  end.
Proof.
  unfold outcome_of, state_after, bind. destruct (m s) as [[a|e] s1]; reflexivity.
Qed.

Lemma mark_by_key_safe (key : Z) (ks : list (Z * Z)) (s0 : App) :
  Forall (fun p : Z * Z => 1 <= fst p) ks ->
  forall s, key_config (main s) = key_config (main s0) ->
    drawable s = true ->
    let m := mark_by_key key (Z.of_nat (length (key_config (main s0)))) ks in
    outcome_of m s = Return tt /\ drawable (state_after m s) = true.
Proof.
  induction 1 as [|[i key_n] ks Hi Hks IH]; intros s Hk Hs; simpl; [now split|].
  destruct ((key =? key_n) && (i <=? Z.of_nat (length (key_config (main s0))))) eqn:E.
  - assert (Hv : valid_label (key_config (main s)) (i - 1) = true).
    { apply andb_true_iff in E as [_ E]. apply Z.leb_le in E. simpl in Hi.
      unfold valid_label. rewrite Hk. apply andb_true_iff.
      split; [apply Z.leb_le|apply Z.ltb_lt]; lia. }
    split; [now apply markBox_returns|].
    apply drawable_iff in Hs as [H1 H2]. apply drawable_iff.
    split; [now apply markBox_store_inv|now apply markBox_labels_inv].
  - now apply IH.
Qed.

Section Returns.
Context {host : Host}.

Lemma keyPressEvent_returns (key : Z) (s : App) :
  key <> Key_E -> drawable s = true ->
  outcome_of (keyPressEvent key) s = Return tt.
Proof.
  intros Hkey Hs. unfold keyPressEvent. rewrite outcome_of_get, outcome_of_bind.
  destruct (mark_by_key_safe key digit_keys s digit_keys_positive s eq_refl Hs)
    as [Ho Hd].
  rewrite Ho. revert Hd.
  generalize (state_after
    (mark_by_key key (Z.of_nat (length (key_config (main s)))) digit_keys) s).
  intros s1 Hd.
  destruct (key =? Key_Escape); [now apply cancelLast_returns|].
  destruct (key =? Key_E) eqn:E; [now apply Z.eqb_eq in E|].
  destruct (key =? Key_Q).
  { apply returns_of_draw; [|now exists tt].
    rewrite state_after_bind. change (outcome_of resetResult s1) with (@Return unit tt).
    cbv iota. rewrite drawResultBox_state.
    apply drawable_iff in Hd as [_ [Hv _]%labels_inv_iff]. apply drawable_iff.
    split; [reflexivity|]. apply labels_inv_iff. split; [exact Hv|constructor]. }
  destruct (key =? Key_A); reflexivity.
Qed.

Lemma handle_drawable (e : Event) : preserves (fun s => drawable s = true) (handle e).
Proof.
  intros s [H1 H2]%drawable_iff. apply drawable_iff. split.
  - now apply (preserves_handle _ store_inv_closed).
  - now apply handle_labels_inv.
Qed.

(** X5. In a state that satisfies the store invariant and holds valid
    labels, the mouse handlers, the Cancel button and every key other
    than E return without an exception: no box is too short to unpack and
    no label is outside [key_config] when the boxes are redrawn. Every
    state of a session with at least one configured label is such a
    state. *)
Theorem drawing_handlers_return :
  (forall s : App,
     drawable s = true ->
     (forall button pos, outcome_of (mousePressEvent button pos) s = Return tt)
     /\ (forall button pos, outcome_of (mouseReleaseEvent button pos) s = Return tt)
     /\ outcome_of cancelLast s = Return tt
     /\ (forall key, key <> Key_E -> outcome_of (keyPressEvent key) s = Return tt))
  /\ (forall (es : list Event) (screen : Z) (keys : list string) (d : Disk),
        keys <> [] ->
        drawable (run_events es (initial_App screen keys d)) = true).
Proof.
  split.
  - intros s Hs. split; [|split; [|split]].
    + intros b pos. now apply mousePressEvent_returns.
    + intros b pos. now apply mouseReleaseEvent_returns.
    + now apply cancelLast_returns.
    + intros key Hk. now apply keyPressEvent_returns.
  - intros es screen keys d Hk.
    apply (run_events_invariant (fun s => drawable s = true) handle_drawable).
    destruct keys; [contradiction|reflexivity].
Qed.

End Returns.

Lemma drawResultBox_outcome (s : App) :
  outcome_of drawResultBox s =
  match draw_boxes (key_config (main s)) (store s) with
  | Some e => Raise e
  | None => Return tt
  end.
Proof.
  unfold outcome_of, drawResultBox, bind, get, store.
  destruct (draw_boxes _ _); reflexivity.
Qed.

Lemma py_index_nil {A : Type} (i : Z) : py_index (@nil A) i = None.
Proof. unfold py_index. repeat destruct (_ && _); reflexivity. Qed.

Lemma draw_boxes_no_keys (b : Box) (bs : list Box) :
  labeled b = true -> draw_boxes [] (b :: bs) = Some IndexError.
Proof.
  intros Hb. apply Nat.eqb_eq in Hb.
  destruct b as [|a1 [|a2 [|a3 [|a4 [|a5 [|a6 b]]]]]]; try discriminate.
  change (draw_boxes [] ([a1; a2; a3; a4; a5] :: bs))
    with (match (match py_index (@nil string) a5 with
                 | Some _ => None
                 | None => Some IndexError
                 end) with
          | Some e => Some e
          | None => draw_boxes [] bs
          end).
  now rewrite py_index_nil.
Qed.

(** X6. With no label configured (every key of the configuration empty)
    the first rectangle released in Auto mode on a store of well-shaped
    boxes is stored with the last used label, and the redraw that follows
    raises IndexError. *)
Theorem auto_release_without_labels (s : App) (pos : Z * Z) :
  key_config (main s) = [] ->
  autoLabel (parent s) = AutoLabel ->
  store_inv (store s) = true ->
  pos <> lastPoint (label_img s) ->
  outcome_of (finalize pos) s = Raise IndexError
  /\ store (state_after (finalize pos) s)
     = backfill (last_idx (label_img s)) (store s)
       ++ [rect_of (lastPoint (label_img s)) pos ++ [last_idx (label_img s)]].
Proof.
  intros Hk Hm Hinv Hne. split.
  - unfold finalize, mouseReleaseEvent. rewrite outcome_of_get.
    destruct (lastPoint (label_img s)) as [x1 y1] eqn:Elp, pos as [x2 y2].
    cbv beta iota zeta.
    destruct ((x1 =? x2) && (y1 =? y2)) eqn:E.
    { apply andb_true_iff in E as [->%Z.eqb_eq ->%Z.eqb_eq]. now contradict Hne. }
    rewrite Hm, andb_false_r.
    change (String.eqb (text AutoLabel) "Auto Label") with true.
    change (negb false) with true. cbv iota.
    rewrite outcome_of_bind, outcome_of_modify, outcome_of_modify.
    rewrite drawResultBox_outcome.
    match goal with
    | |- context [draw_boxes (key_config (main ?s2)) (store ?s2)] =>
        change (key_config (main s2)) with (key_config (main s));
        set (bs := store s2)
    end.
    rewrite Hk.
    assert (Hall : Forall (fun b => labeled b = true) bs).
    { subst bs. unfold store. simpl.
      apply backfill_labeled, Forall_app. split.
      - now apply store_inv_well_shaped.
      - apply Forall_singleton. reflexivity. }
    assert (Hlen : length bs = S (length (store s))).
    { subst bs. unfold store. simpl. rewrite backfill_length, length_app. simpl. lia. }
    destruct bs as [|b bs']; [discriminate|].
    now rewrite (draw_boxes_no_keys b bs' (Forall_inv Hall)).
  - destruct (finalize_auto s pos Hm Hne) as (E & _).
    rewrite E, backfill_app. reflexivity.
Qed.

(** ** What a commit writes *)

Section Commit.
Context {host : Host}.

Lemma dir_exists_dirs (d d' : Disk) (p : string) :
  dirs d = dirs d' -> dir_exists d p = dir_exists d' p.
Proof. intros E. unfold dir_exists. now rewrite E. Qed.

Lemma save_crop_ok (p : string) (region : Z * Z * Z * Z) (s : App) :
  dir_exists (disk s) (os_path_dirname p) = true ->
  save_crop p region s = (Return tt, on_disk (add_crop p region) s).
Proof. intros E. unfold save_crop, bind, get. now rewrite E. Qed.

Lemma save_crop_missing (p : string) (region : Z * Z * Z * Z) (s : App) :
  dir_exists (disk s) (os_path_dirname p) = false ->
  save_crop p region s = (Raise FileNotFoundError, s).
Proof. intros E. unfold save_crop, bind, get. now rewrite E. Qed.

Lemma write_box_ok (s0 s : App) (crop : option (string * Z * Z)) (i : nat) (b : Box) :
  label_img s = label_img s0 -> main s = main s0 -> dirs (disk s) = dirs (disk s0) ->
  W (label_img s0) <> 0 -> H (label_img s0) <> 0 ->
  labeled b = true -> crop_ready s0 crop i [b] ->
  write_box i b s = (Return tt, on_disk (write_box_disk s0 crop i b) s).
Proof.
  intros El Em Ed HW HH Hb Hc. apply Nat.eqb_eq in Hb.
  destruct b as [|lx [|ly [|rx [|ry [|idx [|x b]]]]]]; try discriminate.
  cbv [write_box bind get modify getRatio]. rewrite El, Em.
  apply Z.eqb_neq in HW, HH. rewrite HW, HH.
  change (false || false) with false. cbv beta iota.
  unfold write_box_disk, sidecar, box_line.
  destruct crop as [[[dir ow] oh]|]; simpl in Hc.
  - destruct Hc as (Hcm & Hsd & Hdec & Hl & Hsv). rewrite Hcm, Hsd, Hdec. cbv beta iota.
    apply Forall_inv in Hl. unfold label_ok in Hl. simpl in Hl.
    destruct (py_index_valid _ _ Hl) as [name Hn].
    rewrite andb_true_r in Hsv. apply andb_true_iff in Hsv as [Hreg Hdir].
    apply bool_decide_eq_true in Hreg. destruct Hreg as [region Hreg].
    unfold box_crop, crop_path in *. rewrite Hreg. unfold box_region, box_rect in Hreg.
    change (last [lx; ly; rx; ry; idx]) with (Some idx) in *.
    change (default 0 (Some idx)) with idx in *.
    rewrite Hn in Hdir |- *. rewrite Hreg.
    change (default "" (Some name)) with name in *.
    rewrite save_crop_ok; [reflexivity|].
    rewrite (dir_exists_dirs _ (disk s0)); [exact Hdir|simpl; exact Ed].
  - rewrite Hc. reflexivity.
Qed.

Lemma crop_ready_cons (s : App) (crop : option (string * Z * Z)) (i : nat) (b : Box)
    (res : list Box) :
  crop_ready s crop i (b :: res) ->
  crop_ready s crop i [b] /\ crop_ready s crop (S i) res.
Proof.
  destruct crop as [[[dir ow] oh]|]; simpl; [|now split].
  intros (H1 & H2 & H3 & H4 & H5). inversion H4; subst.
  apply andb_true_iff in H5 as [H5 H6].
  repeat split; try assumption; [now apply Forall_singleton|now rewrite andb_true_r].
Qed.

Lemma write_box_disk_dirs (s : App) (crop : option (string * Z * Z)) (i : nat)
    (b : Box) (d : Disk) :
  dirs (write_box_disk s crop i b d) = dirs d.
Proof. unfold write_box_disk. destruct crop as [[[dir ow] oh]|]; reflexivity. Qed.

Lemma write_boxes_ok (s0 : App) (crop : option (string * Z * Z)) (res : list Box) :
  W (label_img s0) <> 0 -> H (label_img s0) <> 0 ->
  Forall (fun b => labeled b = true) res ->
  forall (i : nat) (s : App),
    crop_ready s0 crop i res ->
    label_img s = label_img s0 -> main s = main s0 -> dirs (disk s) = dirs (disk s0) ->
    write_boxes i res s = (Return tt, on_disk (write_boxes_disk s0 crop i res) s).
Proof.
  intros HW HH Hall. induction Hall as [|b res Hb Hres IH]; intros i s Hc El Em Ed.
  - simpl. unfold ret. destruct s; reflexivity.
  - apply crop_ready_cons in Hc as [Hc1 Hc2]. simpl write_boxes.
    rewrite (bind_Return _ _ _ _ _ (write_box_ok s0 s crop i b El Em Ed HW HH Hb Hc1)).
    cbv beta.
    rewrite (IH (S i) (on_disk (write_box_disk s0 crop i b) s) Hc2 El Em).
    + reflexivity.
    + simpl. now rewrite write_box_disk_dirs.
Qed.

Lemma string_app_assoc (a b c : string) : (a +:+ b) +:+ c = a +:+ (b +:+ c).
Proof.
  induction a as [|x a IH]; [reflexivity|].
  change (String x ((a +:+ b) +:+ c) = String x (a +:+ (b +:+ c))). now rewrite IH.
Qed.

(** The files, the directories and the crops after the boxes are written. *)
Lemma write_boxes_disk_dirs (s : App) (crop : option (string * Z * Z))
    (res : list Box) :
  forall i d, dirs (write_boxes_disk s crop i res d) = dirs d.
Proof.
  induction res as [|b res IH]; intros i d; [reflexivity|].
  simpl. rewrite IH. apply write_box_disk_dirs.
Qed.

Lemma write_boxes_disk_crops (s : App) (crop : option (string * Z * Z))
    (res : list Box) :
  forall i d,
    crops (write_boxes_disk s crop i res d) =
    crops d ++ match crop with
               | None => []
               | Some (dir, ow, oh) => boxes_crops s dir ow oh i res
               end.
Proof.
  induction res as [|b res IH]; intros i d.
  - simpl. destruct crop as [[[dir ow] oh]|]; now rewrite app_nil_r.
  - simpl write_boxes_disk. rewrite IH. unfold write_box_disk.
    destruct crop as [[[dir ow] oh]|]; simpl.
    + rewrite <- app_assoc. reflexivity.
    + reflexivity.
Qed.

Lemma write_box_disk_files (s : App) (crop : option (string * Z * Z)) (i : nat)
    (b : Box) (d : Disk) :
  files (write_box_disk s crop i b d)
  = <[sidecar s := default "" (files d !! sidecar s)
                   +:+ box_line (W (label_img s)) (H (label_img s)) b]> (files d).
Proof. unfold write_box_disk. destruct crop as [[[dir ow] oh]|]; reflexivity. Qed.

Lemma write_boxes_disk_files (s : App) (crop : option (string * Z * Z))
    (res : list Box) :
  res <> [] ->
  forall i d,
    files (write_boxes_disk s crop i res d)
    = <[sidecar s := default "" (files d !! sidecar s)
                     +:+ boxes_text (W (label_img s)) (H (label_img s)) res]> (files d).
Proof.
  induction res as [|b res IH]; intros Hne i d; [contradiction|].
  simpl write_boxes_disk. destruct res as [|b' res].
  - simpl. rewrite write_box_disk_files. simpl. now rewrite append_empty_r.
  - rewrite IH by discriminate. rewrite write_box_disk_files.
    rewrite lookup_insert_eq, insert_insert_eq. simpl default.
    now rewrite string_app_assoc.
Qed.

Lemma writeResults_ok (s : App) (crop : option (string * Z * Z)) (res : list Box) :
  fileName (parent s) <> "Ready" ->
  W (label_img s) <> 0 -> H (label_img s) <> 0 ->
  Forall (fun b => labeled b = true) res -> crop_ready s crop 0 res ->
  writeResults res s
  = (Return tt,
     on_disk (fun d => write_boxes_disk s crop 0 res
                         (match res with
                          | [] => append_file (sidecar s) "" d
                          | _ :: _ => d
                          end)) s).
Proof.
  intros Hr HW HH Hall Hc. unfold writeResults, bind at 1, get.
  destruct (String.eqb (fileName (parent s)) "Ready") eqn:E.
  { now apply String.eqb_eq in E. }
  simpl negb. cbv iota. destruct res as [|b res].
  - reflexivity.
  - exact (write_boxes_ok s crop (b :: res) HW HH Hall 0%nat s Hc eq_refl eq_refl eq_refl).
Qed.

Lemma commit_files (s : App) (crop : option (string * Z * Z)) (res : list Box)
    (d : Disk) :
  files (write_boxes_disk s crop 0 res
           (match res with
            | [] => append_file (sidecar s) "" d
            | _ :: _ => d
            end))
  = <[sidecar s := default "" (files d !! sidecar s)
                   +:+ boxes_text (W (label_img s)) (H (label_img s)) res]> (files d).
Proof.
  destruct res as [|b res]; [reflexivity|].
  now apply write_boxes_disk_files.
Qed.

(** X7. Outside crop mode, once an image is shown with a width and a
    height other than zero, the commit of boxes of five fields returns
    and leaves the sidecar file with its former content followed by one
    line per box, in the order of the list; no other file, no directory
    and no crop changes, and neither does the state of the widgets. *)
Theorem commit_appends_lines (s : App) (res : list Box) :
  fileName (parent s) <> "Ready" ->
  W (label_img s) <> 0 -> H (label_img s) <> 0 ->
  Forall (fun b => labeled b = true) res ->
  crop_mode (main s) = false ->
  let s' := state_after (writeResults res) s in
  outcome_of (writeResults res) s = Return tt
  /\ files (disk s')
     = <[sidecar s := default "" (files (disk s) !! sidecar s)
                      +:+ boxes_text (W (label_img s)) (H (label_img s)) res]>
         (files (disk s))
  /\ crops (disk s') = crops (disk s) /\ dirs (disk s') = dirs (disk s)
  /\ label_img s' = label_img s /\ main s' = main s /\ parent s' = parent s.
Proof.
  intros Hr HW HH Hall Hc s'. subst s'. unfold outcome_of, state_after.
  rewrite (writeResults_ok s None res Hr HW HH Hall Hc). simpl.
  rewrite commit_files, write_boxes_disk_crops, write_boxes_disk_dirs, app_nil_r.
  repeat split; now destruct res.
Qed.

Lemma boxes_crops_lookup (s : App) (dir : string) (ow oh : Z) (res : list Box) :
  forall (k i : nat),
    boxes_crops s dir ow oh k res !! i = box_crop s dir ow oh (k + i) <$> res !! i.
Proof.
  induction res as [|b res IH]; intros k i; [reflexivity|].
  destruct i as [|i]; simpl.
  - now rewrite Nat.add_0_r.
  - rewrite IH. now replace (S k + i)%nat with (k + S i)%nat by lia.
Qed.

Lemma boxes_crops_length (s : App) (dir : string) (ow oh : Z) (res : list Box) :
  forall k, length (boxes_crops s dir ow oh k res) = length res.
Proof. induction res as [|b res IH]; intros k; simpl; [reflexivity|now rewrite IH]. Qed.

Lemma crops_savable_lookup (s : App) (dir : string) (ow oh : Z) (res : list Box) :
  forall (k i : nat) (b : Box),
    crops_savable s dir ow oh k res = true -> res !! i = Some b ->
    is_Some (box_region s ow oh b)
    /\ dir_exists (disk s) (os_path_dirname (crop_path s dir (k + i) b)) = true.
Proof.
  induction res as [|b0 res IH]; intros k i b Hs Hi; [discriminate|].
  simpl in Hs. apply andb_true_iff in Hs as [Hs Hrest].
  apply andb_true_iff in Hs as [Hreg Hdir]. destruct i as [|i]; simpl in Hi.
  - injection Hi as <-. rewrite Nat.add_0_r. split; [|exact Hdir].
    now apply bool_decide_eq_true in Hreg.
  - replace (k + S i)%nat with (S k + i)%nat by lia. now apply IH.
Qed.

(** X8. In crop mode, with a save directory, an image the decoder reads
    and labels within [key_config], when no box gives an empty slice and
    the directory of every crop is on the disk, the commit also saves
    one crop per box, after the crops already there and in the order of
    the list: the crop of the box of ordinal [i] goes to
    [<save directory>/<image stem>-<label name>-<i>.jpg] and holds the
    region the slice cuts out of the decoded image at the rectangle
    computed against the decoded size. *)
Theorem commit_saves_crops (s : App) (res : list Box) (dir : string) (ow oh : Z) :
  fileName (parent s) <> "Ready" ->
  W (label_img s) <> 0 -> H (label_img s) <> 0 ->
  Forall (fun b => labeled b = true) res ->
  crop_mode (main s) = true ->
  save_directory (main s) = Some dir ->
  (forall d, imread_shape d (currentImg (main s)) = Some (oh, ow)) ->
  Forall (fun b => label_ok (key_config (main s)) b = true) res ->
  crops_savable s dir ow oh 0 res = true ->
  let s' := state_after (writeResults res) s in
  outcome_of (writeResults res) s = Return tt
  /\ crops (disk s') = crops (disk s) ++ boxes_crops s dir ow oh 0 res
  /\ length (crops (disk s')) = (length (crops (disk s)) + length res)%nat
  /\ (forall (i : nat) (lx ly rx ry idx : Z) (name : string),
        res !! i = Some [lx; ly; rx; ry; idx] ->
        py_index (key_config (main s)) idx = Some name ->
        exists region,
          cut_region (crop_rect (yolo_format lx ly rx ry idx
                                   (W (label_img s)) (H (label_img s))) ow oh) ow oh
          = Some region
          /\ crops (disk s') !! (length (crops (disk s)) + i)%nat
             = Some (os_path_join dir
                       (drop_last4 (os_path_basename (currentImg (main s))) +:+ "-"
                          +:+ name +:+ "-" +:+ pretty i +:+ ".jpg"),
                     region))
  /\ files (disk s')
     = <[sidecar s := default "" (files (disk s) !! sidecar s)
                      +:+ boxes_text (W (label_img s)) (H (label_img s)) res]>
         (files (disk s))
  /\ dirs (disk s') = dirs (disk s).
Proof.
  intros Hr HW HH Hall Hcm Hsd Hdec Hl Hsv s'. subst s'. unfold outcome_of, state_after.
  assert (Hc : crop_ready s (Some (dir, ow, oh)) 0 res) by (simpl; auto).
  rewrite (writeResults_ok s _ res Hr HW HH Hall Hc). simpl.
  rewrite commit_files, write_boxes_disk_crops, write_boxes_disk_dirs.
  assert (Hcr : crops (match res with
                       | [] => append_file (sidecar s) "" (disk s)
                       | _ :: _ => disk s
                       end) = crops (disk s)) by (now destruct res).
  rewrite Hcr. split; [reflexivity|]. split; [reflexivity|].
  split; [now rewrite length_app, boxes_crops_length|]. split; [|split].
  - intros i lx ly rx ry idx name Hi Hn.
    destruct (crops_savable_lookup s dir ow oh res 0 i _ Hsv Hi) as [[region Hreg] _].
    exists region. split; [exact Hreg|].
    rewrite lookup_app_r by lia.
    replace (length (crops (disk s)) + i - length (crops (disk s)))%nat with i by lia.
    rewrite boxes_crops_lookup, Hi. simpl. unfold box_crop, crop_path. rewrite Hreg.
    change (last [lx; ly; rx; ry; idx]) with (Some idx).
    change (default 0 (Some idx)) with idx. now rewrite Hn.
  - now destruct res.
  - now destruct res.
Qed.

Lemma writeResults_cons (s : App) (b : Box) (res : list Box) :
  fileName (parent s) <> "Ready" ->
  writeResults (b :: res) s = (write_box 0 b ;; write_boxes 1 res) s.
Proof.
  intros Hr. unfold writeResults. cbv [bind get].
  destruct (String.eqb (fileName (parent s)) "Ready") eqn:E.
  { now apply String.eqb_eq in E. }
  reflexivity.
Qed.

(** X9. When the displayed width or height is zero (the image could not
    be loaded), the commit of a list that starts with a box of five
    fields raises ZeroDivisionError before anything is written; a first
    box that has not five fields raises ValueError in the same way. *)
Theorem commit_first_box_errors (s : App) (b : Box) (res : list Box) :
  fileName (parent s) <> "Ready" ->
  (labeled b = true -> W (label_img s) = 0 \/ H (label_img s) = 0 ->
   writeResults (b :: res) s = (Raise ZeroDivisionError, s))
  /\ (labeled b = false -> writeResults (b :: res) s = (Raise ValueError, s)).
Proof.
  intros Hr. rewrite (writeResults_cons s b res Hr). split.
  - intros Hb Hz. apply Nat.eqb_eq in Hb.
    destruct b as [|lx [|ly [|rx [|ry [|idx [|x b]]]]]]; try discriminate.
    assert (Hzero : (W (label_img s) =? 0) || (H (label_img s) =? 0) = true).
    { apply orb_true_iff. destruct Hz as [-> | ->]; [now left|now right]. }
    apply bind_Raise. unfold write_box, bind, get, getRatio. now rewrite Hzero.
  - intros Hb. apply Nat.eqb_neq in Hb. apply bind_Raise.
    destruct b as [|lx [|ly [|rx [|ry [|idx [|x b]]]]]]; try reflexivity.
    exfalso. apply Hb. reflexivity.
Qed.

End Commit.

(** ** Resuming a session *)

Lemma preserves_get_all {A : Type} (I : App -> Prop) (k : App -> M A) :
  (forall s0, preserves I (k s0)) -> preserves I (bind get k).
Proof. intros Hk s Hs. now apply (Hk s s). Qed.

Lemma file_exists_append (p q txt : string) (s : App) :
  file_exists p s -> file_exists p (on_disk (append_file q txt) s).
Proof.
  unfold file_exists. simpl. intros H. destruct (decide (q = p)) as [->|Hne].
  - rewrite lookup_insert_eq. eauto.
  - now rewrite lookup_insert_ne.
Qed.

Ltac keep_step :=
  lazymatch goal with
  | |- preserves _ (ret _) => apply preserves_ret
  | |- preserves _ (raise _) => apply preserves_raise
  | |- preserves _ (save_crop _ _) => unfold save_crop
  | |- preserves _ (modify (on_disk (append_file _ _))) =>
      apply preserves_modify; intros ?; apply file_exists_append
  | |- preserves _ (modify _) => apply preserves_modify; intros ? ?; assumption
  | |- preserves _ (bind get _) => apply preserves_get_all; intros ?
  | |- preserves _ (bind _ _) => apply preserves_bind; [|intros ?]
  | |- preserves _ (match ?x with _ => _ end) => destruct x
  end.

Section Resume.
Context {host : Host}.

Lemma write_box_keeps (p : string) (i : nat) (b : Box) :
  preserves (file_exists p) (write_box i b).
Proof. unfold write_box. repeat keep_step. Qed.

Lemma write_boxes_keeps (p : string) (res : list Box) :
  forall i, preserves (file_exists p) (write_boxes i res).
Proof.
  induction res as [|b res IH]; intros i; simpl; [apply preserves_ret|].
  apply preserves_bind; [apply write_box_keeps|intros _; apply IH].
Qed.

Lemma write_box_wrote (i : nat) (b : Box) (s : App) :
  outcome_of (write_box i b) s = Return tt ->
  file_exists (sidecar s) (state_after (write_box i b) s).
Proof.
  unfold write_box.
  destruct b as [|lx [|ly [|rx [|ry [|idx [|x b]]]]]]; try discriminate.
  rewrite outcome_of_get, state_after_get. unfold getRatio.
  destruct ((W (label_img s) =? 0) || (H (label_img s) =? 0)); [discriminate|].
  intros _. rewrite state_after_modify.
  match goal with
  | |- file_exists _ (state_after ?k ?s1) =>
      assert (Hk : preserves (file_exists (sidecar s)) k) by (repeat keep_step);
      apply Hk
  end.
  unfold file_exists, sidecar. simpl. rewrite lookup_insert_eq. eauto.
Qed.

Lemma writeResults_wrote (res : list Box) (s : App) :
  fileName (parent s) <> "Ready" ->
  outcome_of (writeResults res) s = Return tt ->
  file_exists (sidecar s) (state_after (writeResults res) s).
Proof.
  intros Hr. destruct res as [|b res].
  - intros _. unfold writeResults, state_after. cbv [bind get].
    destruct (String.eqb (fileName (parent s)) "Ready") eqn:E.
    { now apply String.eqb_eq in E. }
    unfold file_exists, sidecar. simpl. rewrite lookup_insert_eq. eauto.
  - unfold outcome_of, state_after. rewrite (writeResults_cons s b res Hr).
    fold (outcome_of (write_box 0 b ;; write_boxes 1 res) s).
    fold (state_after (write_box 0 b ;; write_boxes 1 res) s).
    rewrite outcome_of_bind, state_after_bind.
    destruct (outcome_of (write_box 0 b) s) as [[]|e] eqn:Eo; [|discriminate].
    intros _. apply write_boxes_keeps. now apply write_box_wrote.
Qed.

Lemma file_exists_sidecar (s s' : App) :
  file_exists (sidecar s) s' -> already_labelled (disk s') (currentImg (main s)).
Proof.
  unfold file_exists, sidecar, sidecar_exists, os_path_exists. intros H.
  now rewrite (bool_decide_eq_true_2 _ H).
Qed.

(** X10. The sidecar file is the resume marker: once an image is shown,
    a commit that returns leaves a sidecar file for the current image,
    whatever the boxes, so that no later scan, of any directory, puts
    this image in the queue again. *)
Theorem committed_image_is_skipped (s : App) (res : list Box) :
  fileName (parent s) <> "Ready" ->
  outcome_of (writeResults res) s = Return tt ->
  let s' := state_after (writeResults res) s in
  already_labelled (disk s') (currentImg (main s))
  /\ (forall (directory : string) (s2 : App),
        disk s2 = disk s' ->
        forall q, imgList (main (state_after (scan directory) s2)) = Some q ->
                  currentImg (main s) ∉ q).
Proof.
  intros Hr Ho s'.
  assert (Hl : already_labelled (disk s') (currentImg (main s))).
  { apply file_exists_sidecar. now apply writeResults_wrote. }
  split; [exact Hl|].
  intros directory s2 Hd q Hq.
  assert (Hscan : imgList (main (state_after (scan directory) s2))
                  = Some (remaining (disk s2) directory)).
  { unfold scan, state_after, bind, get, modify. cbv beta iota zeta.
    rewrite (remove_all_filter
               (fun p => sidecar_exists (disk s2) p = true)
               (glob (disk s2) (directory +:+ "/" +:+ "*.jpg")
                ++ glob (disk s2) (directory +:+ "/" +:+ "*.png"))).
    reflexivity. }
  rewrite Hscan in Hq. injection Hq as <-.
  unfold remaining. rewrite list_elem_of_filter, Hd. intros [Hn _]. now apply Hn.
Qed.

End Resume.

(** ** Only [setNextImage] writes *)

Lemma unchanged_mouseReleaseEvent_disk (button : MouseButton) (pos : Z * Z) :
  unchanged disk (mouseReleaseEvent button pos).
Proof. unfold mouseReleaseEvent. frame_more. Qed.

Lemma unchanged_mousePressEvent_disk (button : MouseButton) (pos : Z * Z) :
  unchanged disk (mousePressEvent button pos).
Proof. unfold mousePressEvent. frame_more. Qed.

Lemma unchanged_cancelLast_disk : unchanged disk cancelLast.
Proof. unfold cancelLast. frame_more. Qed.

Lemma unchanged_markBox_disk (idx : Z) : unchanged disk (markBox idx).
Proof. unfold markBox. frame_more. Qed.

Lemma unchanged_mark_by_key_disk (key n : Z) (ks : list (Z * Z)) :
  unchanged disk (mark_by_key key n ks).
Proof.
  induction ks as [|[i key_n] ks IH]; simpl; [apply unchanged_ret|].
  destruct (_ && _); [apply unchanged_markBox_disk|exact IH].
Qed.

Section OnlyAdvanceWrites.
Context {host : Host}.

Lemma unchanged_registerInputPath_disk (d : string) :
  unchanged disk (registerInputPath d).
Proof. unfold registerInputPath, scan. frame_more. Qed.

Lemma unchanged_registerSavePath_disk (d : string) :
  unchanged disk (registerSavePath d).
Proof. unfold registerSavePath. frame_more. Qed.

Lemma unchanged_cropMode_disk (st : Z) : unchanged disk (cropMode st).
Proof. unfold cropMode. frame_more. Qed.

Lemma unchanged_keyPressEvent_disk (key : Z) :
  key <> Key_E -> unchanged disk (keyPressEvent key).
Proof.
  intros Hk. unfold keyPressEvent. apply unchanged_get. intros s.
  apply unchanged_bind; [apply unchanged_mark_by_key_disk|intros _].
  destruct (key =? Key_Escape); [apply unchanged_cancelLast_disk|].
  destruct (key =? Key_E) eqn:E; [now apply Z.eqb_eq in E|].
  frame_more.
Qed.

(** X11. Nothing reaches the disk before the user moves on: every event
    other than the Next button and the E key leaves the files, the
    directories and the crops as they are, whether its handler returns
    or raises. *)
Theorem disk_written_only_by_advance (e : Event) (s : App) :
  is_advance e = false -> disk (state_after (handle e) s) = disk s.
Proof.
  destruct e; simpl is_advance; intros Ha; try discriminate; cbv [handle].
  - apply unchanged_mousePressEvent_disk.
  - apply unchanged_mouseReleaseEvent_disk.
  - apply unchanged_keyPressEvent_disk. now apply Z.eqb_neq.
  - apply unchanged_cancelLast_disk.
  - apply unchanged_cropMode_disk.
  - apply (unchanged_bind disk);
      [apply unchanged_registerInputPath_disk|intros; apply unchanged_ret].
  - apply unchanged_registerSavePath_disk.
Qed.

End OnlyAdvanceWrites.

(** ** Drawing and labelling, then moving on *)

(** X12. In Manual mode with nothing pending, a release followed by a
    label stores the rectangle with that label after the boxes already
    there, and leaves no box unlabelled, so that [setNextImage] will not
    be refused; in Auto mode the release alone has that effect. *)
Theorem drawn_and_labelled (s : App) (pos : Z * Z) (idx : Z) :
  store_inv (store s) = true ->
  pos <> lastPoint (label_img s) ->
  (autoLabel (parent s) = ManualLabel -> last_has_len 4 (store s) = false ->
   let s1 := state_after (finalize pos) s in
   let s2 := state_after (markBox idx) s1 in
   last_not_marked (store s1) = true
   /\ store s2 = store s ++ [rect_of (lastPoint (label_img s)) pos ++ [idx]]
   /\ last_not_marked (store s2) = false)
  /\ (autoLabel (parent s) = AutoLabel ->
      last_not_marked (store (state_after (finalize pos) s)) = false).
Proof.
  intros Hinv Hne. split.
  - intros Hm H4 s1 s2.
    destruct (finalize_manual s pos Hm H4 Hne) as (E1 & _). fold s1 in E1.
    assert (E2 : store s2 = store s ++ [rect_of (lastPoint (label_img s)) pos ++ [idx]]).
    { subst s2. now rewrite (markBox_last idx s1 _ _ E1 eq_refl). }
    rewrite E1, E2. unfold last_not_marked. rewrite !last_snoc. now split.
  - intros Hm. destruct (finalize_auto s pos Hm Hne) as (E & _). rewrite E.
    assert (Hall : Forall (fun b => labeled b = true)
                     (backfill (last_idx (label_img s))
                        (store s ++ [rect_of (lastPoint (label_img s)) pos
                                     ++ [last_idx (label_img s)]]))).
    { apply backfill_labeled, Forall_app. split.
      - now apply store_inv_well_shaped.
      - apply Forall_singleton. reflexivity. }
    unfold last_not_marked.
    destruct (last _) as [b|] eqn:El; [|reflexivity].
    apply last_Some in El as [pre El]. rewrite El in Hall.
    apply Forall_app in Hall as [_ Hb]. apply Forall_inv in Hb.
    unfold labeled in Hb. now rewrite Hb.
Qed.

(** ** The save directory *)

Ltac peel_char H b :=
  let c := fresh "c" in
  destruct b as [|c b];
  [ vm_compute in H; discriminate
  | match type of H with
    | _ = ?r => change (String c (b +:+ "/") = r) in H
    end;
    injection H as _ H ].

Lemma slash_is_not_Results (b : string) : b +:+ "/" <> "Results".
Proof.
  intros H. do 7 (peel_char H b).
  destruct b; vm_compute in H; discriminate.
Qed.

Section SavePath.
Context {host : Host}.

(** The scan returns, with the total and the queue of the directory. *)
Lemma scan_run (directory : string) (s : App) :
  scan directory s
  = (Return tt,
     on_main (fun m =>
       set_imgList (Some (remaining (disk s) directory))
         (set_total_imgs (Some (Z.of_nat (length (eligible (disk s) directory))))
            (set_imgList (Some (eligible (disk s) directory)) m))) s).
Proof.
  unfold scan, bind, get, modify. cbv beta iota zeta.
  assert (Hf : glob (disk s) (directory +:+ "/" +:+ "*.jpg")
               ++ glob (disk s) (directory +:+ "/" +:+ "*.png")
               = eligible (disk s) directory) by reflexivity.
  rewrite Hf.
  rewrite (remove_all_filter (fun p => sidecar_exists (disk s) p = true)
             (eligible (disk s) directory)).
  reflexivity.
Qed.

Lemma registerSavePath_run (d : string) (s : App) :
  let s' := state_after (registerSavePath d) s in
  (os_path_basename d <> "" ->
   save_directory (main s') = Some d
   /\ savePathLabel (main s') = os_path_basename d +:+ "/")
  /\ (os_path_basename d = "" ->
      save_directory (main s') = None
      /\ savePathLabel (main s') = savePathLabel (main s)).
Proof.
  unfold registerSavePath, state_after, bind, modify, print_line. simpl. split.
  - intros Hb. destruct (String.eqb (os_path_basename d) "") eqn:E.
    { now apply String.eqb_eq in E. }
    simpl. now split.
  - intros ->. simpl. now split.
Qed.

Lemma registerInputPath_save (d2 : string) (s : App) :
  os_path_basename d2 <> "" ->
  let s' := state_after (registerInputPath d2) s in
  (save_directory (main s) = None \/ savePathLabel (main s) = "Results" ->
   save_directory (main s') = Some (os_path_join d2 "Results")
   /\ savePathLabel (main s') = "Results")
  /\ (save_directory (main s) <> None -> savePathLabel (main s) <> "Results" ->
      save_directory (main s') = save_directory (main s)
      /\ savePathLabel (main s') = savePathLabel (main s)).
Proof.
  intros Hb. unfold registerInputPath.
  destruct (String.eqb (os_path_basename d2) "") eqn:E.
  { now apply String.eqb_eq in E. }
  unfold state_after. rewrite (bind_Return _ _ _ _ _ (scan_run d2 s)).
  cbv [bind get modify ret]. simpl. split.
  - intros [Hn|Hl].
    + rewrite Hn. simpl. now split.
    + rewrite Hl, orb_true_r. simpl. now split.
  - intros Hn Hl.
    destruct (save_directory (main s)) as [sd|] eqn:Esd; [|contradiction].
    apply String.eqb_neq in Hl. rewrite Hl. simpl. now split.
Qed.

(** X13. The save directory. A directory chosen in the save dialog is
    kept when an input directory is chosen afterwards; as long as none
    was chosen the save directory follows the input directory as its
    [Results] subdirectory; and dismissing the save dialog leaves no save
    directory at all while the label keeps its text. *)
Theorem save_directory_rules (s : App) (d d2 : string) :
  os_path_basename d2 <> "" ->
  (os_path_basename d <> "" ->
   let s2 := state_after (registerInputPath d2) (state_after (registerSavePath d) s) in
   save_directory (main s2) = Some d
   /\ savePathLabel (main s2) = os_path_basename d +:+ "/")
  /\ (save_directory (main s) = None \/ savePathLabel (main s) = "Results" ->
      let s2 := state_after (registerInputPath d2) s in
      save_directory (main s2) = Some (os_path_join d2 "Results")
      /\ savePathLabel (main s2) = "Results")
  /\ (os_path_basename d = "" ->
      let s1 := state_after (registerSavePath d) s in
      save_directory (main s1) = None
      /\ savePathLabel (main s1) = savePathLabel (main s)).
Proof.
  intros Hb2. split; [|split].
  - intros Hb s2. subst s2.
    destruct (registerSavePath_run d s) as [H1 _]. destruct (H1 Hb) as [Hsd Hl].
    destruct (registerInputPath_save d2 (state_after (registerSavePath d) s) Hb2)
      as [_ H2].
    rewrite <- Hsd, <- Hl. apply H2.
    + now rewrite Hsd.
    + rewrite Hl. apply slash_is_not_Results.
  - intros Hc. now apply registerInputPath_save.
  - intros Hb. now apply registerSavePath_run.
Qed.

End SavePath.

(** ** The labels of the configuration *)

Lemma collect_keys_Some (cfg : gmap string string) (range : list nat) :
  (forall i, i ∈ range -> is_Some (cfg !! config_key i)) ->
  collect_keys cfg range
  = Some (filter (fun v => v <> "") (omap (fun i => cfg !! config_key i) range)).
Proof.
  induction range as [|i range IH]; intros Hall; [reflexivity|].
  destruct (Hall i) as [v Hv]; [left|].
  simpl. rewrite Hv, IH by (intros j Hj; apply Hall; now right).
  destruct (String.eqb v "") eqn:E.
  - apply String.eqb_eq in E. subst v. now rewrite filter_cons_False by tauto.
  - apply String.eqb_neq in E. now rewrite filter_cons_True by exact E.
Qed.

Lemma collect_keys_None (cfg : gmap string string) (range : list nat) (i : nat) :
  i ∈ range -> cfg !! config_key i = None -> collect_keys cfg range = None.
Proof.
  induction range as [|j range IH]; intros Hi Hn; [now apply elem_of_nil in Hi|].
  simpl. apply elem_of_cons in Hi as [->|Hi].
  - now rewrite Hn.
  - destruct (cfg !! config_key j); [|reflexivity]. now rewrite IH.
Qed.

Lemma omap_length_le {A B : Type} (f : A -> option B) (l : list A) :
  (length (omap f l) <= length l)%nat.
Proof.
  induction l as [|x l IH]; [reflexivity|].
  csimpl. destruct (f x); simpl; lia.
Qed.

(** X14. The labels are read from the nine entries [key_1] to [key_9] of
    the configuration: when all nine are there, [key_config] is the list
    of the non-empty ones in that order, so it has at most nine labels
    and none is empty; when one is missing, whatever the others hold,
    the program stops with KeyError. *)
Theorem key_config_of_configuration (cfg : gmap string string) :
  ((forall i, (1 <= i <= 9)%nat -> is_Some (cfg !! config_key i)) ->
   exists keys,
     load_key_config cfg = Some keys
     /\ keys = filter (fun v => v <> "")
                 (omap (fun i => cfg !! config_key i) (seq 1 9))
     /\ (length keys <= 9)%nat
     /\ Forall (fun v => v <> "") keys)
  /\ (forall i, (1 <= i <= 9)%nat -> cfg !! config_key i = None ->
      load_key_config cfg = None /\ forall screen d, startup screen cfg d = None).
Proof.
  split.
  - intros Hall. eexists. split; [|split; [reflexivity|split]].
    + apply collect_keys_Some. intros i Hi. apply Hall.
      apply elem_of_seq in Hi. lia.
    + etransitivity; [apply length_filter|].
      etransitivity; [apply omap_length_le|]. now rewrite length_seq.
    + apply Forall_forall. intros v Hv. now apply list_elem_of_filter in Hv.
  - intros i Hi Hn.
    assert (E : load_key_config cfg = None).
    { apply (collect_keys_None cfg _ i); [|exact Hn]. apply elem_of_seq. lia. }
    split; [exact E|]. intros screen d. unfold startup. now rewrite E.
Qed.

(** ** The queue and the progress *)

Lemma preserves_unchanged_main {A : Type} (I : MainWidget -> Prop) (m : M A) :
  unchanged main m -> preserves (fun s => I (main s)) m.
Proof. intros U s Hs. now rewrite U. Qed.

Lemma unchanged_mouseReleaseEvent_main (button : MouseButton) (pos : Z * Z) :
  unchanged main (mouseReleaseEvent button pos).
Proof. unfold mouseReleaseEvent. frame_more. Qed.

Lemma unchanged_mousePressEvent_main (button : MouseButton) (pos : Z * Z) :
  unchanged main (mousePressEvent button pos).
Proof. unfold mousePressEvent. frame_more. Qed.

Lemma unchanged_cancelLast_main : unchanged main cancelLast.
Proof. unfold cancelLast. frame_more. Qed.

Lemma unchanged_markBox_main (idx : Z) : unchanged main (markBox idx).
Proof. unfold markBox. frame_more. Qed.

Lemma unchanged_mark_by_key_main (key n : Z) (ks : list (Z * Z)) :
  unchanged main (mark_by_key key n ks).
Proof.
  induction ks as [|[i key_n] ks IH]; simpl; [apply unchanged_ret|].
  destruct (_ && _); [apply unchanged_markBox_main|exact IH].
Qed.

(** The queue and the total. *)
Lemma queue_inv_main (s s' : App) :
  imgList (main s') = imgList (main s) -> total_imgs (main s') = total_imgs (main s) ->
  queue_inv s = true -> queue_inv s' = true.
Proof. unfold queue_inv. now intros -> ->. Qed.

Section Queue.
Context {host : Host}.

Lemma pop_next_queue_inv : preserves (fun s => queue_inv s = true) pop_next.
Proof.
  intros s. unfold pop_next, state_after, bind, get, modify, queue_inv.
  destruct (imgList (main s)) as [[|p rest]|] eqn:E; simpl; rewrite ?E; try tauto.
  destruct (total_imgs (main s)); [|discriminate].
  intros H. apply Z.leb_le in H. apply Z.leb_le. simpl length in H. lia.
Qed.

Lemma setNextImage_queue_inv (img : option string) :
  preserves (fun s => queue_inv s = true) (setNextImage img).
Proof.
  assert (Hmain : forall (A : Type) (m : M A),
            unchanged main m -> preserves (fun s => queue_inv s = true) m).
  { intros A m U s Hs. apply (queue_inv_main s); [now rewrite U..|exact Hs]. }
  unfold setNextImage.
  apply preserves_bind; [apply Hmain, unchanged_ensure_main|intros _].
  destruct (falsy img).
  - apply preserves_get_all. intros s0.
    destruct (last_not_marked (getResult s0)).
    + apply Hmain. unfold showPopupOk. frame_more.
    + apply preserves_bind; [apply Hmain, unchanged_writeResults_main|intros _].
      apply preserves_bind; [apply Hmain; unfold resetResult; frame_more|intros _].
      apply preserves_bind; [apply pop_next_queue_inv|intros _].
      apply preserves_bind; [apply Hmain, unchanged_show_current_main|intros _].
      apply preserves_ret.
  - apply preserves_bind; [apply Hmain; unfold resetResult; frame_more|intros _].
    apply preserves_bind; [apply Hmain, unchanged_show_current_main|intros _].
    apply preserves_ret.
Qed.

Lemma registerInputPath_queue_inv (d : string) :
  preserves (fun s => queue_inv s = true) (registerInputPath d).
Proof.
  intros s Hs. unfold registerInputPath.
  destruct (String.eqb (os_path_basename d) "").
  { exact Hs. }
  unfold state_after. rewrite (bind_Return _ _ _ _ _ (scan_run d s)).
  cbv [bind get modify ret].
  assert (Hle : (Z.of_nat (length (remaining (disk s) d))
                 <=? Z.of_nat (length (eligible (disk s) d))) = true).
  { apply Z.leb_le. unfold remaining. pose proof (length_filter
      (fun p => ~ already_labelled (disk s) p) (eligible (disk s) d)). lia. }
  destruct (_ || _); unfold queue_inv; simpl; exact Hle.
Qed.

Lemma handle_queue_inv (e : Event) :
  preserves (fun s => queue_inv s = true) (handle e).
Proof.
  assert (Hmain : forall (A : Type) (m : M A),
            unchanged main m -> preserves (fun s => queue_inv s = true) m).
  { intros A m U s Hs. apply (queue_inv_main s); [now rewrite U..|exact Hs]. }
  destruct e; cbv [handle].
  - apply Hmain, unchanged_mousePressEvent_main.
  - apply Hmain, unchanged_mouseReleaseEvent_main.
  - unfold keyPressEvent. apply preserves_get_all. intros s0.
    apply preserves_bind; [apply Hmain, unchanged_mark_by_key_main|intros _].
    destruct (key =? Key_Escape); [apply Hmain, unchanged_cancelLast_main|].
    destruct (key =? Key_E).
    { apply preserves_bind; [apply setNextImage_queue_inv|intros; apply preserves_ret]. }
    destruct (key =? Key_Q); [apply Hmain; frame_more|].
    destruct (key =? Key_A); [apply Hmain; frame_more|apply preserves_ret].
  - apply preserves_bind; [apply setNextImage_queue_inv|intros; apply preserves_ret].
  - apply Hmain, unchanged_cancelLast_main.
  - unfold cropMode. intros s Hs.
    destruct (state =? Qt_Checked); exact Hs.
  - apply preserves_bind; [apply registerInputPath_queue_inv|intros; apply preserves_ret].
  - intros s Hs. unfold registerSavePath, state_after, bind, modify, print_line.
    simpl. destruct (negb _); exact Hs.
Qed.

(** The status bar after [show_current] has returned. *)
Lemma show_current_returns (s : App) (a : unit) :
  outcome_of show_current s = Return a ->
  exists l total,
    imgList (main s) = Some l /\ total_imgs (main s) = Some total
    /\ progress (parent (state_after show_current s))
       = pretty (total - Z.of_nat (length l)) +:+ "/" +:+ pretty total
    /\ fileName (parent (state_after show_current s))
       = os_path_basename (currentImg (main s)).
Proof.
  unfold show_current. rewrite outcome_of_get, state_after_get.
  rewrite outcome_of_modify, state_after_modify.
  destruct (total_imgs (main s)) as [total|]; [|discriminate].
  destruct (imgList (main s)) as [l|]; [|discriminate].
  intros _. exists l, total. split; [reflexivity|]. split; [reflexivity|].
  rewrite state_after_modify.
  assert (Hp : unchanged (fun s => (progress (parent s), fileName (parent s)))
                 (setPixmap (currentImg (main s)))).
  { unfold setPixmap. frame_more. }
  match goal with
  | |- context [state_after (setPixmap ?fn) ?s1] =>
      pose proof (Hp s1) as E
  end.
  injection E as E1 E2. rewrite E1, E2. now split.
Qed.

(** X15. The queue is never longer than the total counted by the scan,
    and both exist together, in every state of a session; when
    [setNextImage] has returned after a commit, the status bar shows the
    name of the new current image and the progress
    [total - remaining / total], a number of images between 0 and the
    total. *)
Theorem queue_and_progress :
  (forall (e : Event) (s : App),
     queue_inv s = true -> queue_inv (state_after (handle e) s) = true)
  /\ (forall (es : list Event) (screen : Z) (keys : list string) (d : Disk),
        queue_inv (run_events es (initial_App screen keys d)) = true)
  /\ (forall s : App,
        queue_inv s = true ->
        outcome_of advance s = Return None ->
        let s' := state_after advance s in
        exists l total,
          imgList (main s') = Some l /\ total_imgs (main s') = Some total
          /\ 0 <= total - Z.of_nat (length l) <= total
          /\ progress (parent s')
             = pretty (total - Z.of_nat (length l)) +:+ "/" +:+ pretty total
          /\ fileName (parent s') = os_path_basename (currentImg (main s'))).
Proof.
  split; [|split].
  - intros e s. apply handle_queue_inv.
  - intros es screen keys d.
    apply (run_events_invariant (fun s => queue_inv s = true) handle_queue_inv).
    reflexivity.
  - intros s Hq Ho s'.
    pose proof (setNextImage_queue_inv None s Hq) as Hq'. fold advance in Hq'. fold s' in Hq'.
    revert Ho Hq'. subst s'. unfold advance, setNextImage.
    change (falsy None) with true. cbv iota.
    rewrite outcome_of_bind, state_after_bind.
    destruct (outcome_of ensure_save_directory s) as [[]|]; [|discriminate].
    set (s0 := state_after ensure_save_directory s).
    rewrite outcome_of_get, state_after_get.
    destruct (last_not_marked (getResult s0)).
    { discriminate. }
    rewrite outcome_of_bind, state_after_bind.
    destruct (outcome_of (writeResults (getResult s0)) s0) as [[]|]; [|discriminate].
    set (s1 := state_after (writeResults (getResult s0)) s0).
    rewrite outcome_of_bind, state_after_bind.
    change (outcome_of resetResult s1) with (@Return unit tt). cbv iota.
    set (s2 := state_after resetResult s1).
    rewrite outcome_of_bind, state_after_bind.
    destruct (outcome_of pop_next s2) as [[]|]; [|discriminate].
    set (s3 := state_after pop_next s2).
    rewrite outcome_of_bind, state_after_bind.
    destruct (outcome_of show_current s3) as [[]|] eqn:Es; [|discriminate].
    intros _. change (state_after (ret None) ?x) with x.
    destruct (show_current_returns s3 tt Es) as (l & total & Hl & Ht & Hp & Hf).
    pose proof (unchanged_show_current_main s3) as Hm.
    intros Hq'. exists l, total. rewrite Hm.
    split; [exact Hl|]. split; [exact Ht|]. split.
    + unfold queue_inv in Hq'. rewrite Hm, Hl, Ht in Hq'. apply Z.leb_le in Hq'. lia.
    + now split.
Qed.

End Queue.

(** ** The first and the last [setNextImage] of a session *)

Section Ends.
Context {host : Host}.

Lemma writeResults_Ready (res : list Box) (s : App) :
  fileName (parent s) = "Ready" -> writeResults res s = (Return tt, s).
Proof. intros E. unfold writeResults. cbv [bind get]. now rewrite E. Qed.

Lemma advance_after_writer (s s1 : App) :
  last_not_marked (store s) = false ->
  (ensure_save_directory ;; writeResults (store s)) s = (Return tt, s1) ->
  advance s = (resetResult ;; pop_next ;; show_current ;; ret None) s1
  /\ main s1 = main s.
Proof.
  intros Hg Hw. split.
  - unfold advance. rewrite (setNextImage_commits s Hg), <- bind_assoc.
    now rewrite (bind_Return _ _ _ _ _ Hw).
  - rewrite <- (state_after_eq _ _ _ _ Hw).
    apply (unchanged_bind main); [apply unchanged_ensure_main|].
    intros _. apply unchanged_writeResults_main.
Qed.

(** X16. As long as no image has been shown (the status name is
    ['Ready']), [setNextImage] commits nothing, even when labelled boxes
    were drawn on the start picture. When lines 433-434 cannot make the
    save directory (crop mode on, the label reading ['Results'], no save
    directory set) it raises TypeError and changes nothing; in every
    other case the sidecar files and the crops are those of before, the
    boxes are dropped, and the first path of the queue, or ['end.png']
    when there is none, becomes the current image. *)
Theorem first_advance_writes_nothing (s : App) :
  fileName (parent s) = "Ready" ->
  last_not_marked (store s) = false ->
  (no_save_directory s = true -> advance s = (Raise TypeError, s))
  /\ (no_save_directory s = false ->
      let s' := state_after advance s in
      files (disk s') = files (disk s) /\ crops (disk s') = crops (disk s)
      /\ store s' = []
      /\ match imgList (main s) with
         | Some (p :: rest) => currentImg (main s') = p /\ imgList (main s') = Some rest
         | _ => currentImg (main s') = "end.png" /\ imgList (main s') = imgList (main s)
         end).
Proof.
  intros Hr Hg. split; [apply advance_no_save_directory|]. intros Hn s'.
  set (s0 := state_after ensure_save_directory s).
  destruct (ensure_returns s Hn) as [Hens _]. fold s0 in Hens.
  assert (Hr0 : fileName (parent s0) = "Ready").
  { subst s0. now rewrite unchanged_ensure_parent. }
  assert (Hw : (ensure_save_directory ;; writeResults (store s)) s = (Return tt, s0)).
  { rewrite (bind_Return _ _ _ _ _ Hens). now apply writeResults_Ready. }
  destruct (advance_after_writer s s0 Hg Hw) as [Ha Hm].
  subst s'. unfold state_after. rewrite Ha.
  destruct (after_commit s0) as (Hs & Hd & Hq).
  unfold state_after in Hs, Hd, Hq. rewrite Hs, Hd. rewrite Hm in Hq.
  split; [apply (unchanged_ensure_files s)|].
  split; [apply (unchanged_ensure_crops s)|]. split; [reflexivity|exact Hq].
Qed.

(** X17. When no input directory was ever chosen, [setNextImage] does
    not stop at the missing queue: it switches to ['end.png'], drops the
    boxes, names the picture in the status bar, and only then raises
    AttributeError on the progress, for want of a total. *)
Theorem advance_without_input_directory (s s1 : App) :
  imgList (main s) = None ->
  last_not_marked (store s) = false ->
  (ensure_save_directory ;; writeResults (store s)) s = (Return tt, s1) ->
  let s' := state_after advance s in
  outcome_of advance s = Raise AttributeError
  /\ currentImg (main s') = "end.png" /\ fileName (parent s') = "end.png"
  /\ store s' = [] /\ disk s' = disk s1.
Proof.
  intros Hn Hg Hw s'. destruct (advance_after_writer s s1 Hg Hw) as [Ha Hm].
  subst s'. unfold outcome_of, state_after. rewrite Ha.
  rewrite <- Hm in Hn.
  cbv [bind resetResult pop_next show_current get modify ret]. simpl.
  rewrite Hn. simpl. rewrite Hn.
  destruct (total_imgs (main s1)); simpl; repeat split.
Qed.

(** X18. When the queue is empty, [setNextImage] reaches the placeholder:
    the current image and the status name become ['end.png'], the queue
    stays empty and the progress reads [total/total]. *)
Theorem advance_on_empty_queue (s s1 : App) (total : Z) :
  imgList (main s) = Some [] -> total_imgs (main s) = Some total ->
  last_not_marked (store s) = false ->
  (ensure_save_directory ;; writeResults (store s)) s = (Return tt, s1) ->
  let s' := state_after advance s in
  currentImg (main s') = "end.png" /\ imgList (main s') = Some []
  /\ fileName (parent s') = "end.png"
  /\ progress (parent s') = pretty total +:+ "/" +:+ pretty total
  /\ store s' = [] /\ disk s' = disk s1.
Proof.
  intros Hl Ht Hg Hw s'. destruct (advance_after_writer s s1 Hg Hw) as [Ha Hm].
  rewrite <- Hm in Hl, Ht.
  destruct (after_commit s1) as (Hs & Hd & Hq). rewrite Hl in Hq. destruct Hq as [Hc Hi].
  subst s'. unfold state_after in *. rewrite Ha.
  split; [exact Hc|]. split; [exact Hi|].
  assert (Hp : fileName (parent ((resetResult ;; pop_next ;; show_current ;;
                                  ret (@None string)) s1).2) = "end.png"
               /\ progress (parent ((resetResult ;; pop_next ;; show_current ;;
                                     ret (@None string)) s1).2)
                  = pretty total +:+ "/" +:+ pretty total).
  { change ((resetResult ;; pop_next ;; show_current ;; ret (@None string)) s1)
      with ((pop_next ;; show_current ;; ret (@None string))
              (on_label_img (set_results []) s1)).
    set (s2 := on_label_img (set_results []) s1).
    assert (Hpop : pop_next s2 = (Return tt, on_main (set_currentImg "end.png") s2)).
    { unfold pop_next, bind, get, modify. simpl. now rewrite Hl. }
    rewrite (bind_Return _ _ _ _ _ Hpop).
    set (s3 := on_main (set_currentImg "end.png") s2).
    fold (state_after (show_current ;; ret (@None string)) s3).
    rewrite state_after_bind.
    assert (Hshow : fileName (parent (state_after show_current s3)) = "end.png"
                    /\ progress (parent (state_after show_current s3))
                       = pretty total +:+ "/" +:+ pretty total).
    { unfold show_current. rewrite state_after_get, state_after_modify.
      change (total_imgs (main s3)) with (total_imgs (main s1)).
      change (imgList (main s3)) with (imgList (main s1)).
      rewrite Ht, Hl. rewrite state_after_modify.
      assert (Hpx : unchanged (fun s => (progress (parent s), fileName (parent s)))
                      (setPixmap (currentImg (main s3)))).
      { unfold setPixmap. frame_more. }
      match goal with
      | |- context [state_after (setPixmap ?fn) ?sx] => pose proof (Hpx sx) as E
      end.
      split.
      - etransitivity; [exact (f_equal snd E)|reflexivity].
      - etransitivity; [exact (f_equal fst E)|]. simpl. now rewrite Z.sub_0_r. }
    destruct (outcome_of show_current s3); exact Hshow. }
  destruct Hp as [Hf Hp]. split; [exact Hf|]. split; [exact Hp|]. now split.
Qed.

End Ends.

(** * The further properties at work on the demonstration session *)

(** X1 at work: a right click at (7, 7), inside both boxes, removes the
    older one. *)
Lemma removeAt_first_hit_witness :
  store demo_overlap = [[0; 0; 10; 10; 0]; [5; 5; 20; 20; 1]]
  /\ store (state_after (mousePressEvent RightButton (7, 7)) demo_overlap)
     = [[5; 5; 20; 20; 1]].
Proof.
  split; [vm_compute; reflexivity|].
  assert (Hinv : store_inv (store demo_overlap) = true) by (vm_compute; reflexivity).
  destruct (removeAt_first_hit demo_overlap 7 7 Hinv) as [Hhit _].
  assert (H0 : store demo_overlap !! 0%nat = Some [0; 0; 10; 10; 0])
    by (vm_compute; reflexivity).
  destruct (Hhit 0%nat _ H0) as [E _].
  - vm_compute; reflexivity.
  - intros j b' Hj. lia.
  - rewrite E. vm_compute; reflexivity.
Defined.

(** X2 at work: a box drawn after the labelled one and taken back. *)
Lemma undo_after_release_witness :
  autoLabel (parent demo_marked) = ManualLabel
  /\ store (state_after cancelLast (state_after (finalize (3, 4)) demo_marked))
     = store demo_marked.
Proof.
  assert (Hm : autoLabel (parent demo_marked) = ManualLabel)
    by (vm_compute; reflexivity).
  assert (Hne : (3, 4) <> lastPoint (label_img demo_marked))
    by (vm_compute; discriminate).
  assert (H4 : last_has_len 4 (store demo_marked) = false)
    by (vm_compute; reflexivity).
  split; [exact Hm|].
  exact (proj1 (undo_after_release demo_marked (3, 4) Hne) Hm H4).
Defined.

(** X3 at work: key 1 then key 2 on the labelled box. *)
Lemma markBox_twice_witness :
  store_inv (store demo_marked) = true
  /\ store (state_after (markBox 1) (state_after (markBox 0) demo_marked))
     = store (state_after (markBox 1) demo_marked).
Proof.
  assert (Hinv : store_inv (store demo_marked) = true) by (vm_compute; reflexivity).
  split; [exact Hinv|]. exact (proj1 (markBox_twice 0 1 demo_marked Hinv)).
Defined.

(** X4 at work. *)
Lemma labels_in_range_witness :
  labels_inv demo_marked = true
  /\ labels_inv (state_after (@handle demo_host (KeyPress 49)) demo_marked) = true.
Proof.
  assert (H : labels_inv demo_marked = true) by (vm_compute; reflexivity).
  split; [exact H|].
  exact (proj1 (@labels_in_range demo_host) (KeyPress 49) demo_marked H).
Defined.

(** X5 at work. *)
Lemma drawing_handlers_return_witness :
  drawable demo_overlap = true
  /\ outcome_of (mousePressEvent RightButton (7, 7)) demo_overlap = Return tt.
Proof.
  assert (H : drawable demo_overlap = true) by (vm_compute; reflexivity).
  split; [exact H|].
  exact (proj1 (proj1 (@drawing_handlers_return demo_host) demo_overlap H)
               RightButton (7, 7)).
Defined.

(** X6 at work. *)
Lemma auto_release_without_labels_witness :
  key_config (main demo_no_labels) = []
  /\ outcome_of (finalize (5, 5)) demo_no_labels = Raise IndexError
  /\ store (state_after (finalize (5, 5)) demo_no_labels) = [[0; 0; 5; 5; 0]].
Proof.
  assert (Hk : key_config (main demo_no_labels) = []) by (vm_compute; reflexivity).
  assert (Hm : autoLabel (parent demo_no_labels) = AutoLabel)
    by (vm_compute; reflexivity).
  assert (Hinv : store_inv (store demo_no_labels) = true) by (vm_compute; reflexivity).
  assert (Hne : (5, 5) <> lastPoint (label_img demo_no_labels))
    by (vm_compute; discriminate).
  destruct (auto_release_without_labels demo_no_labels (5, 5) Hk Hm Hinv Hne) as [Ho Hs].
  split; [exact Hk|]. split; [exact Ho|]. rewrite Hs. vm_compute; reflexivity.
Defined.

(** X7 at work: the commit of the labelled box of [/data/a.jpg]. *)
Lemma commit_appends_lines_witness :
  fileName (parent demo_marked) <> "Ready"
  /\ files (disk (state_after (@writeResults demo_host (store demo_marked)) demo_marked))
       !! "/data/a.txt"
     = Some ("1 60/2000 100/1000 40/1000 60/500" +:+ newline).
Proof.
  assert (Hr : fileName (parent demo_marked) <> "Ready") by (vm_compute; discriminate).
  assert (HW : W (label_img demo_marked) <> 0) by (vm_compute; discriminate).
  assert (HH : H (label_img demo_marked) <> 0) by (vm_compute; discriminate).
  assert (Hall : Forall (fun b => labeled b = true) (store demo_marked))
    by (apply forallb_Forall_true; vm_compute; reflexivity).
  assert (Hc : crop_mode (main demo_marked) = false) by (vm_compute; reflexivity).
  destruct (@commit_appends_lines demo_host demo_marked (store demo_marked)
              Hr HW HH Hall Hc) as (_ & Hf & _).
  split; [exact Hr|]. rewrite Hf. vm_compute; reflexivity.
Defined.

(** X8 at work: the same commit in crop mode, the default save directory
    being there. *)
Lemma commit_saves_crops_witness :
  @crops_savable demo_host demo_crop_ready "/data/Results" 1000 500 0
    (store demo_crop_ready) = true
  /\ crops (disk (state_after (@writeResults demo_host (store demo_crop_ready))
                              demo_crop_ready))
     = [("/data/Results/a-dog-0.jpg", (10, 20, 40, 60))].
Proof.
  assert (Hr : fileName (parent demo_crop_ready) <> "Ready")
    by (vm_compute; discriminate).
  assert (HW : W (label_img demo_crop_ready) <> 0) by (vm_compute; discriminate).
  assert (HH : H (label_img demo_crop_ready) <> 0) by (vm_compute; discriminate).
  assert (Hall : Forall (fun b => labeled b = true) (store demo_crop_ready))
    by (apply forallb_Forall_true; vm_compute; reflexivity).
  assert (Hc : crop_mode (main demo_crop_ready) = true) by (vm_compute; reflexivity).
  assert (Hsd : save_directory (main demo_crop_ready) = Some "/data/Results")
    by (vm_compute; reflexivity).
  assert (Hdec : forall d, @imread_shape demo_host d (currentImg (main demo_crop_ready))
                           = Some (500, 1000))
    by (intros d; reflexivity).
  assert (Hl : Forall (fun b => label_ok (key_config (main demo_crop_ready)) b = true)
                 (store demo_crop_ready))
    by (apply forallb_Forall_true; vm_compute; reflexivity).
  assert (Hsv : @crops_savable demo_host demo_crop_ready "/data/Results" 1000 500 0
                  (store demo_crop_ready) = true)
    by (vm_compute; reflexivity).
  destruct (@commit_saves_crops demo_host demo_crop_ready (store demo_crop_ready)
              "/data/Results" 1000 500 Hr HW HH Hall Hc Hsd Hdec Hl Hsv) as (_ & Hcr & _).
  split; [exact Hsv|]. rewrite Hcr. vm_compute; reflexivity.
Defined.

(** X9 at work: the picture has no size. *)
Lemma commit_first_box_errors_witness :
  W (label_img demo_not_loaded) = 0
  /\ @writeResults demo_host (store demo_not_loaded) demo_not_loaded
     = (Raise ZeroDivisionError, demo_not_loaded).
Proof.
  assert (Hr : fileName (parent demo_not_loaded) <> "Ready")
    by (vm_compute; discriminate).
  assert (HW : W (label_img demo_not_loaded) = 0) by reflexivity.
  split; [exact HW|].
  change (store demo_not_loaded) with ([10; 20; 50; 80; 1] :: @nil Box).
  exact (proj1 (@commit_first_box_errors demo_host demo_not_loaded
                  [10; 20; 50; 80; 1] [] Hr) eq_refl (or_introl HW)).
Defined.

(** X10 at work. *)
Lemma committed_image_is_skipped_witness :
  currentImg (main demo_marked) = "/data/a.jpg"
  /\ already_labelled
       (disk (state_after (@writeResults demo_host (store demo_marked)) demo_marked))
       "/data/a.jpg".
Proof.
  assert (Hr : fileName (parent demo_marked) <> "Ready") by (vm_compute; discriminate).
  assert (Ho : outcome_of (@writeResults demo_host (store demo_marked)) demo_marked
               = Return tt) by (vm_compute; reflexivity).
  split; [vm_compute; reflexivity|].
  exact (proj1 (@committed_image_is_skipped demo_host demo_marked (store demo_marked)
                  Hr Ho)).
Defined.

(** X11 at work. *)
Lemma disk_written_only_by_advance_witness :
  is_advance (KeyPress 50) = false
  /\ disk (state_after (@handle demo_host (KeyPress 50)) demo_marked) = disk demo_marked.
Proof.
  split; [reflexivity|].
  exact (@disk_written_only_by_advance demo_host (KeyPress 50) demo_marked eq_refl).
Defined.

(** X12 at work: a second box on [/data/a.jpg], labelled [cat]. *)
Lemma drawn_and_labelled_witness :
  store_inv (store demo_marked) = true
  /\ store (state_after (markBox 0) (state_after (finalize (3, 4)) demo_marked))
     = [[10; 20; 50; 80; 1]; [3; 4; 10; 20; 0]].
Proof.
  assert (Hinv : store_inv (store demo_marked) = true) by (vm_compute; reflexivity).
  assert (Hne : (3, 4) <> lastPoint (label_img demo_marked))
    by (vm_compute; discriminate).
  assert (Hm : autoLabel (parent demo_marked) = ManualLabel)
    by (vm_compute; reflexivity).
  assert (H4 : last_has_len 4 (store demo_marked) = false)
    by (vm_compute; reflexivity).
  destruct (proj1 (drawn_and_labelled demo_marked (3, 4) 0 Hinv Hne) Hm H4)
    as (_ & E & _).
  split; [exact Hinv|]. rewrite E. vm_compute; reflexivity.
Defined.

(** X13 at work. *)
Lemma save_directory_rules_witness :
  os_path_basename "/data" <> ""
  /\ save_directory
       (main (state_after (@registerInputPath demo_host "/data")
                (state_after (registerSavePath "/out/crops") demo_start)))
     = Some "/out/crops".
Proof.
  assert (Hb2 : os_path_basename "/data" <> "") by (vm_compute; discriminate).
  assert (Hb : os_path_basename "/out/crops" <> "") by (vm_compute; discriminate).
  split; [exact Hb2|].
  exact (proj1 (proj1 (@save_directory_rules demo_host demo_start "/out/crops" "/data"
                         Hb2) Hb)).
Defined.

(** X14 at work. *)
Lemma key_config_of_configuration_witness :
  load_key_config demo_config = Some ["cat"; "dog"]
  /\ load_key_config (delete "key_7" demo_config) = None.
Proof.
  split; [vm_compute; reflexivity|].
  assert (H7 : (1 <= 7 <= 9)%nat) by lia.
  assert (Hn : delete "key_7" demo_config !! config_key 7 = None)
    by (vm_compute; reflexivity).
  exact (proj1 (proj2 (key_config_of_configuration (delete "key_7" demo_config))
                      7%nat H7 Hn)).
Defined.

(** X15 at work. *)
Lemma queue_and_progress_witness :
  queue_inv demo_marked = true
  /\ queue_inv (state_after (@handle demo_host NextClicked) demo_marked) = true.
Proof.
  assert (H : queue_inv demo_marked = true) by (vm_compute; reflexivity).
  split; [exact H|].
  exact (proj1 (@queue_and_progress demo_host) NextClicked demo_marked H).
Defined.

(** X16 at work: the first Next of the session. *)
Lemma first_advance_writes_nothing_witness :
  fileName (parent demo_chosen) = "Ready"
  /\ no_save_directory demo_chosen = false
  /\ files (disk (state_after (@advance demo_host) demo_chosen)) = files (disk demo_chosen)
  /\ currentImg (main (state_after (@advance demo_host) demo_chosen)) = "/data/a.jpg".
Proof.
  assert (Hr : fileName (parent demo_chosen) = "Ready") by (vm_compute; reflexivity).
  assert (Hg : last_not_marked (store demo_chosen) = false) by (vm_compute; reflexivity).
  assert (Hn : no_save_directory demo_chosen = false) by (vm_compute; reflexivity).
  destruct (proj2 (@first_advance_writes_nothing demo_host demo_chosen Hr Hg) Hn)
    as (Hf & _ & _ & Hq).
  split; [exact Hr|]. split; [exact Hn|]. split; [exact Hf|].
  change (imgList (main demo_chosen))
    with (Some ["/data/a.jpg"; "/data/c.jpg"; "/data/e.png"]) in Hq.
  exact (proj1 Hq).
Defined.

(** X17 at work: the E key before any directory is chosen. *)
Lemma advance_without_input_directory_witness :
  imgList (main demo_start) = None
  /\ outcome_of (@advance demo_host) demo_start = Raise AttributeError.
Proof.
  assert (Hn : imgList (main demo_start) = None) by reflexivity.
  assert (Hg : last_not_marked (store demo_start) = false) by reflexivity.
  assert (Hw : (ensure_save_directory ;; @writeResults demo_host (store demo_start))
                 demo_start = (Return tt, demo_start)) by reflexivity.
  split; [exact Hn|].
  exact (proj1 (@advance_without_input_directory demo_host demo_start demo_start
                  Hn Hg Hw)).
Defined.

(** X18 at work: Next on the last image of the directory. *)
Lemma advance_on_empty_queue_witness :
  imgList (main demo_last) = Some []
  /\ currentImg (main (state_after (@advance demo_host) demo_last)) = "end.png"
  /\ progress (parent (state_after (@advance demo_host) demo_last)) = "5/5".
Proof.
  assert (Hl : imgList (main demo_last) = Some []) by (vm_compute; reflexivity).
  assert (Ht : total_imgs (main demo_last) = Some 5) by (vm_compute; reflexivity).
  assert (Hg : last_not_marked (store demo_last) = false) by (vm_compute; reflexivity).
  assert (Hw : (ensure_save_directory ;; @writeResults demo_host (store demo_last))
                 demo_last
               = (Return tt,
                  state_after (ensure_save_directory ;;
                               @writeResults demo_host (store demo_last)) demo_last))
    by (vm_compute; reflexivity).
  destruct (@advance_on_empty_queue demo_host demo_last _ 5 Hl Ht Hg Hw)
    as (Hc & _ & _ & Hp & _).
  split; [exact Hl|]. split; [exact Hc|]. rewrite Hp. vm_compute; reflexivity.
Defined.
